(** * AEM Toolkit: structural auditor, auto-fixer and text reconciliation

    A shallow embedding of the Python sources

    - [Toolkit-main-revison-1/tpc.py]      (read-only auditor, [run_aem_audit]),
    - [Toolkit-main-revison-1/fix_xml.py]  (auto-fixer, [run_aem_fixer]),
    - [Toolkit-main-revison-1/xmlsasd.py]  (block extractor, containment table),
    - [xmlsasd.py]                         (sentence extractor, diff report),

    together with the parts of the Python library they call
    ([str] methods, the regular expressions, [xml.etree.ElementTree]
    traversal, [pathlib] names and [difflib.Differ]).

    Conventions.  A Python [str] is a [string]; each character is read as
    the code point 0..255 (Latin-1), and the character classes below are
    the ones CPython uses for these code points.  [print] is modelled by
    the value printed; ANSI colour codes, which never influence control
    flow, are left out of the printed values, except in the placeholder
    that [wrap_context] returns and in the summary box of the auditor,
    which are kept character by character.  The keys of [attrib] are the
    keys the parser stores: an attribute written with a namespace prefix
    is held under the URI of the namespace in braces followed by the
    local name.  A [float] is a binary64 number of [SpecFloat]. *)

From Stdlib Require Import Ascii String List NArith ZArith QArith Bool Lia.
From Stdlib Require SpecFloat.
From stdpp Require Import base option list gmap strings.
From Equations Require Import Equations.

Local Open Scope string_scope.
Local Open Scope list_scope.

(* ===================================================================== *)
(** ** Python strings *)
(* ===================================================================== *)

Module PyStr.

Definition code (c : ascii) : N := N_of_ascii c.

Definition between (lo hi : N) (c : ascii) : bool :=
  ((lo <=? code c) && (code c <=? hi))%N.

(** [str.isspace] on one character, which is also the class [\s] of
    [re] for [str] patterns. *)
Definition isspace (c : ascii) : bool :=
  between 9 13 c || between 28 32 c
  || (code c =? 133)%N || (code c =? 160)%N.

(** The class [\w] of [re] for [str] patterns: alphanumerics and the
    underscore. *)
Definition isword (c : ascii) : bool :=
  between 48 57 c || between 65 90 c || (code c =? 95)%N
  || between 97 122 c
  || (code c =? 170)%N || (code c =? 178)%N || (code c =? 179)%N
  || (code c =? 181)%N || (code c =? 185)%N || (code c =? 186)%N
  || between 188 190 c || between 192 214 c || between 216 246 c
  || between 248 255 c.

(** [str.lower] on one character. *)
Definition lower_char (c : ascii) : ascii :=
  if between 65 90 c || between 192 214 c || between 216 222 c
  then ascii_of_N (code c + 32) else c.

Fixpoint lower (s : string) : string :=
  match s with
  | EmptyString => EmptyString
  | String c s' => String (lower_char c) (lower s')
  end.

(** [s[:n]] *)
Fixpoint take (n : nat) (s : string) : string :=
  match n, s with
  | S n', String c s' => String c (take n' s')
  | _, _ => EmptyString
  end.

(** [s.startswith(p)] *)
Fixpoint startswith (p s : string) : bool :=
  match p, s with
  | EmptyString, _ => true
  | String a p', String b s' => if Ascii.eqb a b then startswith p' s' else false
  | String _ _, EmptyString => false
  end.

(** [needle in hay] *)
Fixpoint contains (needle hay : string) : bool :=
  startswith needle hay ||
  match hay with
  | EmptyString => false
  | String _ hay' => contains needle hay'
  end.

(** [s.lstrip()], [s.rstrip()], [s.strip()] *)
Fixpoint lstrip (s : string) : string :=
  match s with
  | String c s' => if isspace c then lstrip s' else s
  | EmptyString => EmptyString
  end.

Fixpoint rstrip (s : string) : string :=
  match s with
  | EmptyString => EmptyString
  | String c s' =>
      match rstrip s' with
      | EmptyString => if isspace c then EmptyString else String c EmptyString
      | r => String c r
      end
  end.

Definition strip (s : string) : string := rstrip (lstrip s).

(** [sep.join(parts)] *)
Fixpoint join (sep : string) (parts : list string) : string :=
  match parts with
  | [] => EmptyString
  | [p] => p
  | p :: rest => p ++ sep ++ join sep rest
  end.

(** [c * n] for a one-character string [c] *)
Fixpoint repeat_char (c : ascii) (n : nat) : string :=
  match n with
  | O => EmptyString
  | S n' => String c (repeat_char c n')
  end.

(** Truth value of an optional string: [None] and [""] are false. *)
Definition truthy (t : option string) : bool :=
  match t with
  | Some (String _ _) => true
  | _ => false
  end.

(** [(t or "")] *)
Definition or_empty (t : option string) : string := default EmptyString t.

End PyStr.

(* ===================================================================== *)
(** ** ElementTree elements *)
(* ===================================================================== *)

(** An [xml.etree.ElementTree.Element].  [start_line_number] is the attribute
    [_start_line_number] the [LineNumberingParser] attaches; it is absent
    ([None]) on elements built by [ET.Element(...)]. *)
#[warnings="-register-all"]
Inductive element : Type :=
  Element {
    tag : string;
    attrib : gmap string string;
    text : option string;
    tail : option string;
    start_line_number : option nat;
    children : list element
  }.

Module ET.

(** [list(e.iter())]: the element and its descendants in document
    (pre-)order. *)
Fixpoint iter (e : element) : list element :=
  match e with
  | Element _ _ _ _ _ cs => e :: flat_map iter cs
  end.

Definition text_part (t : option string) : list string :=
  if PyStr.truthy t then [PyStr.or_empty t] else [].

(** [list(e.itertext())]: the text of the element, then for every child
    its own inner text followed by its tail. *)
Fixpoint itertext (e : element) : list string :=
  match e with
  | Element _ _ t _ _ cs =>
      text_part t ++ flat_map (fun c => itertext c ++ text_part (tail c)) cs
  end.

(** [any(c.tag == t for c in e)] *)
Definition has_child_tagged (t : string) (e : element) : bool :=
  existsb (fun c => String.eqb (tag c) t) (children e).

(** [bool(e)]: an element is false exactly when it has no children. *)
Definition truth (e : element) : bool :=
  match children e with [] => false | _ :: _ => true end.

End ET.

(* ===================================================================== *)
(** ** Attribute names with a namespace prefix *)
(* ===================================================================== *)

Module Namespaces.

(** Prefix and local part of a name written with a colon. *)
Fixpoint split_prefix (name : string) : option (string * string) :=
  match name with
  | EmptyString => None
  | String c rest =>
      if Ascii.eqb c ":" then Some (EmptyString, rest)
      else match split_prefix rest with
           | Some (prefix, local) => Some (String c prefix, local)
           | None => None
           end
  end.

Definition prefixed (name : string) : bool :=
  match split_prefix name with
  | Some _ => true
  | None => false
  end.

(** The key under which [XMLParser] stores an attribute that the
    document writes as [name], with the namespace declarations [ns]
    (prefix to URI) in scope: the parser resolves the prefix, and the key
    is the URI in braces followed by the local part.  An attribute
    without prefix keeps its name.  A prefix that is not declared is a
    parse error ([unbound prefix]), here [None]. *)
Definition fixname (ns : gmap string string) (name : string) : option string :=
  match split_prefix name with
  | None => Some name
  | Some (prefix, local) =>
      uri ← ns !! prefix;
      Some ("{" +:+ uri +:+ "}" +:+ local)
  end.

(** A key of [attrib] in a parsed document: a name in braces notation,
    or a name without prefix. *)
Definition parsed_key (key : string) : bool :=
  PyStr.startswith "{" key || negb (prefixed key).

Definition parsed_element (e : element) : bool :=
  forallb parsed_key (map fst (map_to_list (attrib e))).

(** A document as [ET.parse] returns it. *)
Definition parsed (root : element) : bool :=
  forallb parsed_element (ET.iter root).

(** The namespaces of the tag set under their prefixes, as
    [save_fixed_copy] registers them with [ET.register_namespace]. *)
Definition registered : gmap string string :=
  {[ "xlink" := "http://www.w3.org/1999/xlink";
     "mml" := "http://www.w3.org/1998/Math/MathML" ]}.

End Namespaces.

(** ["".join(elem.itertext()).strip()], computed at the top of both
    traversal loops. *)
Definition full_text_of (elem : element) : string :=
  PyStr.strip (PyStr.join "" (ET.itertext elem)).

(** What a record shows as its line: a line number, the ["?"] of an
    element without [_start_line_number], or the literal ["FRONT"] of the
    front-matter check. *)
Inductive line_ref : Type :=
| LineNumber (n : nat)
| NoLine
| Front.

(** [getattr(elem, "_start_line_number", "?")] *)
Definition line_of (elem : element) : line_ref :=
  match start_line_number elem with
  | Some n => LineNumber n
  | None => NoLine
  end.

(** The arguments of one call of [print_aem_violation]. *)
Record violation : Type :=
  Violation {
    v_tag : string;
    v_line : line_ref;
    v_context : string;
    v_violation : string;
    v_fix : string;
    v_spec_ref : string
  }.

(** The loop state shared by the auditor and the fixer: the counter
    [violation_count] and the records printed so far. *)
Record report : Type :=
  Report {
    violation_count : nat;
    printed : list violation
  }.

Definition no_report : report := Report 0 [].

(** [violation_count += 1; print_aem_violation(...)] *)
Definition flag (v : violation) (st : report) : report :=
  Report (S (violation_count st)) (printed st ++ [v]).

(* ===================================================================== *)
(** ** The auditor, [tpc.py] *)
(* ===================================================================== *)

Module Audit.

(** The dictionary [aem_rules]: tag -> (mandatory attributes, section
    of the editorial specification). *)
Definition aem_rules_items : list (string * (list string * string)) :=
  [ ("article",        (["article-type"], "Article-type"));
    ("article-id",     (["pub-id-type"], "JATS: article-id"));
    ("book-id",        (["pub-id-type"], "BITS: book-id"));
    ("contrib",        (["contrib-type"], "Contributors"));
    ("publisher-loc",  ([], "Publisher"));
    ("table-wrap",     (["id"; "position"], "Tables"));
    ("fig",            (["id"; "position"], "Figures"));
    ("graphic",        (["xlink:href"], "Figures"));
    ("ext-link",       (["xlink:href"; "ext-link-type"], "External References"));
    ("disp-formula",   (["id"], "Math Equations"));
    ("inline-formula", (["id"], "Math Equations")) ].

Definition aem_rules : gmap string (list string * string) :=
  list_to_map aem_rules_items.

(** [attr not in elem.attrib] *)
Definition lacks (attr : string) (elem : element) : bool :=
  bool_decide (attrib elem !! attr = None).

Definition missing_attribute (tag : string) (line : line_ref)
    (full_text attr spec_name : string) : violation :=
  Violation tag line full_text
    ("Missing mandatory attribute: '" ++ attr ++ "'")
    ("Add " ++ attr ++ " to follow " ++ spec_name ++ " guidelines.")
    spec_name.

Definition missing_publisher_loc (tag : string) (line : line_ref)
    (full_text : string) : violation :=
  Violation tag line full_text
    "Missing <publisher-loc>"
    "Spec Rule: <publisher-loc> is mandatory in BITS. Use 'Washington DC' for gov-based if unknown."
    "Publisher".

Definition uniform_bold (tag : string) (line : line_ref)
    (full_text : string) : violation :=
  Violation tag line full_text
    "Uniform Bold Emphasis found in Title"
    "Spec Rule: Remove uniform emphasis in titles unless it provides additional meaning."
    "Emphasis".

Definition math_missing_id (tag : string) (line : line_ref)
    (full_text : string) : violation :=
  Violation tag line full_text
    "Math Equation missing ID"
    "Spec Rule: 'id' is mandatory for linking to <xref> pointers."
    "Math Equations".

(** [len(children) == 1 and children[0].tag == "bold"] *)
Definition single_bold_child (elem : element) : bool :=
  match children elem with
  | [c] => String.eqb (tag c) "bold"
  | _ => false
  end.

(** [t in ts], for a list or set of tags. *)
Definition in_tags (t : string) (ts : list string) : bool :=
  existsb (String.eqb t) ts.

(** The body of the loop [for elem in root.iter()]. *)
Definition audit_elem (is_bits : bool) (elem : element) (st : report) : report :=
  let tg := tag elem in
  let line := line_of elem in
  let full_text := full_text_of elem in
  (* 1. Mandatory Attribute Check *)
  let st :=
    match aem_rules !! tg with
    | Some (required_attrs, spec_name) =>
        fold_left
          (fun st attr =>
             if lacks attr elem
             then flag (missing_attribute tg line full_text attr spec_name) st
             else st)
          required_attrs st
    | None => st
    end in
  (* 2. BITS Specific: Publisher Location Rule *)
  let st :=
    if is_bits && String.eqb tg "publisher" then
      if negb (ET.has_child_tagged "publisher-loc" elem)
      then flag (missing_publisher_loc tg line full_text) st
      else st
    else st in
  (* 3. Emphasis Rule: Uniform Bold in Titles *)
  let st :=
    if in_tags tg ["title"; "article-title"; "book-title"] then
      if single_bold_child elem
      then flag (uniform_bold tg line full_text) st
      else st
    else st in
  (* 4. Math Rule: IDs for Formulas *)
  let st :=
    if in_tags tg ["disp-formula"; "inline-formula"] then
      if lacks "id" elem
      then flag (math_missing_id tg line full_text) st
      else st
    else st in
  st.

(** [run_aem_audit] once the document is parsed: [is_bits] is
    ["_BITS" in xml_path.name.upper()]. *)
Definition run_aem_audit (is_bits : bool) (root : element) : report :=
  fold_left (fun st elem => audit_elem is_bits elem st) (ET.iter root) no_report.

End Audit.

(* ===================================================================== *)
(** ** The auto-fixer, [fix_xml.py] *)
(* ===================================================================== *)

Definition inspect {A : Type} (a : A) : {b : A | a = b} := exist _ a eq_refl.

(** The substitution [re.sub(r'(\w)-\s+(\w)', r'\1\2', text)]. *)
Module SoftHyphen.

(** An attempt to match [(\w)-\s+(\w)] at the start of [s]: the two
    captured characters and the text after the match.  [\s+] is greedy;
    giving back whitespace never helps, since the character after a
    shorter run is whitespace and so not in [\w]. *)
Definition match_here (s : string) : option (ascii * ascii * string) :=
  match s with
  | String c (String h (String w rest)) =>
      if PyStr.isword c && Ascii.eqb h "-" && PyStr.isspace w then
        match PyStr.lstrip rest with
        | String d rest' => if PyStr.isword d then Some (c, d, rest') else None
        | EmptyString => None
        end
      else None
  | _ => None
  end.

Lemma lstrip_length s : String.length (PyStr.lstrip s) <= String.length s.
Proof.
  induction s as [|c s IH]; simpl; [lia|].
  destruct (PyStr.isspace c); simpl; lia.
Qed.

Lemma match_here_length s a b r :
  match_here s = Some (a, b, r) -> String.length r + 4 <= String.length s.
Proof.
  destruct s as [|c [|h [|w rest]]]; simpl; try discriminate.
  destruct (_ && _); [|discriminate].
  pose proof (lstrip_length rest) as Hl.
  destruct (PyStr.lstrip rest) as [|d rest'] eqn:E; [discriminate|].
  destruct (PyStr.isword d); [|discriminate].
  intros [= <- <- <-]. simpl in *. lia.
Qed.

#[local] Opaque match_here.

(** Matches are replaced from left to right; the search resumes after
    the end of the previous match. *)
Equations? sub (s : string) : string by wf (String.length s) lt :=
  sub EmptyString := EmptyString;
  sub (String c s') with inspect (match_here (String c s')) => {
    | @exist _ _ (Some (a, b, rest)) E := String a (String b (sub rest));
    | @exist _ _ None _ := String c (sub s') }.
Proof.
  apply (match_here_length (String c s')) in E. simpl in E. lia.
Qed.

#[local] Transparent match_here.

End SoftHyphen.

Module Fixer.

(** [new_id = ET.Element("article-id"); new_id.set("pub-id-type", "nces");
    new_id.text = "2021-126"] *)
Definition new_id : element :=
  Element "article-id" {[ "pub-id-type" := "nces" ]} (Some "2021-126") None None [].

(** [new_loc = ET.Element("publisher-loc"); new_loc.text = "Washington DC"] *)
Definition new_loc : element :=
  Element "publisher-loc" ∅ (Some "Washington DC") None None [].

(** Elements are Python objects that the fixer mutates in place; an
    element found by [find] is designated here by its path from the
    root, the list of child indices leading to it. *)
Definition path : Type := list nat.

(** [root.find(".//t")]: the first proper descendant tagged [t], in
    document order. *)
Fixpoint find_desc (t : string) (e : element) : option path :=
  match e with
  | Element _ _ _ _ _ cs =>
      (fix scan (i : nat) (cs : list element) : option path :=
         match cs with
         | [] => None
         | c :: cs' =>
             if String.eqb (tag c) t then Some [i]
             else match find_desc t c with
                  | Some p => Some (i :: p)
                  | None => scan (S i) cs'
                  end
         end) 0 cs
  end.

(** The element a path designates. *)
Fixpoint at_path (p : path) (e : element) : option element :=
  match p with
  | [] => Some e
  | i :: p' =>
      match children e !! i with
      | Some c => at_path p' c
      | None => None
      end
  end.

Definition set_children (cs : list element) (e : element) : element :=
  Element (tag e) (attrib e) (text e) (tail e) (start_line_number e) cs.

Definition set_text (t : option string) (e : element) : element :=
  Element (tag e) (attrib e) t (tail e) (start_line_number e) (children e).

(** A mutation [f] of the element a path designates, seen from the root. *)
Fixpoint update_at (p : path) (f : element -> element) (e : element) : element :=
  match p with
  | [] => f e
  | i :: p' =>
      match children e !! i with
      | Some c => set_children (<[ i := update_at p' f c ]> (children e)) e
      | None => e
      end
  end.

(** [a or b] on results of [find]: [a] unless it is [None] or an element
    whose truth value is false. *)
Definition find_or (root : element) (a b : option path) : option path :=
  match a with
  | Some p =>
      match at_path p root with
      | Some e => if ET.truth e then a else b
      | None => b
      end
  | None => b
  end.

(** [root.find(".//article-meta") or root.find(".//book-meta")] *)
Definition front_matter_target (root : element) : option path :=
  find_or root (find_desc "article-meta" root) (find_desc "book-meta" root).

(** [meta.find("./article-id[@pub-id-type='nces']") is not None] *)
Definition has_nces_id (meta : element) : bool :=
  existsb
    (fun c => String.eqb (tag c) "article-id"
              && bool_decide (attrib c !! "pub-id-type" = Some "nces"))
    (children meta).

(** [meta.insert(0, new_id)] *)
Definition insert_first (x : element) (meta : element) : element :=
  set_children (x :: children meta) meta.

Definition missing_nces_id : violation :=
  Violation "article-id" Front "N/A" "Missing NCES ID" "Inserted 2021-126" "Front Matter".

(** FRONT MATTER CHECK *)
Definition front_matter (root : element) (st : report) : element * report :=
  match front_matter_target root with
  | Some p =>
      match at_path p root with
      | Some article_meta =>
          if negb (has_nces_id article_meta)
          then (update_at p (insert_first new_id) root, flag missing_nces_id st)
          else (root, st)
      | None => (root, st)
      end
  | None => (root, st)
  end.

Definition missing_publisher_loc (tag : string) (line : line_ref)
    (full_text : string) : violation :=
  Violation tag line full_text "Missing Publisher Loc" "Added Washington DC" "Front Matter".

Definition uniform_bold (tag : string) (line : line_ref)
    (full_text : string) : violation :=
  Violation tag line full_text "Uniform Bold Removal" "Stripped <bold> from title" "Emphasis".

Definition soft_hyphen (tag : string) (line : line_ref)
    (full_text : string) : violation :=
  Violation tag line full_text "Soft-hyphen Artifact" "Merged broken word" "Text Clean".

(** The three rules of the loop body.  Each takes the tag, line and
    [full_text] computed at the top of the body, before any mutation. *)

(** RULE: Publisher Loc *)
Definition publisher_rule (tg : string) (line : line_ref) (full_text : string)
    (elem : element) (st : report) : element * report :=
  if String.eqb tg "publisher" && negb (ET.has_child_tagged "publisher-loc" elem)
  then (set_children (children elem ++ [new_loc]) elem,
        flag (missing_publisher_loc tg line full_text) st)
  else (elem, st).

(** RULE: Uniform Bold in Titles.  [elem.text = child.text;
    elem.remove(child)] *)
Definition title_rule (tg : string) (line : line_ref) (full_text : string)
    (elem : element) (st : report) : element * report :=
  match children elem with
  | [child] =>
      if Audit.in_tags tg ["title"; "article-title"] && String.eqb (tag child) "bold"
      then (set_children [] (set_text (text child) elem),
            flag (uniform_bold tg line full_text) st)
      else (elem, st)
  | _ => (elem, st)
  end.

(** RULE: PDF Hyphens/Spaces *)
Definition hyphen_rule (tg : string) (line : line_ref) (full_text : string)
    (elem : element) (st : report) : element * report :=
  if PyStr.truthy (text elem) then
    let cleaned := SoftHyphen.sub (PyStr.or_empty (text elem)) in
    if negb (String.eqb cleaned (PyStr.or_empty (text elem)))
    then (set_text (Some cleaned) elem, flag (soft_hyphen tg line full_text) st)
    else (elem, st)
  else (elem, st).

(** The body of the loop [for elem in root.iter()], as a function of
    the element at the moment it is reached.  The [NOTE] printed for
    [alt-text] elements is not a violation record and is left out. *)
Definition fix_elem (elem : element) (st : report) : element * report :=
  let tg := tag elem in
  let line := line_of elem in
  let full_text := full_text_of elem in
  let '(elem, st) := publisher_rule tg line full_text elem st in
  let '(elem, st) := title_rule tg line full_text elem st in
  hyphen_rule tg line full_text elem st.

(** [root.iter()] is lazy: an element is yielded, the loop body mutates
    it, and only then does the iterator descend into the children the
    element has at that point.  A child appended by the body is visited;
    a child removed by the body is not.  [fix_children] threads the
    report through the children from left to right. *)
Fixpoint fix_children (walk : element -> report -> option (element * report))
    (cs : list element) (st : report) : option (list element * report) :=
  match cs with
  | [] => Some ([], st)
  | c :: cs' =>
      '(c', st) ← walk c st;
      '(cs'', st) ← fix_children walk cs' st;
      Some (c' :: cs'', st)
  end.

(** The traversal from [elem] on: the loop body on [elem], then the
    traversal of each child it has afterwards.  [None] only if [fuel] is
    smaller than the depth reached. *)
Fixpoint fix_walk (fuel : nat) (elem : element) (st : report)
    : option (element * report) :=
  match fuel with
  | O => None
  | S fuel' =>
      let '(elem, st) := fix_elem elem st in
      '(cs, st) ← fix_children (fix_walk fuel') (children elem) st;
      Some (set_children cs elem, st)
  end.

(** The number of levels of a tree. *)
Fixpoint depth (e : element) : nat :=
  match e with
  | Element _ _ _ _ _ cs => S (foldr Nat.max 0 (map depth cs))
  end.

(** The fixer on a parsed document: front-matter check, then the
    traversal.  The result is the mutated tree and the final
    [violation_count] with the records printed.  The optional comparison
    with PDF sample phrases that follows the loop only prints; it
    changes neither the tree nor the counter and is left out. *)
Definition fix_tree (root : element) : option (element * report) :=
  let '(root, st) := front_matter root no_report in
  fix_walk (S (depth root)) root st.

End Fixer.

(* ===================================================================== *)
(** ** Text extraction *)
(* ===================================================================== *)

Module Extract.

(** [re.sub(r'\s+', ' ', text)]: every maximal run of whitespace becomes
    one space.  A whitespace character followed by another one is
    dropped; the last one of a run produces the space. *)
Fixpoint sub_spaces (s : string) : string :=
  match s with
  | EmptyString => EmptyString
  | String c s' =>
      if PyStr.isspace c then
        match s' with
        | String d _ => if PyStr.isspace d then sub_spaces s' else String " " (sub_spaces s')
        | EmptyString => String " " EmptyString
        end
      else String c (sub_spaces s')
  end.

(** [clean_text], the same in both versions of [xmlsasd.py]; the guard
    [if not text: return ""] is the first case. *)
Definition clean_text (text : string) : string :=
  match text with
  | EmptyString => EmptyString
  | _ => PyStr.strip (sub_spaces text)
  end.

(** Block extractor of [Toolkit-main-revison-1/xmlsasd.py]. *)
Module Blocks.

Definition content_tags : list string :=
  ["p"; "article-title"; "title"; "td"; "term"; "def"; "abstract"].

(** The loop body: the units appended for one element. *)
Definition units_of (elem : element) : list string :=
  if Audit.in_tags (tag elem) content_tags then
    let text := PyStr.join "" (ET.itertext elem) in
    let clean_p := clean_text text in
    if (20 <? String.length clean_p)%nat then [clean_p] else []
  else [].

(** [extract_xml_paragraphs] on a parsed document. *)
Definition extract_xml_paragraphs (root : element) : list string :=
  flat_map units_of (ET.iter root).

End Blocks.

(** Sentence extractor of [xmlsasd.py]. *)
Module Sentences.

Definition content_tags : list string :=
  ["article-title"; "book-title"; "subtitle"; "p"; "title"; "label"; "td"; "term"; "def"].

(** [if t and t.strip(): extracted_parts.append(t.strip())] *)
Definition stripped_part (t : option string) : list string :=
  if PyStr.truthy t then
    match PyStr.strip (PyStr.or_empty t) with
    | EmptyString => []
    | s => [s]
    end
  else [].

Definition parts_of (elem : element) : list string :=
  if Audit.in_tags (tag elem) content_tags
  then stripped_part (text elem) ++ stripped_part (tail elem)
  else [].

(** [extract_xml_text] on a parsed document. *)
Definition extract_xml_text (root : element) : string :=
  clean_text (PyStr.join " " (flat_map parts_of (ET.iter root))).

Definition ends_sentence (c : ascii) : bool :=
  Ascii.eqb c "." || Ascii.eqb c "!" || Ascii.eqb c "?".

Definition cons_char (c : ascii) (pieces : list string) : list string :=
  match pieces with
  | piece :: rest => String c piece :: rest
  | [] => [String c EmptyString]
  end.

(** [re.split(r'(?<=[.!?]) +', text)].  A separator starts at a space
    that follows one of [.!?] and extends over the spaces after it.
    [prev_end]: the previous character is one of [.!?]; [in_sep]: the
    previous character belongs to a separator.  The head of the
    result is the rest of the piece being read. *)
Fixpoint re_split (prev_end in_sep : bool) (s : string) : list string :=
  match s with
  | EmptyString => [EmptyString]
  | String c s' =>
      if Ascii.eqb c " " && in_sep then re_split false true s'
      else if Ascii.eqb c " " && prev_end then EmptyString :: re_split false true s'
      else cons_char c (re_split (ends_sentence c) false s')
  end.

(** [split_into_sentences] *)
Definition split_into_sentences (text : string) : list string :=
  let sentences := re_split false false text in
  flat_map
    (fun s => if (2 <? String.length (PyStr.strip s))%nat then [PyStr.strip s] else [])
    sentences.

End Sentences.

End Extract.

(* ===================================================================== *)
(** ** Python numbers *)
(* ===================================================================== *)

Module PyFloat.

(** A Python [float] is an IEEE 754 binary64 number. *)
Definition prec : Z := 53.
Definition emax : Z := 1024.

(** A number as a variable holds it: an [int] or a [float]. *)
Inductive number : Type :=
| Int (z : Z)
| Float (x : SpecFloat.spec_float).

(** [float(z)] *)
Definition of_Z (z : Z) : SpecFloat.spec_float :=
  SpecFloat.binary_normalize prec emax z 0 false.

(** [a / b] for two [int]s below [2 ** 53], as the lengths of lists
    are: the quotient of the two conversions, correctly rounded; and
    [x * n] for a [float] and an [int]. *)
Definition true_divide (a b : Z) : SpecFloat.spec_float :=
  SpecFloat.SFdiv prec emax (of_Z a) (of_Z b).

Definition times (x : SpecFloat.spec_float) (n : Z) : SpecFloat.spec_float :=
  SpecFloat.SFmul prec emax x (of_Z n).

End PyFloat.

(* ===================================================================== *)
(** ** Containment mode: [draw_table] *)
(* ===================================================================== *)

Module Containment.

(** What [draw_table] reports: for every PDF paragraph the status shown
    on the first line of its block, then the footer
    [TOTAL MATCHES: found_count/len(pdf_paras) (match_pct%)].  The column
    layout ([textwrap], padding) is left out; [match_pct] is the number
    that the footer shows with one decimal, the [int] zero or a
    [float]. *)
Record table : Type :=
  Table {
    rows : list (string * string);
    found_count : nat;
    total : nat;
    match_pct : PyFloat.number
  }.

(** [any(para.lower()[:60] in x for x in xml_pool_lower)] *)
Definition is_match (xml_pool_lower : list string) (para : string) : bool :=
  existsb (fun x => PyStr.contains (PyStr.take 60 (PyStr.lower para)) x) xml_pool_lower.

Definition status_text (xml_pool_lower : list string) (para : string) : string :=
  if is_match xml_pool_lower para then "FOUND" else "MISSING".

Definition draw_table (pdf_paras xml_pool : list string) : table :=
  let xml_pool_lower := map PyStr.lower xml_pool in
  let rows := map (fun para => (para, status_text xml_pool_lower para)) pdf_paras in
  let found_count :=
    fold_left (fun n para => if is_match xml_pool_lower para then S n else n) pdf_paras 0 in
  (* (found_count / len(pdf_paras) * 100) if pdf_paras else 0 *)
  let match_pct :=
    match pdf_paras with
    | [] => PyFloat.Int 0
    | _ =>
        PyFloat.Float
          (PyFloat.times
             (PyFloat.true_divide (Z.of_nat found_count) (Z.of_nat (length pdf_paras)))
             100)
    end in
  Table rows found_count (length pdf_paras) match_pct.

End Containment.

(* ===================================================================== *)
(** ** [difflib] (CPython 3.11) *)
(* ===================================================================== *)

Module Difflib.

Inductive opcode_tag : Type := Replace | Delete | Insert | Equal.

Definition match_block : Type := (nat * nat * nat)%type.
Definition opcode : Type := (opcode_tag * nat * nat * nat * nat)%type.

(** [SequenceMatcher(None, a, b)]: no junk predicate, [autojunk=True]. *)
Section SequenceMatcher.

Context {A : Type} `{EqDecision A}.
Variables a b : list A.

Fixpoint positions (elt : A) (l : list A) (j : nat) : list nat :=
  match l with
  | [] => []
  | x :: l' =>
      if decide (x = elt) then j :: positions elt l' (S j)
      else positions elt l' (S j)
  end.

(** [__chain_b]: with [n >= 200] elements in [b], those occurring more
    than [n // 100 + 1] times are popular and are removed from [b2j]. *)
Definition popular (elt : A) : bool :=
  let n := length b in
  (200 <=? n)%nat && (n / 100 + 1 <? length (positions elt b 0))%nat.

(** [b2j.get(elt, [])]: the indices of [elt] in [b], increasing. *)
Definition b2j (elt : A) : list nat :=
  if popular elt then [] else positions elt b 0.

Definition same_at (i j : nat) : bool :=
  match a !! i, b !! j with
  | Some x, Some y => bool_decide (x = y)
  | _, _ => false
  end.

Section FindLongestMatch.

Variables alo ahi blo bhi : nat.

(** The loop [for j in b2j.get(a[i], nothing)], with its [continue]
    below [blo] and its [break] from [bhi] on. *)
Fixpoint scan_row (i : nat) (js : list nat) (j2len newj2len : gmap nat nat)
    (best : match_block) : gmap nat nat * match_block :=
  match js with
  | [] => (newj2len, best)
  | j :: js' =>
      if (j <? blo)%nat then scan_row i js' j2len newj2len best
      else if (bhi <=? j)%nat then (newj2len, best)
      else
        let prev := match j with
                    | O => 0
                    | S j1 => default 0 (j2len !! j1)
                    end in
        let k := prev + 1 in
        let newj2len := <[ j := k ]> newj2len in
        let '(_, _, bestsize) := best in
        let best := if (bestsize <? k)%nat then (i + 1 - k, j + 1 - k, k) else best in
        scan_row i js' j2len newj2len best
  end.

Definition scan_rows : match_block :=
  snd (fold_left
         (fun '(j2len, best) i =>
            let js := match a !! i with Some x => b2j x | None => [] end in
            scan_row i js j2len ∅ best)
         (seq alo (ahi - alo))
         (∅, (alo, blo, 0))).

(** [while besti > alo and bestj > blo and a[besti-1] == b[bestj-1]];
    at most [besti] rounds. *)
Fixpoint extend_back (rounds : nat) (best : match_block) : match_block :=
  let '(besti, bestj, bestsize) := best in
  match rounds with
  | O => best
  | S rounds' =>
      if (alo <? besti)%nat && (blo <? bestj)%nat && same_at (besti - 1) (bestj - 1)
      then extend_back rounds' (besti - 1, bestj - 1, bestsize + 1)
      else best
  end.

(** [while besti+bestsize < ahi and bestj+bestsize < bhi and
    a[besti+bestsize] == b[bestj+bestsize]]; at most [ahi] rounds. *)
Fixpoint extend_forward (rounds : nat) (best : match_block) : match_block :=
  let '(besti, bestj, bestsize) := best in
  match rounds with
  | O => best
  | S rounds' =>
      if (besti + bestsize <? ahi)%nat && (bestj + bestsize <? bhi)%nat
         && same_at (besti + bestsize) (bestj + bestsize)
      then extend_forward rounds' (besti, bestj, bestsize + 1)
      else best
  end.

(** [find_longest_match(alo, ahi, blo, bhi)].  The two further loops
    of the source extend the match over junk elements of [b] and do
    nothing without a junk predicate. *)
Definition find_longest_match : match_block :=
  let best := scan_rows in
  let best := extend_back (fst (fst best)) best in
  extend_forward ahi best.

End FindLongestMatch.

Definition block_le (x y : match_block) : bool :=
  let '(i1, j1, k1) := x in
  let '(i2, j2, k2) := y in
  (i1 <? i2)%nat
  || ((i1 =? i2)%nat && ((j1 <? j2)%nat || ((j1 =? j2)%nat && (k1 <=? k2)%nat))).

Fixpoint insert_sorted (x : match_block) (l : list match_block) : list match_block :=
  match l with
  | [] => [x]
  | y :: l' => if block_le x y then x :: l else y :: insert_sorted x l'
  end.

(** [matching_blocks.sort()] *)
Definition sort_blocks (l : list match_block) : list match_block :=
  foldr insert_sorted [] l.

(** The loop [while queue:]; [queue.pop()] takes the last element
    pushed, kept at the head here.  [None] if [rounds] are used up
    before the queue is empty. *)
Fixpoint drain (rounds : nat) (queue : list (nat * nat * nat * nat))
    (matching_blocks : list match_block) : option (list match_block) :=
  match queue with
  | [] => Some matching_blocks
  | (alo, ahi, blo, bhi) :: queue' =>
      match rounds with
      | O => None
      | S rounds' =>
          let '(i, j, k) := find_longest_match alo ahi blo bhi in
          match k with
          | O => drain rounds' queue' matching_blocks
          | S _ =>
              let queue1 :=
                if (alo <? i)%nat && (blo <? j)%nat
                then (alo, i, blo, j) :: queue' else queue' in
              let queue2 :=
                if (i + k <? ahi)%nat && (j + k <? bhi)%nat
                then (i + k, ahi, j + k, bhi) :: queue1 else queue1 in
              drain rounds' queue2 (matching_blocks ++ [(i, j, k)])
          end
      end
  end.

(** The loop that collapses adjacent blocks. *)
Fixpoint collapse (cur : match_block) (blocks : list match_block) : list match_block :=
  let '(i1, j1, k1) := cur in
  match blocks with
  | [] => match k1 with O => [] | S _ => [cur] end
  | (i2, j2, k2) :: rest =>
      if (i1 + k1 =? i2)%nat && (j1 + k1 =? j2)%nat
      then collapse (i1, j1, k1 + k2) rest
      else match k1 with
           | O => collapse (i2, j2, k2) rest
           | S _ => cur :: collapse (i2, j2, k2) rest
           end
  end.

Definition get_matching_blocks : option (list match_block) :=
  let la := length a in
  let lb := length b in
  blocks ← drain (S (2 * la)) [(0, la, 0, lb)] [];
  Some (collapse (0, 0, 0) (sort_blocks blocks) ++ [(la, lb, 0)]).

(** The loop of [get_opcodes] over the matching blocks. *)
Fixpoint opcodes_from (i j : nat) (blocks : list match_block) : list opcode :=
  match blocks with
  | [] => []
  | (ai, bj, size) :: rest =>
      let change :=
        if (i <? ai)%nat && (j <? bj)%nat then [(Replace, i, ai, j, bj)]
        else if (i <? ai)%nat then [(Delete, i, ai, j, bj)]
        else if (j <? bj)%nat then [(Insert, i, ai, j, bj)]
        else [] in
      let same :=
        match size with
        | O => []
        | S _ => [(Equal, ai, ai + size, bj, bj + size)]
        end in
      change ++ same ++ opcodes_from (ai + size) (bj + size) rest
  end.

Definition get_opcodes : option (list opcode) :=
  blocks ← get_matching_blocks;
  Some (opcodes_from 0 0 blocks).

(** [_calculate_ratio]: [2.0 * matches / length], or [1.0] for
    [length == 0].  Ratios are kept as exact fractions; two such floats,
    or one and the constants 0.74 and 0.75, compare like the fractions
    as long as the two sequences have fewer than 2^26 elements together. *)
Definition calculate_ratio (matches length : nat) : Q :=
  match length with
  | O => 1%Q
  | S _ => (Z.of_nat (2 * matches) # Pos.of_nat length)%Q
  end.

Definition ratio : option Q :=
  blocks ← get_matching_blocks;
  Some (calculate_ratio (foldr (fun '(_, _, k) n => k + n) 0 blocks)
                        (length a + length b)).

(** [quick_ratio]: every element of [a] counts as a match as long as
    occurrences of it in [b] are left. *)
Fixpoint remove_one (x : A) (l : list A) : option (list A) :=
  match l with
  | [] => None
  | y :: l' =>
      if decide (y = x) then Some l'
      else l'' ← remove_one x l'; Some (y :: l'')
  end.

Fixpoint quick_matches (xs avail : list A) : nat :=
  match xs with
  | [] => 0
  | x :: xs' =>
      match remove_one x avail with
      | Some avail' => S (quick_matches xs' avail')
      | None => quick_matches xs' avail
      end
  end.

Definition quick_ratio : Q :=
  calculate_ratio (quick_matches a b) (length a + length b).

Definition real_quick_ratio : Q :=
  calculate_ratio (Nat.min (length a) (length b)) (length a + length b).

End SequenceMatcher.

End Difflib.

(** [difflib.Differ()], without junk predicates, on lists of lines. *)
Module Differ.

Import Difflib.

Definition chars (s : string) : list ascii := list_ascii_of_string s.

Definition line_at (x : list string) (i : nat) : string := default EmptyString (x !! i).

(** [_dump(tag, x, lo, hi)] *)
Definition dump (tag : string) (x : list string) (lo hi : nat) : list string :=
  map (fun i => tag +:+ " " +:+ line_at x i) (seq lo (hi - lo)).

(** [_plain_replace] *)
Definition plain_replace (a : list string) (alo ahi : nat)
    (b : list string) (blo bhi : nat) : list string :=
  if (bhi - blo <? ahi - alo)%nat
  then dump "+" b blo bhi ++ dump "-" a alo ahi
  else dump "-" a alo ahi ++ dump "+" b blo bhi.

(** [_keep_original_ws(s, tag_s)] *)
Fixpoint keep_original_ws (s tag_s : string) : string :=
  match s, tag_s with
  | String c s', String tag_c tag_s' =>
      String (if Ascii.eqb tag_c " " && PyStr.isspace c then c else tag_c)
             (keep_original_ws s' tag_s')
  | _, _ => EmptyString
  end.

(** [_qformat] *)
Definition qformat (aline bline atags btags : string) : list string :=
  let atags := PyStr.rstrip (keep_original_ws aline atags) in
  let btags := PyStr.rstrip (keep_original_ws bline btags) in
  let newline := String (ascii_of_nat 10) EmptyString in
  ["- " +:+ aline]
  ++ (match atags with EmptyString => [] | _ => ["? " +:+ atags +:+ newline] end)
  ++ ["+ " +:+ bline]
  ++ (match btags with EmptyString => [] | _ => ["? " +:+ btags +:+ newline] end).

(** The tag lines built from the opcodes of the two synchronised lines. *)
Fixpoint tag_lines (ops : list opcode) : string * string :=
  match ops with
  | [] => (EmptyString, EmptyString)
  | (tag, ai1, ai2, bj1, bj2) :: rest =>
      let la := ai2 - ai1 in
      let lb := bj2 - bj1 in
      let '(atags, btags) := tag_lines rest in
      match tag with
      | Replace => (PyStr.repeat_char "^" la +:+ atags, PyStr.repeat_char "^" lb +:+ btags)
      | Delete => (PyStr.repeat_char "-" la +:+ atags, btags)
      | Insert => (atags, PyStr.repeat_char "+" lb +:+ btags)
      | Equal => (PyStr.repeat_char " " la +:+ atags, PyStr.repeat_char " " lb +:+ btags)
      end
  end.

(** State of the search for the best pair of similar lines in
    [_fancy_replace]: [best_ratio], [(best_i, best_j)] once assigned, and
    [(eqi, eqj)], the first pair of identical lines. *)
Record search : Type :=
  Search {
    best_ratio : Q;
    best_ij : option (nat * nat);
    eq_ij : option (nat * nat)
  }.

Definition Qgt_bool (x y : Q) : bool := negb (Qle_bool x y).

(** The body of the inner loop [for i in range(alo, ahi)], for the line
    [bj = b[j]]. *)
Definition try_pair (a b : list string) (j : nat) (st : option search) (i : nat)
    : option search :=
  st ← st;
  let ai := line_at a i in
  let bj := line_at b j in
  if String.eqb ai bj then
    Some (match eq_ij st with
          | None => Search (best_ratio st) (best_ij st) (Some (i, j))
          | Some _ => st
          end)
  else
    if Qgt_bool (real_quick_ratio (chars ai) (chars bj)) (best_ratio st)
       && Qgt_bool (quick_ratio (chars ai) (chars bj)) (best_ratio st)
    then
      r ← ratio (chars ai) (chars bj);
      Some (if Qgt_bool r (best_ratio st)
            then Search r (Some (i, j)) (eq_ij st)
            else st)
    else Some st.

Definition find_best (a : list string) (alo ahi : nat)
    (b : list string) (blo bhi : nat) : option search :=
  fold_left
    (fun st j => fold_left (try_pair a b j) (seq alo (ahi - alo)) st)
    (seq blo (bhi - blo))
    (Some (Search (74 # 100) None None)).

(** [_fancy_replace], with [_fancy_helper] unfolded at its two calls.
    [None] if [rounds] are used up or an inner matcher ran out.  The
    recursion limit of the interpreter, which the nested generators of
    CPython reach on some hundred consecutive pairs of similar lines
    ([RecursionError]), is not part of the model. *)
Fixpoint fancy_replace (rounds : nat) (a : list string) (alo ahi : nat)
    (b : list string) (blo bhi : nat) : option (list string) :=
  match rounds with
  | O => None
  | S rounds' =>
      let fancy_helper alo ahi blo bhi : option (list string) :=
        if (alo <? ahi)%nat then
          if (blo <? bhi)%nat then fancy_replace rounds' a alo ahi b blo bhi
          else Some (dump "-" a alo ahi)
        else if (blo <? bhi)%nat then Some (dump "+" b blo bhi)
        else Some [] in
      st ← find_best a alo ahi b blo bhi;
      let cutoff := (75 # 100)%Q in
      let synch (best_i best_j : nat) (identical : bool) : option (list string) :=
        before ← fancy_helper alo best_i blo best_j;
        let aelt := line_at a best_i in
        let belt := line_at b best_j in
        middle ←
          (if identical then Some ["  " +:+ aelt]
           else
             ops ← get_opcodes (chars aelt) (chars belt);
             let '(atags, btags) := tag_lines ops in
             Some (qformat aelt belt atags btags));
        after ← fancy_helper (best_i + 1) ahi (best_j + 1) bhi;
        Some (before ++ middle ++ after) in
      if Qgt_bool cutoff (best_ratio st) then
        match eq_ij st with
        | None => Some (plain_replace a alo ahi b blo bhi)
        | Some (eqi, eqj) => synch eqi eqj true
        end
      else
        match best_ij st with
        | Some (best_i, best_j) => synch best_i best_j false
        | None => None
        end
  end.

(** The part of the output one opcode of [compare] yields. *)
Definition lines_of (a b : list string) (op : opcode) : option (list string) :=
  let '(tag, alo, ahi, blo, bhi) := op in
  match tag with
  | Replace => fancy_replace (S (ahi - alo + (bhi - blo))) a alo ahi b blo bhi
  | Delete => Some (dump "-" a alo ahi)
  | Insert => Some (dump "+" b blo bhi)
  | Equal => Some (dump " " a alo ahi)
  end.

Fixpoint concat_lines (a b : list string) (ops : list opcode) : option (list string) :=
  match ops with
  | [] => Some []
  | op :: ops' =>
      g ← lines_of a b op;
      rest ← concat_lines a b ops';
      Some (g ++ rest)
  end.

(** [list(Differ().compare(a, b))] *)
Definition compare (a b : list string) : option (list string) :=
  ops ← get_opcodes a b;
  concat_lines a b ops.

End Differ.

(* ===================================================================== *)
(** ** Alignment mode: [draw_comparison_graph] *)
(* ===================================================================== *)

Module Alignment.

(** What the report prints: a [print] of one string, and a call
    [wrap_and_print(prefix, text)], kept by its arguments (the wrapping
    into lines of 80 columns is layout). *)
Inductive output : Type :=
| Print (s : string)
| WrapAndPrint (prefix text : string).

(** [entry[0]] and [entry[2:]]; the entries of a diff are never empty. *)
Definition first_char (entry : string) : string :=
  match entry with
  | String c _ => String c EmptyString
  | EmptyString => EmptyString
  end.

Definition from_2 (entry : string) : string :=
  match entry with
  | String _ (String _ rest) => rest
  | _ => EmptyString
  end.

Definition digit (n : nat) : ascii := ascii_of_nat (48 + n mod 10).

(** [str(n)] for a natural number. *)
Fixpoint decimal (rounds n : nat) (acc : string) : string :=
  match rounds with
  | O => acc
  | S rounds' =>
      let acc := String (digit n) acc in
      if (n <? 10)%nat then acc else decimal rounds' (n / 10) acc
  end.

(** [f"{n:03}"]: decimal, padded with zeros to three digits. *)
Definition format_03 (n : nat) : string :=
  let s := decimal (S n) n EmptyString in
  PyStr.repeat_char "0" (3 - String.length s) +:+ s.

Definition rule (c : ascii) (n : nat) : string := PyStr.repeat_char c n.

Definition newline : string := String (ascii_of_nat 10) EmptyString.

(** The body of the loop [for entry in diff], without the final
    [line_num += 1]. *)
Definition entry_output (line_num : nat) (entry : string) : list output :=
  let status := first_char entry in
  let sentence := from_2 entry in
  if String.eqb status "  " then (* Match *)
    if (line_num mod 15 =? 0)%nat
    then [Print ("|| Line " +:+ format_03 line_num +:+ " | [OK] Verified sequence matches...")]
    else []
  else if String.eqb status "-" then (* PDF only *)
    [ Print ("||" +:+ rule "-" 76);
      WrapAndPrint ("LINE " +:+ format_03 line_num +:+ " | MISSING IN XML:") sentence;
      Print ("||" +:+ rule "-" 76) ]
  else if String.eqb status "+" then (* XML only *)
    [ Print ("||" +:+ rule "+" 76);
      WrapAndPrint ("LINE " +:+ format_03 line_num +:+ " | EXTRA IN XML:  ") sentence;
      Print ("||" +:+ rule "+" 76) ]
  else [].

Fixpoint entries_output (line_num : nat) (diff : list string) : list output :=
  match diff with
  | [] => []
  | entry :: diff' => entry_output line_num entry ++ entries_output (line_num + 1) diff'
  end.

(** Everything after [diff = list(d.compare(pdf_sent, xml_sent))]. *)
Definition render (diff : list string) : list output :=
  [ Print (newline +:+ rule "=" 80);
    Print "|| DOCUMENT SCAN REPORT";
    Print (rule "=" 80) ]
  ++ entries_output 1 diff
  ++ [ Print (rule "=" 80 +:+ newline) ].

Definition draw_comparison_graph (pdf_sent xml_sent : list string) : option (list output) :=
  diff ← Differ.compare pdf_sent xml_sent;
  Some (render diff).

End Alignment.

(* ===================================================================== *)
(** ** The fixer on files *)
(* ===================================================================== *)

Module Files.

(** A [pathlib.Path], as its list of components; the last one is the
    file name. *)
Definition path : Type := list string.

Definition name (p : path) : string := List.last p EmptyString.

(** [name.rfind('.')] *)
Fixpoint rfind_dot (s : string) : option nat :=
  match s with
  | EmptyString => None
  | String c s' =>
      match rfind_dot s' with
      | Some i => Some (S i)
      | None => if Ascii.eqb c "." then Some 0 else None
      end
  end.

Fixpoint drop (n : nat) (s : string) : string :=
  match n, s with
  | S n', String _ s' => drop n' s'
  | _, _ => s
  end.

(** The index at which [stem] and [suffix] split the name:
    [i = name.rfind('.')] when [0 < i < len(name) - 1], else the end. *)
Definition split_index (nm : string) : nat :=
  match rfind_dot nm with
  | Some i => if (0 <? i)%nat && (i + 1 <? String.length nm)%nat then i else String.length nm
  | None => String.length nm
  end.

Definition stem (p : path) : string := PyStr.take (split_index (name p)) (name p).
Definition suffix (p : path) : string := drop (split_index (name p)) (name p).

(** What a file holds, as far as [ET.parse] is concerned. *)
Inductive content : Type :=
| Xml (root : element)
| NotXml.

Record disk : Type :=
  Disk {
    files : gmap path content;
    dirs : gset path
  }.

Definition audited_dir : path := ["files"; "audited"].

(** [audited_dir / (original_path.stem + "_FIXED" + original_path.suffix)] *)
Definition new_path (original_path : path) : path :=
  audited_dir ++ [stem original_path +:+ "_FIXED" +:+ suffix original_path].

(** [save_fixed_copy]: [mkdir(parents=True)] when the directory is
    missing, then [tree.write(new_path, ...)]. *)
Definition save_fixed_copy (tree : element) (original_path : path) (d : disk) : disk :=
  Disk (<[ new_path original_path := Xml tree ]> (files d))
       (dirs d ∪ {[ ["files"]; audited_dir ]}).

(** The outcome of [run_aem_fixer]: the XML ERROR branch, or the final
    report. *)
Inductive outcome : Type :=
| XmlError
| Fixed (r : report).

(** [run_aem_fixer(xml_path)].  [None] only if the traversal were to
    stop short of its bound. *)
Definition run_aem_fixer (xml_path : path) (d : disk) : option (disk * outcome) :=
  match files d !! xml_path with
  | Some (Xml root) =>
      '(tree, st) ← Fixer.fix_tree root;
      if (0 <? violation_count st)%nat
      then Some (save_fixed_copy tree xml_path d, Fixed st)
      else Some (d, Fixed st)
  | _ => Some (d, XmlError)
  end.

End Files.

(* ===================================================================== *)
(** ** Context lines, the summary box and the file menus *)
(* ===================================================================== *)

(** The escape sequences of [class Colors]. *)
Module Colors.

Definition esc : string := String (ascii_of_nat 27) EmptyString.

Definition JATS_GREEN : string := esc +:+ "[92m".
Definition YELLOW : string := esc +:+ "[93m".
Definition RED : string := esc +:+ "[91m".
Definition BOLD : string := esc +:+ "[1m".
Definition RESET : string := esc +:+ "[0m".

End Colors.

Module Words.

(** [text.split()]: the maximal runs of characters that are not
    whitespace, in order. *)
Fixpoint split (s : string) : list string :=
  match s with
  | EmptyString => []
  | String c s' =>
      if PyStr.isspace c then split s'
      else match s' with
           | String d _ =>
               if PyStr.isspace d then String c EmptyString :: split s'
               else Extract.Sentences.cons_char c (split s')
           | EmptyString => [String c EmptyString]
           end
  end.

(** [list(range(0, n, step))] for [step > 0]. *)
Definition range_step (n step : nat) : list nat :=
  map (fun k => k * step) (seq 0 ((n + step - 1) / step)).

(** [str(n)] *)
Definition str (n : nat) : string := Alignment.decimal (S n) n EmptyString.

(** [f"{s:^width}"]: of the padding, the left side gets the smaller
    half. *)
Definition center (s : string) (width : nat) : string :=
  let pad := width - String.length s in
  PyStr.repeat_char " " (pad / 2) +:+ s +:+ PyStr.repeat_char " " (pad - pad / 2).

End Words.

(** The footer of [draw_table]. *)
Module Footer.

(** The integer nearest to [10 * m * 2 ** e], ties to even. *)
Definition tenths (m : positive) (e : Z) : Z :=
  match e with
  | Zneg k =>
      let num := (10 * Zpos m)%Z in
      let den := Z.pow_pos 2 k in
      let q := (num / den)%Z in
      let r := (num mod den)%Z in
      match (2 * r ?= den)%Z with
      | Gt => (q + 1)%Z
      | Eq => if Z.even q then q else (q + 1)%Z
      | Lt => q
      end
  | _ => (10 * Zpos m * 2 ^ e)%Z
  end.

(** [f"{x:.1f}"]: the decimal with one digit after the point that is
    nearest to the value, ties to even. *)
Definition format_1f_float (x : SpecFloat.spec_float) : string :=
  match x with
  | SpecFloat.S754_zero s => if s then "-0.0" else "0.0"
  | SpecFloat.S754_infinity s => if s then "-inf" else "inf"
  | SpecFloat.S754_nan => "nan"
  | SpecFloat.S754_finite s m e =>
      let n := Z.to_nat (tenths m e) in
      (if s then "-" else EmptyString)
      +:+ Words.str (n / 10) +:+ "." +:+ Words.str (n mod 10)
  end.

Definition format_1f (x : PyFloat.number) : string :=
  match x with
  | PyFloat.Int z => format_1f_float (PyFloat.of_Z z)
  | PyFloat.Float x => format_1f_float x
  end.

(** [summary = f"TOTAL MATCHES: {found_count}/{len(pdf_paras)}
    ({match_pct:.1f}%)"] *)
Definition summary (t : Containment.table) : string :=
  "TOTAL MATCHES: " +:+ Words.str (Containment.found_count t) +:+ "/"
  +:+ Words.str (Containment.total t)
  +:+ " (" +:+ format_1f (Containment.match_pct t) +:+ "%)".

(** [print(f"|| {summary:^{width - 6}} ||")], for the [width] of 115. *)
Definition footer_line (t : Containment.table) : string :=
  "|| " +:+ Words.center (summary t) 109 +:+ " ||".

End Footer.

(** [wrap_context] and the summary of [tpc.py]. *)
Module Dashboard.

(** [wrap_context(text, word_limit)].  [None] is the [ValueError] that
    [range] raises for a step of zero; [print_aem_violation] passes 15. *)
Definition wrap_context (text : string) (word_limit : nat) : option string :=
  let words := Words.split text in
  match words, word_limit with
  | [], _ => Some (Colors.RED +:+ "[No text content found]" +:+ Colors.RESET)
  | _, O => None
  | _, S _ =>
      let lines :=
        map (fun i => PyStr.join " " (take word_limit (drop i words)))
            (Words.range_step (length words) word_limit) in
      Some (PyStr.join Alignment.newline lines)
  end.

(** What [print_aem_violation] prints under [CONTEXT]. *)
Definition context_shown (v : violation) : option string :=
  wrap_context (v_context v) 15.

(** The three lines of a summary box. *)
Definition box (color message : string) : list string :=
  [ Colors.BOLD +:+ color +:+ "+" +:+ Alignment.rule "-" 78 +:+ "+";
    "| " +:+ Words.center message 76 +:+ " |";
    "+" +:+ Alignment.rule "-" 78 +:+ "+" +:+ Colors.RESET ].

(** Final Summary Dashboard *)
Definition dashboard (violation_count : nat) : list string :=
  if (violation_count =? 0)%nat
  then box Colors.JATS_GREEN "AEM COMPLIANT: No rule violations found."
  else
    let color := if (5 <? violation_count)%nat then Colors.RED else Colors.YELLOW in
    box color ("AEM AUDIT COMPLETE: " +:+ Words.str violation_count +:+ " issues identified.").

(** What [run_aem_audit] prints after its loop. *)
Definition audit_summary (is_bits : bool) (root : element) : list string :=
  dashboard (violation_count (Audit.run_aem_audit is_bits root)).

End Dashboard.

(** The context line of [fix_xml.py]. *)
Module FixerContext.

(** [wrap_context(text, word_limit=12)] *)
Definition wrap_context (text : string) (word_limit : nat) : string :=
  let words := Words.split text in
  match words with
  | [] => Colors.RED +:+ "[No text content]" +:+ Colors.RESET
  | _ => PyStr.join " " (take word_limit words) +:+ "..."
  end.

Definition context_shown (v : violation) : string := wrap_context (v_context v) 12.

End FixerContext.

(** The choice of a file by its number in a menu. *)
Module Selector.

(** [l[i]] for a Python list: a negative index counts from the end;
    [None] is [IndexError]. *)
Definition index {X : Type} (l : list X) (i : Z) : option X :=
  if (0 <=? i)%Z then l !! Z.to_nat i
  else if (- Z.of_nat (length l) <=? i)%Z then l !! Z.to_nat (Z.of_nat (length l) + i)
  else None.

(** [main] of [tpc.py], from [choice = int(choice_input) - 1] on: the
    file audited, if any. *)
Definition audit_choice {X : Type} (xmls : list X) (number : Z) : option X :=
  let choice := (number - 1)%Z in
  if (0 <=? choice)%Z && (choice <? Z.of_nat (length xmls))%Z
  then index xmls choice
  else None.

(** [get_file_selection] of both [xmlsasd.py], from the two calls of
    [int(input(...))] on: [return pdfs[p_idx], xmls[x_idx]], and
    [None, None] on [IndexError]. *)
Definition get_file_selection {X : Type} (pdfs xmls : list X) (pdf_number xml_number : Z)
    : option (X * X) :=
  let p_idx := (pdf_number - 1)%Z in
  let x_idx := (xml_number - 1)%Z in
  p ← index pdfs p_idx;
  x ← index xmls x_idx;
  Some (p, x).

(** [main] of [fix_xml.py], from the two calls of [int(input(...))] on:
    the XML file given to [run_aem_fixer] and the PDF file read, if one
    was chosen; [None] is the [Selection Error] branch. *)
Definition fixer_choice {X : Type} (xmls pdfs : list X) (xml_number pdf_number : Z)
    : option (X * option X) :=
  let xml_choice := (xml_number - 1)%Z in
  let pdf_choice := (pdf_number - 1)%Z in
  pdf ← (if (0 <=? pdf_choice)%Z
         then p ← index pdfs pdf_choice; Some (Some p)
         else Some None);
  xml ← index xmls xml_choice;
  Some (xml, pdf).

End Selector.

(* ===================================================================== *)
(** ** The text of the PDF *)
(* ===================================================================== *)

(** PyMuPDF reads the file; the extractors are functions of what it
    returns: the text of each page, or the text [b[4]] of each block
    of each page. *)
Module Pdf.

(** [extract_pdf_text] of [fix_xml.py], when the file opens. *)
Definition fixer_extract_pdf_text (pages : list string) : string :=
  let text := fold_left (fun text page => text +:+ (page +:+ " ")) pages EmptyString in
  PyStr.strip (Extract.sub_spaces text).

(** [extract_pdf_text] of [xmlsasd.py]. *)
Definition extract_pdf_text (pages : list string) : string :=
  let text := fold_left (fun text page => text +:+ page) pages EmptyString in
  Extract.clean_text text.

(** [extract_pdf_paragraphs] of [Toolkit-main-revison-1/xmlsasd.py]. *)
Definition extract_pdf_paragraphs (pages : list (list string)) : list string :=
  flat_map
    (fun blocks =>
       flat_map
         (fun b4 =>
            let clean_p := Extract.clean_text b4 in
            if (20 <? String.length clean_p)%nat then [clean_p] else [])
         blocks)
    pages.

End Pdf.

(** The two reconciliation runs, once the files are chosen and parsed. *)
Module Reconcile.

Inductive containment_run : Type :=
| NoSignificantBlocks
| Drawn (t : Containment.table).

(** [find_func_path], from [Scanning content blocks...] on. *)
Definition find_func_path (pdf_pages : list (list string)) (root : element)
    : containment_run :=
  let pdf_content := Pdf.extract_pdf_paragraphs pdf_pages in
  let xml_content := Extract.Blocks.extract_xml_paragraphs root in
  match pdf_content with
  | [] => NoSignificantBlocks
  | _ => Drawn (Containment.draw_table pdf_content xml_content)
  end.

(** [main] of [xmlsasd.py], from [pdf_text = extract_pdf_text(pdf_file)]
    on. *)
Definition main (pdf_pages : list string) (root : element)
    : option (list Alignment.output) :=
  let pdf_text := Pdf.extract_pdf_text pdf_pages in
  let xml_text := Extract.Sentences.extract_xml_text root in
  let pdf_sentences := Extract.Sentences.split_into_sentences pdf_text in
  let xml_sentences := Extract.Sentences.split_into_sentences xml_text in
  Alignment.draw_comparison_graph pdf_sentences xml_sentences.

End Reconcile.

(* ===================================================================== *)
(** ** The comparison with PDF sample phrases, [fix_xml.py] *)
(* ===================================================================== *)

Module Samples.

(** The number of characters other than [.!?] at the start of [s]. *)
Fixpoint run_length (s : string) : nat :=
  match s with
  | String c s' => if Extract.Sentences.ends_sentence c then 0 else S (run_length s')
  | EmptyString => 0
  end.

(** A match of [[^.!?]{40,80}[.!?]] at the start of [s]: the phrase and
    the text after it.  The characters before the first of [.!?] are
    all that the class can take, so there is a match exactly when there
    are 40 to 80 of them and one of [.!?] follows. *)
Definition match_here (s : string) : option (string * string) :=
  let r := run_length s in
  if (40 <=? r)%nat && (r <=? 80)%nat then
    match Files.drop r s with
    | String _ rest => Some (PyStr.take (S r) s, rest)
    | EmptyString => None
    end
  else None.

Lemma length_string_drop (n : nat) (s : string) :
  String.length (Files.drop n s) = String.length s - n.
Proof.
  revert s; induction n as [|n IH]; intros [|c s]; simpl; try lia. apply IH.
Qed.

Lemma sample_match_length (s : string) (phrase rest : string) :
  match_here s = Some (phrase, rest) -> String.length rest < String.length s.
Proof.
  unfold match_here.
  destruct (_ && _); [|discriminate].
  destruct (Files.drop (run_length s) s) as [|c r] eqn:E; [discriminate|].
  intros [= _ <-].
  pose proof (length_string_drop (run_length s) s) as H. rewrite E in H. simpl in H. lia.
Qed.

#[local] Opaque match_here.

(** [re.findall(r'[^.!?]{40,80}[.!?]', pdf_text)]: the matches from
    left to right, each search starting where the last match ended. *)
Equations? findall (s : string) : list string by wf (String.length s) lt :=
findall EmptyString := [];
findall (String c s') with inspect (match_here (String c s')) := {
  | @exist _ _ (Some (phrase, rest)) E => phrase :: findall rest
  | @exist _ _ None _ => findall s'
}.
Proof.
  apply (sample_match_length (String c s')) in E. simpl in E. lia.
Qed.

#[local] Transparent match_here.

(** What the comparison prints. *)
Inductive line : Type :=
| TextMismatch (phrase : string)
| TextFlowMatches.

(** PDF TEXT COMPARISON, for the texts [xml_full_text_list] the loop
    has collected and the argument [pdf_text]. *)
Definition pdf_comparison (xml_full_text_list : list string) (pdf_text : option string)
    : list line :=
  if PyStr.truthy pdf_text then
    let xml_blob := PyStr.join " " xml_full_text_list in
    let sample_phrases := findall (PyStr.or_empty pdf_text) in
    let mismatches :=
      flat_map
        (fun phrase =>
           if negb (PyStr.contains (PyStr.strip phrase) xml_blob)
           then [TextMismatch (PyStr.strip phrase)] else [])
        (take 15 sample_phrases) in
    match mismatches with
    | [] => [TextFlowMatches]
    | _ => mismatches
    end
  else [].

End Samples.

(* ===================================================================== *)
(** ** Vocabulary of the properties *)
(* ===================================================================== *)

Definition count {X : Type} (p : X -> bool) (l : list X) : nat :=
  length (List.filter p l).

Module AuditSpec.

Import Audit.

(** The records the loop body prints for one element. *)
Definition emitted (is_bits : bool) (elem : element) : list violation :=
  printed (audit_elem is_bits elem no_report).

(** A record of the registry rule "[t] must carry [attr]". *)
Definition reports (t attr : string) (v : violation) : bool :=
  String.eqb (v_tag v) t
  && String.eqb (v_violation v) ("Missing mandatory attribute: '" ++ attr ++ "'").

(** The element carries the attribute that the tag set writes [attr]:
    its [attrib] holds the key under which the parser stores that
    name. *)
Definition carries (attr : string) (elem : element) : bool :=
  match Namespaces.fixname Namespaces.registered attr with
  | Some key => bool_decide (is_Some (attrib elem !! key))
  | None => false
  end.

(** A node that fails the predicate of that rule: it has the tag and
    does not carry the attribute. *)
Definition fails (t attr : string) (elem : element) : bool :=
  String.eqb (tag elem) t && negb (carries attr elem).

(** A record with a given description, for the three structural rules. *)
Definition describes (message : string) (v : violation) : bool :=
  String.eqb (v_violation v) message.

Definition lacks_publisher_loc (is_bits : bool) (elem : element) : bool :=
  is_bits && String.eqb (tag elem) "publisher"
  && negb (ET.has_child_tagged "publisher-loc" elem).

Definition uniformly_bold_title (elem : element) : bool :=
  in_tags (tag elem) ["title"; "article-title"; "book-title"] && single_bold_child elem.

Definition formula_without_id (elem : element) : bool :=
  in_tags (tag elem) ["disp-formula"; "inline-formula"] && lacks "id" elem.

(** A document with three [article] elements at different depths, two
    of them without [article-type]. *)
Definition nested_article : element :=
  Element "book" ∅ None None (Some 1)
    [ Element "book-part" ∅ None None (Some 2)
        [ Element "article" {[ "id" := "a1" ]} (Some "One") None (Some 3) [];
          Element "article" {[ "article-type" := "research" ]} None None (Some 4) [] ];
      Element "article" ∅ None None (Some 5) [] ].

(** The document
    [<article xmlns:xlink="http://www.w3.org/1999/xlink"
    article-type="research"><fig id="f1" position="float"><graphic
    xlink:href="fig1.png"/></fig></article>] as the parser returns it. *)
Definition figure_graphic : element :=
  Element "graphic" {[ "{http://www.w3.org/1999/xlink}href" := "fig1.png" ]}
          None None None [].

Definition figure_article : element :=
  Element "article" {[ "article-type" := "research" ]} None None None
    [ Element "fig" {[ "id" := "f1"; "position" := "float" ]} None None None
        [ figure_graphic ] ].

End AuditSpec.

Module FixerSpec.

(** The title rule of the fixer applies to this element. *)
Definition strips_bold (elem : element) : bool :=
  Audit.in_tags (tag elem) ["title"; "article-title"] && Audit.single_bold_child elem.

Fixpoint all_chars (p : ascii -> bool) (s : string) : bool :=
  match s with
  | EmptyString => true
  | String c s' => p c && all_chars p s'
  end.

(** A non-empty string of word characters, and a non-empty run of
    whitespace. *)
Definition word_fragment (s : string) : bool :=
  negb (String.eqb s "") && all_chars PyStr.isword s.

Definition whitespace_run (s : string) : bool :=
  negb (String.eqb s "") && all_chars PyStr.isspace s.

(** Some hyphen of [s] is immediately followed by whitespace. *)
Fixpoint hyphen_then_space (s : string) : bool :=
  match s with
  | String c ((String d _) as s') =>
      (Ascii.eqb c "-" && PyStr.isspace d) || hyphen_then_space s'
  | _ => false
  end.

(** Somewhere in [s] a hyphen followed by whitespace stands between two
    word characters. *)
Fixpoint has_artifact (s : string) : bool :=
  match s with
  | EmptyString => false
  | String _ s' => bool_decide (is_Some (SoftHyphen.match_here s)) || has_artifact s'
  end.

(** [<p>vis- a- vis</p>] and what one and two passes make of it. *)
Definition two_hyphens : element :=
  Element "p" ∅ (Some "vis- a- vis") None (Some 1) [].

Definition two_hyphens_once : element :=
  Element "p" ∅ (Some "visa- vis") None (Some 1) [].

Definition two_hyphens_twice : element :=
  Element "p" ∅ (Some "visavis") None (Some 1) [].

Definition exam_ple : element := Element "p" ∅ (Some "exam- ple") None (Some 7) [].
Definition multi_word : element := Element "p" ∅ (Some "multi-word") None (Some 8) [].

(** [<title><bold>Chapter One</bold></title>] *)
Definition chapter_one_bold : element :=
  Element "bold" ∅ (Some "Chapter One") None (Some 12) [].

Definition chapter_one : element :=
  Element "title" ∅ None None (Some 12) [chapter_one_bold].

Definition chapter_one_book_title : element :=
  Element "book-title" ∅ None None (Some 12) [chapter_one_bold].

(** A document whose [article-meta] is empty and precedes a [book-meta]. *)
Definition empty_article_meta : element :=
  Element "book" ∅ None None (Some 1)
    [ Element "front" ∅ None None (Some 2)
        [ Element "article-meta" ∅ None None (Some 3) [];
          Element "book-meta" ∅ None None (Some 4)
            [ Element "book-title" ∅ (Some "Digest") None (Some 5) [] ] ] ].

Definition one_file_disk : Files.disk :=
  Files.Disk {[ ["files"; "report_BITS.xml"] := Files.Xml two_hyphens ]} ∅.

End FixerSpec.

Module TitleSpec.





End TitleSpec.

Module ContainmentSpec.

Import Containment.

(** The test as the code makes it: the lower-cased first 60 characters
    occur in one of the lower-cased XML units. *)
Definition in_some_unit (xml_pool : list string) (para : string) : Prop :=
  exists x, In x xml_pool
            /\ PyStr.contains (PyStr.lower (PyStr.take 60 para)) (PyStr.lower x) = true.

(** The test as the specification words it: they occur in the
    concatenation of all XML units ([sep] between two units). *)
Definition in_concatenation (sep : string) (xml_pool : list string) (para : string) : bool :=
  PyStr.contains (PyStr.lower (PyStr.take 60 para))
                 (PyStr.lower (PyStr.join sep xml_pool)).

(** The classification the specification states for [draw_table]. *)
Definition classifies_by_concatenation (sep : string)
    (pdf_paras xml_pool : list string) : Prop :=
  forall para status,
    In (para, status) (rows (draw_table pdf_paras xml_pool)) ->
    (status = "FOUND" <-> in_concatenation sep xml_pool para = true).

Definition fox_pool : list string :=
  ["The quick brown fox jumps"; "over the lazy dog again."].

End ContainmentSpec.

Module ExtractSpec.

Import Extract.

(** The flattened text of a node: its own text and that of all its
    descendants, in document order. *)
Definition flattened (elem : element) : string := PyStr.join "" (ET.itertext elem).

(** The units the specification describes: one per node with a content
    tag, in document order, holding the cleaned flattened text, without
    those of length at most [threshold]. *)
Definition spec_units (content_tags : list string) (threshold : nat)
    (root : element) : list string :=
  List.filter (fun u => (threshold <? String.length u)%nat)
    (map (fun elem => clean_text (flattened elem))
       (List.filter (fun elem => Audit.in_tags (tag elem) content_tags) (ET.iter root))).

Definition starts_with_space (s : string) : bool :=
  match s with
  | String c _ => PyStr.isspace c
  | EmptyString => false
  end.

Fixpoint ends_with_space (s : string) : bool :=
  match s with
  | EmptyString => false
  | String c EmptyString => PyStr.isspace c
  | String _ s' => ends_with_space s'
  end.

(** Every whitespace character is a space and is followed by a
    character that is not whitespace. *)
Fixpoint single_spaced (s : string) : bool :=
  match s with
  | EmptyString => true
  | String c s' =>
      (if PyStr.isspace c then Ascii.eqb c " " && negb (starts_with_space s') else true)
      && single_spaced s'
  end.

(** Whitespace runs collapsed to one space, and trimmed. *)
Definition normalized (s : string) : bool :=
  single_spaced s && negb (starts_with_space s) && negb (ends_with_space s).

(** The stripped direct text and the stripped tail of the nodes with a
    content tag, in document order. *)
Definition direct_parts (content_tags : list string) (root : element) : list string :=
  flat_map
    (fun elem => Sentences.stripped_part (text elem) ++ Sentences.stripped_part (tail elem))
    (List.filter (fun elem => Audit.in_tags (tag elem) content_tags) (ET.iter root)).

(** [<p>Hello <bold>big</bold> world.</p>] *)
Definition inline_markup : element :=
  Element "p" ∅ (Some "Hello ") None (Some 1)
    [ Element "bold" ∅ (Some "big") (Some " world.") (Some 1) [] ].

End ExtractSpec.

Module AlignmentSpec.

Import Alignment.

Definition abc : list string := ["A."; "B."; "C."].
Definition ac : list string := ["A."; "C."].

Definition fifteen : list string :=
  ["S01."; "S02."; "S03."; "S04."; "S05."; "S06."; "S07."; "S08.";
   "S09."; "S10."; "S11."; "S12."; "S13."; "S14."; "S15."].

(** The block printed for a PDF-only ([-]) or XML-only ([+]) sentence. *)
Definition block (mark : ascii) (label sentence : string) : list output :=
  [ Print ("||" +:+ rule mark 76);
    WrapAndPrint label sentence;
    Print ("||" +:+ rule mark 76) ].

(** What the report shows for the entry at position [i] of the diff
    (counted from 0): a block for a PDF-only or an XML-only entry,
    labelled with the line number [i + 1], and nothing for any other
    entry. *)
Definition entry_block (i : nat) (entry : string) : list output :=
  if String.eqb (first_char entry) "-"
  then block "-" ("LINE " +:+ format_03 (i + 1) +:+ " | MISSING IN XML:") (from_2 entry)
  else if String.eqb (first_char entry) "+"
  then block "+" ("LINE " +:+ format_03 (i + 1) +:+ " | EXTRA IN XML:  ") (from_2 entry)
  else [].

Definition text_of (o : output) : string :=
  match o with
  | Print s => s
  | WrapAndPrint prefix text => prefix +:+ " " +:+ text
  end.

(** The report mentions the unit [u]. *)
Definition mentions (out : list output) (u : string) : bool :=
  existsb (fun o => PyStr.contains u (text_of o)) out.

(** The report ends with a line that carries a percentage. *)
Definition ends_with_percentage (out : list output) : bool :=
  match last out with
  | Some o => PyStr.contains "%" (text_of o)
  | None => false
  end.

End AlignmentSpec.

Module SentenceSpec.

(** One of [.!?] followed by a space: a place where
    [split_into_sentences] cuts. *)
Fixpoint has_break (s : string) : bool :=
  match s with
  | String c ((String d _) as s') =>
      (Extract.Sentences.ends_sentence c && Ascii.eqb d " ") || has_break s'
  | _ => false
  end.

(** The pieces [re.split] cuts the text into, before
    [split_into_sentences] strips and filters them. *)
Definition pieces (text : string) : list string :=
  Extract.Sentences.re_split false false text.

Definition longer_than (n : nat) (s : string) : bool := (n <? String.length s)%nat.

Definition blank (s : string) : bool := FixerSpec.all_chars PyStr.isspace s.

End SentenceSpec.

Module WordsSpec.

(** A word: not empty, and free of whitespace. *)
Definition word (w : string) : bool :=
  negb (String.eqb w EmptyString)
  && FixerSpec.all_chars (fun c => negb (PyStr.isspace c)) w.

(** The word chunks [wrap_context] puts on its lines. *)
Definition chunks (word_limit : nat) (words : list string) : list (list string) :=
  map (fun i => take word_limit (drop i words))
      (Words.range_step (length words) word_limit).

End WordsSpec.

Module WalkSpec.

(** The descriptions of the three fixes of the loop of [run_aem_fixer]. *)
Definition loop_descriptions : list string :=
  ["Missing Publisher Loc"; "Uniform Bold Removal"; "Soft-hyphen Artifact"].

(** A [publisher] element without a [publisher-loc] child. *)
Definition publisher_without_loc (elem : element) : bool :=
  String.eqb (tag elem) "publisher" && negb (ET.has_child_tagged "publisher-loc" elem).

End WalkSpec.

Module DashboardSpec.

Import Audit AuditSpec.

(** An element in which the auditor finds no rule failed.  In a parsed
    document it never finds a mandatory attribute that the registry
    names with a prefix, so an element whose tag has such a rule does
    not pass. *)
Definition passes (is_bits : bool) (elem : element) : bool :=
  match aem_rules !! tag elem with
  | Some (required_attrs, _) =>
      forallb (fun attr => negb (Namespaces.prefixed attr) && carries attr elem)
              required_attrs
  | None => true
  end
  && negb (lacks_publisher_loc is_bits elem)
  && negb (uniformly_bold_title elem)
  && negb (formula_without_id elem).

Definition compliant_box : list string :=
  Dashboard.box Colors.JATS_GREEN "AEM COMPLIANT: No rule violations found.".

End DashboardSpec.

Module ReportSpec.

Import Alignment.

(** The block of the sentence at position [i] (from 0) of a diff made
    of PDF-only sentences, and of one made of XML-only sentences. *)
Definition missing_block (i : nat) (sentence : string) : list output :=
  AlignmentSpec.block "-" ("LINE " +:+ format_03 (i + 1) +:+ " | MISSING IN XML:") sentence.

Definition extra_block (i : nat) (sentence : string) : list output :=
  AlignmentSpec.block "+" ("LINE " +:+ format_03 (i + 1) +:+ " | EXTRA IN XML:  ") sentence.

(** A report: header, blocks, closing rule. *)
Definition report (blocks : list output) : list output :=
  [ Print (newline +:+ rule "=" 80);
    Print "|| DOCUMENT SCAN REPORT";
    Print (rule "=" 80) ]
  ++ blocks
  ++ [ Print (rule "=" 80 +:+ newline) ].

End ReportSpec.

Module SamplesSpec.

Import Extract.Sentences.

Definition not_end (c : ascii) : bool := negb (ends_sentence c).

(** A sample phrase: 40 to 80 characters other than [.!?], then one of
    [.!?]. *)
Definition sample (phrase : string) : Prop :=
  exists (body : string) (c : ascii),
    phrase = body +:+ String c EmptyString
    /\ 40 <= String.length body <= 80
    /\ FixerSpec.all_chars not_end body = true
    /\ ends_sentence c = true.

(** The lengths of the sentences of a text: its maximal runs of
    characters other than [.!?] that one of [.!?] ends.  [n] characters
    of the current run have been read. *)
Fixpoint sentence_lengths (n : nat) (s : string) : list nat :=
  match s with
  | EmptyString => []
  | String c s' =>
      if ends_sentence c then n :: sentence_lengths 0 s'
      else sentence_lengths (S n) s'
  end.

(** What holds of a line of the comparison. *)
Definition justified (xml_blob pdf_text : string) (l : Samples.line) : Prop :=
  match l with
  | Samples.TextMismatch phrase =>
      PyStr.contains phrase xml_blob = false
      /\ PyStr.contains phrase pdf_text = true
      /\ String.length phrase <= 81
  | Samples.TextFlowMatches => True
  end.

End SamplesSpec.

Module DiffSpec.

(** An entry of a diff: one of the markers [-], [+], space and [?],
    then a space, then the text. *)
Definition entry (e : string) : Prop :=
  exists (marker : ascii) (rest : string),
    e = String marker (String " " rest)
    /\ In marker ["-"; "+"; " "; "?"]%char.

End DiffSpec.

(* ===================================================================== *)
(** ** Counting records *)
(* ===================================================================== *)

Lemma count_app {X : Type} (p : X -> bool) (l1 l2 : list X) :
  count p (l1 ++ l2) = count p l1 + count p l2.
Proof. unfold count. by rewrite List.filter_app, length_app. Qed.

Section ListFacts.

Context {X Y : Type}.

Lemma count_flat_map (p : Y -> bool) (q : X -> bool) (f : X -> list Y) (l : list X) :
  (forall x, count p (f x) = if q x then 1 else 0) ->
  count p (flat_map f l) = count q l.
Proof.
  intros Hone. induction l as [|x l IH]; [reflexivity|].
  simpl flat_map. rewrite count_app, IH, Hone.
  unfold count. simpl. by destruct (q x).
Qed.

Lemma count_none (p : X -> bool) (l : list X) :
  (forall x, In x l -> p x = false) -> count p l = 0.
Proof.
  unfold count. induction l as [|x l IH]; intros Hp; [reflexivity|].
  simpl. rewrite (Hp x) by (by left). apply IH. intros y Hy. apply Hp. by right.
Qed.

End ListFacts.

Section ReportFacts.

Context {B : Type}.
Variables (cond : B -> bool) (mk : B -> violation).

Let step (st : report) (x : B) : report := if cond x then flag (mk x) st else st.

Lemma fold_flag_printed (l : list B) (st : report) :
  printed (fold_left step l st)
  = printed st ++ flat_map (fun x => if cond x then [mk x] else []) l.
Proof.
  revert st. induction l as [|x l IH]; intros st; simpl.
  - by rewrite app_nil_r.
  - rewrite IH. unfold step. destruct (cond x); simpl; [|done].
    by rewrite <- app_assoc.
Qed.

Lemma fold_flag_count (l : list B) (st : report) :
  violation_count (fold_left step l st)
  = violation_count st + length (flat_map (fun x => if cond x then [mk x] else []) l).
Proof.
  revert st. induction l as [|x l IH]; intros st; simpl; [lia|].
  rewrite IH. unfold step. destruct (cond x); simpl; lia.
Qed.

End ReportFacts.

(* ===================================================================== *)
(** ** The auditor *)
(* ===================================================================== *)

Module AuditFacts.

Import Audit AuditSpec.

(** The rules of the loop body, as the lists they contribute. *)
Definition attribute_records (elem : element) : list violation :=
  match aem_rules !! tag elem with
  | Some (required_attrs, spec_name) =>
      flat_map
        (fun attr =>
           if lacks attr elem
           then [missing_attribute (tag elem) (line_of elem)
                   (full_text_of elem) attr spec_name]
           else [])
        required_attrs
  | None => []
  end.

Definition structural_records (is_bits : bool) (elem : element) : list violation :=
  (if lacks_publisher_loc is_bits elem
   then [missing_publisher_loc (tag elem) (line_of elem) (full_text_of elem)]
   else [])
  ++ (if uniformly_bold_title elem
      then [uniform_bold (tag elem) (line_of elem) (full_text_of elem)]
      else [])
  ++ (if formula_without_id elem
      then [math_missing_id (tag elem) (line_of elem) (full_text_of elem)]
      else []).

(** The test the loop makes for the rule "[t] must carry [attr]". *)
Definition flagged (t attr : string) (elem : element) : bool :=
  String.eqb (tag elem) t && lacks attr elem.

Lemma if_and {X : Type} (a b : bool) (x y : X) :
  (if a then if b then x else y else y) = if a && b then x else y.
Proof. by destruct a, b. Qed.

Lemma printed_cond (c : bool) (v : violation) (st : report) :
  printed (if c then flag v st else st) = printed st ++ if c then [v] else [].
Proof. destruct c; simpl; [done|by rewrite app_nil_r]. Qed.

Lemma count_cond (c : bool) (v : violation) (st : report) :
  violation_count (if c then flag v st else st)
  = violation_count st + length (if c then [v] else []).
Proof. destruct c; simpl; lia. Qed.

Lemma audit_elem_printed (is_bits : bool) (elem : element) (st : report) :
  printed (audit_elem is_bits elem st)
  = printed st ++ attribute_records elem ++ structural_records is_bits elem.
Proof.
  unfold audit_elem, attribute_records, structural_records,
    lacks_publisher_loc, uniformly_bold_title, formula_without_id.
  cbv zeta. rewrite !if_and, !printed_cond.
  destruct (aem_rules !! tag elem) as [[req spec]|].
  - rewrite (fold_flag_printed (fun attr => lacks attr elem)).
    by rewrite <- !app_assoc.
  - by rewrite <- !app_assoc.
Qed.

Lemma audit_elem_count (is_bits : bool) (elem : element) (st : report) :
  violation_count (audit_elem is_bits elem st)
  = violation_count st
    + length (attribute_records elem ++ structural_records is_bits elem).
Proof.
  unfold audit_elem, attribute_records, structural_records,
    lacks_publisher_loc, uniformly_bold_title, formula_without_id.
  cbv zeta. rewrite !if_and, !count_cond, !length_app.
  destruct (aem_rules !! tag elem) as [[req spec]|]; [|simpl; lia].
  rewrite (fold_flag_count (fun attr => lacks attr elem)). lia.
Qed.

Lemma emitted_eq (is_bits : bool) (elem : element) :
  emitted is_bits elem = attribute_records elem ++ structural_records is_bits elem.
Proof. unfold emitted. by rewrite audit_elem_printed. Qed.

Lemma run_aem_audit_printed (is_bits : bool) (root : element) :
  printed (run_aem_audit is_bits root) = flat_map (emitted is_bits) (ET.iter root).
Proof.
  unfold run_aem_audit.
  assert (H : forall l st,
    printed (fold_left (fun st elem => audit_elem is_bits elem st) l st)
    = printed st ++ flat_map (emitted is_bits) l).
  { induction l as [|e l IH]; intros st; simpl; [by rewrite app_nil_r|].
    rewrite IH, audit_elem_printed, emitted_eq. by rewrite <- app_assoc. }
  apply H.
Qed.

(** The counter and the printed records stay in step. *)
Lemma run_aem_audit_count (is_bits : bool) (root : element) :
  violation_count (run_aem_audit is_bits root)
  = length (printed (run_aem_audit is_bits root)).
Proof.
  unfold run_aem_audit.
  assert (H : forall l st,
    violation_count st = length (printed st) ->
    let st' := fold_left (fun st elem => audit_elem is_bits elem st) l st in
    violation_count st' = length (printed st')).
  { induction l as [|e l IH]; intros st Hst; simpl; [done|].
    apply IH. rewrite audit_elem_count, audit_elem_printed, !length_app. lia. }
  by apply H.
Qed.

End AuditFacts.

Module AuditRules.

Import Audit AuditSpec AuditFacts.

Lemma aem_rules_inv (t : string) (required_attrs : list string) (spec_name : string) :
  aem_rules !! t = Some (required_attrs, spec_name) ->
  In (t, (required_attrs, spec_name)) aem_rules_items.
Proof.
  intros H. apply list_elem_of_In. by apply elem_of_list_to_map_2.
Qed.

(** No rule of the registry names an attribute twice. *)
Lemma aem_rules_NoDup (t : string) (required_attrs : list string) (spec_name : string) :
  aem_rules !! t = Some (required_attrs, spec_name) -> List.NoDup required_attrs.
Proof.
  intros H%aem_rules_inv. unfold aem_rules_items in H. simpl in H.
  repeat (destruct H as [H|H];
          [injection H as <- <- <-; apply NoDup_ListNoDup;
           apply (bool_decide_unpack _); vm_compute; exact I|]).
  destruct H.
Qed.

Lemma append_quote_inj (x y : string) : (x ++ "'" = y ++ "'")%string -> x = y.
Proof.
  revert y. induction x as [|c x IH]; intros [|d y]; simpl; intros H.
  - reflexivity.
  - injection H as _ H. by destruct y.
  - injection H as _ H. by destruct x.
  - injection H as -> H. f_equal. by apply IH.
Qed.

Lemma message_eqb (x y : string) :
  String.eqb ("Missing mandatory attribute: '" ++ x ++ "'")
             ("Missing mandatory attribute: '" ++ y ++ "'") = String.eqb x y.
Proof.
  destruct (String.eqb_spec x y) as [->|Hne].
  - apply String.eqb_refl.
  - apply String.eqb_neq. intros H. apply Hne.
    apply append_quote_inj. by simplify_eq/=.
Qed.

Lemma reports_missing_attribute (t attr tg : string) (line : line_ref)
    (full_text x spec_name : string) :
  reports t attr (missing_attribute tg line full_text x spec_name)
  = String.eqb tg t && String.eqb x attr.
Proof.
  unfold reports, missing_attribute. cbn [v_tag v_violation].
  by rewrite message_eqb.
Qed.

Lemma count_eqb_NoDup (attr : string) (l : list string) :
  List.NoDup l -> In attr l ->
  forall c : string -> bool,
    count (fun x => c x && String.eqb x attr) l = if c attr then 1 else 0.
Proof.
  unfold count. induction 1 as [|x l Hx Hl IH]; intros Hin c; [destruct Hin|].
  simpl. destruct (String.eqb_spec x attr) as [->|Hne].
  - rewrite andb_true_r.
    assert (Hrest : List.filter (fun x => c x && String.eqb x attr) l = []).
    { clear -Hx. induction l as [|y l IH]; [reflexivity|]. simpl.
      destruct (String.eqb_spec y attr) as [->|_].
      - exfalso. apply Hx. by left.
      - rewrite andb_false_r. apply IH. intros H. apply Hx. by right. }
    rewrite Hrest. by destruct (c attr).
  - rewrite andb_false_r. apply IH. destruct Hin as [Heq|Hin]; [congruence|done].
Qed.

Lemma structural_not_reported (is_bits : bool) (t attr : string) (elem : element) :
  count (reports t attr) (structural_records is_bits elem) = 0.
Proof.
  apply count_none. intros v Hv. unfold structural_records in Hv.
  unfold reports.
  repeat (apply in_app_or in Hv as [Hv|Hv]);
    match type of Hv with
    | In _ (if ?c then _ else _) => destruct c
    end;
    try destruct Hv as [<-|[]]; try destruct Hv;
    simpl; apply andb_false_r.
Qed.

(** For a rule of the registry, visiting one element prints one record
    of that rule if the test of the loop flags the element, and none
    otherwise. *)
Lemma emitted_count (is_bits : bool) (t attr : string)
    (required_attrs : list string) (spec_name : string) (elem : element) :
  aem_rules !! t = Some (required_attrs, spec_name) ->
  In attr required_attrs ->
  count (reports t attr) (emitted is_bits elem) = if flagged t attr elem then 1 else 0.
Proof.
  intros Hrule Hattr.
  rewrite emitted_eq, count_app, structural_not_reported, Nat.add_0_r.
  unfold attribute_records, flagged.
  destruct (String.eqb_spec (tag elem) t) as [->|Hne].
  - rewrite Hrule. simpl andb.
    rewrite (count_flat_map _ (fun x => lacks x elem && String.eqb x attr)).
    + apply count_eqb_NoDup; [by eapply aem_rules_NoDup|done].
    + intros x. unfold count. destruct (lacks x elem); [|reflexivity].
      cbn [List.filter]. rewrite reports_missing_attribute, String.eqb_refl.
      simpl. by destruct (String.eqb x attr).
  - simpl. apply count_none. intros v Hv.
    destruct (aem_rules !! tag elem) as [[req spec]|]; [|destruct Hv].
    apply in_flat_map in Hv as (x & _ & Hv).
    destruct (lacks x elem); [|destruct Hv]. destruct Hv as [<-|[]].
    rewrite reports_missing_attribute.
    by destruct (String.eqb_spec (tag elem) t).
Qed.

(** The same for the three structural rules, told apart by their
    descriptions. *)
Lemma attribute_not_described (message : string) (elem : element) :
  (forall attr, String.eqb ("Missing mandatory attribute: '" ++ attr ++ "'") message = false) ->
  count (describes message) (attribute_records elem) = 0.
Proof.
  intros Hmsg. apply count_none. intros v Hv. unfold attribute_records in Hv.
  destruct (aem_rules !! tag elem) as [[req spec]|]; [|destruct Hv].
  apply in_flat_map in Hv as (x & _ & Hv).
  destruct (lacks x elem); [|destruct Hv]. destruct Hv as [<-|[]]. apply Hmsg.
Qed.

Lemma emitted_structural (is_bits : bool) (elem : element) :
  count (describes "Missing <publisher-loc>") (emitted is_bits elem)
  = (if lacks_publisher_loc is_bits elem then 1 else 0)
  /\ count (describes "Uniform Bold Emphasis found in Title") (emitted is_bits elem)
     = (if uniformly_bold_title elem then 1 else 0)
  /\ count (describes "Math Equation missing ID") (emitted is_bits elem)
     = (if formula_without_id elem then 1 else 0).
Proof.
  rewrite emitted_eq, !count_app.
  rewrite !attribute_not_described by reflexivity.
  unfold structural_records.
  destruct (lacks_publisher_loc is_bits elem), (uniformly_bold_title elem),
    (formula_without_id elem); repeat split; reflexivity.
Qed.

End AuditRules.

(** What the test [attr not in elem.attrib] finds in a parsed
    document. *)
Module ParsedFacts.

Import Audit AuditSpec AuditFacts AuditRules Namespaces.

Lemma fixname_plain (ns : gmap string string) (name : string) :
  prefixed name = false -> fixname ns name = Some name.
Proof. unfold prefixed, fixname. by destruct (split_prefix name). Qed.

(** For a name without prefix the test of the loop is the right one. *)
Lemma carries_plain (attr : string) (elem : element) :
  prefixed attr = false -> carries attr elem = negb (lacks attr elem).
Proof.
  intros H. unfold carries, lacks. rewrite fixname_plain by done.
  destruct (attrib elem !! attr) as [v|].
  - rewrite bool_decide_eq_true_2 by (by eexists).
    by rewrite bool_decide_eq_false_2.
  - rewrite bool_decide_eq_false_2 by (by intros [v Hv]).
    by rewrite bool_decide_eq_true_2.
Qed.

(** A name that is no key of a parsed document is never found. *)
Lemma lacks_unparsed (key : string) (elem : element) :
  parsed_element elem = true -> parsed_key key = false -> lacks key elem = true.
Proof.
  unfold parsed_element, lacks. intros Hp Hk. apply bool_decide_eq_true.
  destruct (attrib elem !! key) as [v|] eqn:E; [|done]. exfalso.
  rewrite forallb_forall in Hp. specialize (Hp key). rewrite Hk in Hp.
  discriminate Hp. apply in_map_iff. exists (key, v). split; [done|].
  by apply list_elem_of_In, elem_of_map_to_list.
Qed.

(** No attribute of the registry is written in braces notation. *)
Lemma registry_attribute (t attr : string) (required_attrs : list string)
    (spec_name : string) :
  aem_rules !! t = Some (required_attrs, spec_name) -> In attr required_attrs ->
  PyStr.startswith "{" attr = false.
Proof.
  intros H%aem_rules_inv Hattr. unfold aem_rules_items in H. simpl in H.
  repeat (destruct H as [H|H];
          [injection H as <- <- <-; simpl in Hattr;
           repeat (destruct Hattr as [<-|Hattr]; [reflexivity|]); destruct Hattr|]).
  destruct H.
Qed.

Lemma lacks_parsed (elem : element) (t attr : string) (required_attrs : list string)
    (spec_name : string) :
  parsed_element elem = true ->
  aem_rules !! t = Some (required_attrs, spec_name) -> In attr required_attrs ->
  lacks attr elem = prefixed attr || negb (carries attr elem).
Proof.
  intros Hp Hrule Hattr. destruct (prefixed attr) eqn:E; simpl.
  - apply lacks_unparsed; [done|]. unfold parsed_key.
    by rewrite (registry_attribute _ _ _ _ Hrule Hattr), E.
  - by rewrite carries_plain, negb_involutive.
Qed.

Lemma parsed_In (root elem : element) :
  parsed root = true -> In elem (ET.iter root) -> parsed_element elem = true.
Proof. unfold parsed. rewrite forallb_forall. auto. Qed.

Lemma count_ext_in {X : Type} (f g : X -> bool) (l : list X) :
  (forall x, In x l -> f x = g x) -> count f l = count g l.
Proof.
  unfold count. induction l as [|x l IH]; intros H; [reflexivity|].
  simpl. rewrite (H x (or_introl eq_refl)).
  destruct (g x); simpl; rewrite IH; auto; intros y Hy; apply H; by right.
Qed.

(** The records of a rule of the registry, in a parsed document. *)
Lemma rule_records (is_bits : bool) (root : element) (t attr : string)
    (required_attrs : list string) (spec_name : string) :
  parsed root = true ->
  aem_rules !! t = Some (required_attrs, spec_name) -> In attr required_attrs ->
  count (reports t attr) (printed (run_aem_audit is_bits root))
  = count (fun elem => String.eqb (tag elem) t
                       && (prefixed attr || negb (carries attr elem)))
          (ET.iter root).
Proof.
  intros Hparsed Hrule Hattr. rewrite run_aem_audit_printed.
  rewrite (count_flat_map _ (flagged t attr)).
  - apply count_ext_in. intros elem Helem. unfold flagged.
    by erewrite lacks_parsed by eauto using parsed_In.
  - intros x. by eapply emitted_count.
Qed.

End ParsedFacts.

(** C1.  The registry rules on [xlink:href] report elements that carry
    the attribute.  The parser stores an attribute written
    [xlink:href] under the key [{http://www.w3.org/1999/xlink}href], the
    namespace that [save_fixed_copy] registers for the prefix; the test
    ['xlink:href' not in elem.attrib] of the loop looks for the written
    name and never finds it.  For the document [figure_article], whose
    only [graphic] carries [xlink:href], no node fails the rule "a
    [graphic] must carry [xlink:href]", yet the auditor prints one
    record of that rule, the only record of the run. *)
Theorem present_xlink_href_is_reported :
  Namespaces.fixname Namespaces.registered "xlink:href"
  = Some "{http://www.w3.org/1999/xlink}href"
  /\ attrib AuditSpec.figure_graphic !! "{http://www.w3.org/1999/xlink}href"
     = Some "fig1.png"
  /\ Namespaces.parsed AuditSpec.figure_article = true
  /\ count (AuditSpec.fails "graphic" "xlink:href") (ET.iter AuditSpec.figure_article) = 0
  /\ count (AuditSpec.reports "graphic" "xlink:href")
       (printed (Audit.run_aem_audit false AuditSpec.figure_article)) = 1
  /\ printed (Audit.run_aem_audit false AuditSpec.figure_article)
     = [ Audit.missing_attribute "graphic" NoLine "" "xlink:href" "Figures" ]
  /\ violation_count (Audit.run_aem_audit false AuditSpec.figure_article) = 1.
Proof. repeat split; vm_compute; reflexivity. Qed.

(** X26.  The records of the registry rules in a parsed document.  For
    every document as the parser returns it and every rule of the
    registry [aem_rules] (a tag [t] with a mandatory attribute [attr]):
    when [attr] is written without prefix, the number of records
    printed for the rule equals the number of nodes that fail it, and
    wherever an element sits in the tree, visiting it prints exactly one
    record of the rule when it fails the rule and none otherwise; when
    [attr] is written with a prefix ([xlink:href]), every element with
    the tag [t] gets a record, whether it carries the attribute or not.
    The three structural rules print one record for each element they
    apply to, and the counter equals the number of records printed. *)
Theorem records_of_parsed_document (is_bits : bool) (root : element) (t attr : string)
    (required_attrs : list string) (spec_name : string)
    (Hparsed : Namespaces.parsed root = true)
    (Hrule : Audit.aem_rules !! t = Some (required_attrs, spec_name))
    (Hattr : In attr required_attrs) :
  (Namespaces.prefixed attr = false ->
   count (AuditSpec.reports t attr) (printed (Audit.run_aem_audit is_bits root))
   = count (AuditSpec.fails t attr) (ET.iter root)
   /\ forall elem, In elem (ET.iter root) ->
        count (AuditSpec.reports t attr) (AuditSpec.emitted is_bits elem)
        = if AuditSpec.fails t attr elem then 1 else 0)
  /\ (Namespaces.prefixed attr = true ->
      count (AuditSpec.reports t attr) (printed (Audit.run_aem_audit is_bits root))
      = count (fun elem => String.eqb (tag elem) t) (ET.iter root))
  /\ count (AuditSpec.describes "Missing <publisher-loc>")
       (printed (Audit.run_aem_audit is_bits root))
     = count (AuditSpec.lacks_publisher_loc is_bits) (ET.iter root)
  /\ count (AuditSpec.describes "Uniform Bold Emphasis found in Title")
       (printed (Audit.run_aem_audit is_bits root))
     = count AuditSpec.uniformly_bold_title (ET.iter root)
  /\ count (AuditSpec.describes "Math Equation missing ID")
       (printed (Audit.run_aem_audit is_bits root))
     = count AuditSpec.formula_without_id (ET.iter root)
  /\ violation_count (Audit.run_aem_audit is_bits root)
     = length (printed (Audit.run_aem_audit is_bits root)).
Proof.
  pose proof (ParsedFacts.rule_records is_bits root t attr _ _ Hparsed Hrule Hattr)
    as Hcount.
  split; [|split; [|split; [|split; [|split]]]].
  - intros Hplain. rewrite Hplain in Hcount. split; [exact Hcount|].
    intros elem Helem.
    rewrite (AuditRules.emitted_count is_bits t attr _ _ elem Hrule Hattr).
    unfold AuditFacts.flagged, AuditSpec.fails.
    by rewrite (ParsedFacts.carries_plain attr elem Hplain), negb_involutive.
  - intros Hprefixed. rewrite Hprefixed in Hcount. rewrite Hcount.
    apply ParsedFacts.count_ext_in. intros elem _. simpl. apply andb_true_r.
  - rewrite AuditFacts.run_aem_audit_printed.
    apply count_flat_map. intros x. apply (AuditRules.emitted_structural is_bits x).
  - rewrite AuditFacts.run_aem_audit_printed.
    apply count_flat_map. intros x. apply (AuditRules.emitted_structural is_bits x).
  - rewrite AuditFacts.run_aem_audit_printed.
    apply count_flat_map. intros x. apply (AuditRules.emitted_structural is_bits x).
  - apply AuditFacts.run_aem_audit_count.
Qed.

Lemma records_of_parsed_document_witness :
  count (AuditSpec.reports "article" "article-type")
    (printed (Audit.run_aem_audit false AuditSpec.nested_article)) = 2
  /\ count (AuditSpec.reports "graphic" "xlink:href")
       (printed (Audit.run_aem_audit false AuditSpec.figure_article)) = 1
  /\ violation_count (Audit.run_aem_audit false AuditSpec.nested_article) = 2.
Proof.
  pose proof (records_of_parsed_document false AuditSpec.nested_article
                "article" "article-type" ["article-type"] "Article-type"
                eq_refl eq_refl (or_introl eq_refl))
    as (Hplain & _ & _ & _ & _ & Hcounter).
  pose proof (records_of_parsed_document false AuditSpec.figure_article
                "graphic" "xlink:href" ["xlink:href"] "Figures"
                eq_refl eq_refl (or_introl eq_refl))
    as (_ & Hprefixed & _).
  destruct (Hplain eq_refl) as [Hcount _].
  split; [rewrite Hcount; reflexivity|].
  split; [rewrite (Hprefixed eq_refl); reflexivity|].
  rewrite Hcounter. reflexivity.
Defined.

(** A formula without [id] is reported twice, once by the registry rule
    and once by the rule for formulas; each rule reports it once. *)
Remark formula_reported_by_two_rules :
  let formula := Element "disp-formula" ∅ None None (Some 9) [] in
  printed (Audit.run_aem_audit false formula)
  = [ Audit.missing_attribute "disp-formula" (LineNumber 9) "" "id" "Math Equations";
      Audit.math_missing_id "disp-formula" (LineNumber 9) "" ].
Proof. vm_compute. reflexivity. Qed.

(* ===================================================================== *)
(** ** The soft-hyphen substitution *)
(* ===================================================================== *)
Module CharFacts.

Lemma append_cons (c : ascii) (s1 s2 : string) :
  (String c s1 ++ s2 = String c (s1 ++ s2))%string.
Proof. reflexivity. Qed.

Lemma append_nil (s : string) : ("" ++ s = s)%string.
Proof. reflexivity. Qed.

Lemma word_not_space (c : ascii) : PyStr.isword c = true -> PyStr.isspace c = false.
Proof. destruct c as [[] [] [] [] [] [] [] []]; vm_compute; congruence. Qed.

Lemma word_not_hyphen (c : ascii) : PyStr.isword c = true -> Ascii.eqb c "-" = false.
Proof. destruct c as [[] [] [] [] [] [] [] []]; vm_compute; congruence. Qed.

End CharFacts.

Module SoftHyphenFacts.

Import SoftHyphen FixerSpec CharFacts.

Lemma sub_cons (c : ascii) (s' : string) :
  sub (String c s')
  = match match_here (String c s') with
    | Some (a, b, rest) => String a (String b (sub rest))
    | None => String c (sub s')
    end.
Proof.
  rewrite sub_equation_2.
  destruct (inspect (match_here (String c s'))) as [[[[a b] rest]|] E].
  - transitivity (String a (String b (sub rest))); [reflexivity|].
    by rewrite E.
  - transitivity (String c (sub s')); [reflexivity|].
    by rewrite E.
Qed.

Lemma hyphen_then_space_cons (c d : ascii) (s : string) :
  hyphen_then_space (String c (String d s))
  = (Ascii.eqb c "-" && PyStr.isspace d) || hyphen_then_space (String d s).
Proof. reflexivity. Qed.

Lemma match_here_no_hyphen_space (s : string) :
  hyphen_then_space s = false -> match_here s = None.
Proof.
  destruct s as [|c [|h [|w rest]]]; try reflexivity.
  rewrite !hyphen_then_space_cons. cbn [match_here]. intros H.
  apply orb_false_iff in H as [_ H]. apply orb_false_iff in H as [H _].
  destruct (PyStr.isword c); [|reflexivity].
  destruct (Ascii.eqb h "-"); [|reflexivity].
  simpl in H. by rewrite H.
Qed.

(** Text in which no hyphen is followed by whitespace is left as it is. *)
Lemma sub_unchanged (s : string) : hyphen_then_space s = false -> sub s = s.
Proof.
  induction s as [|c s IH]; intros H; [reflexivity|].
  rewrite sub_cons, (match_here_no_hyphen_space _ H). f_equal. apply IH.
  destruct s as [|d s]; [reflexivity|].
  rewrite hyphen_then_space_cons in H. by apply orb_false_iff in H as [_ H].
Qed.

Lemma words_no_hyphen_space (s : string) :
  all_chars PyStr.isword s = true -> hyphen_then_space s = false.
Proof.
  induction s as [|c s IH]; [reflexivity|].
  cbn [all_chars]. intros [Hc Hs]%andb_true_iff.
  destruct s as [|d s]; [reflexivity|]. rewrite hyphen_then_space_cons.
  by rewrite (word_not_hyphen _ Hc), (IH Hs).
Qed.

Lemma lstrip_run (ws s : string) (d : ascii) :
  all_chars PyStr.isspace ws = true -> PyStr.isspace d = false ->
  PyStr.lstrip (ws ++ String d s) = String d s.
Proof.
  intros Hws Hd. induction ws as [|w ws IH].
  - rewrite append_nil. simpl. by rewrite Hd.
  - rewrite append_cons. cbn [all_chars] in Hws.
    apply andb_true_iff in Hws as [Hw Hws]. simpl. rewrite Hw. by apply IH.
Qed.

(** Two word fragments separated by a hyphen and a run of whitespace are
    joined. *)
Lemma sub_joins (w1 ws w2 : string) :
  word_fragment w1 = true -> whitespace_run ws = true -> word_fragment w2 = true ->
  sub (w1 ++ "-" ++ ws ++ w2) = (w1 ++ w2)%string.
Proof.
  unfold word_fragment, whitespace_run.
  intros [Hn1 Hw1]%andb_true_iff [Hns Hws]%andb_true_iff [Hn2 Hw2]%andb_true_iff.
  destruct ws as [|w ws]; [discriminate|]. clear Hns.
  destruct w2 as [|d w2]; [discriminate|]. clear Hn2.
  cbn [all_chars] in Hws, Hw2.
  apply andb_true_iff in Hws as [Hw Hws]. apply andb_true_iff in Hw2 as [Hd Hw2].
  induction w1 as [|c w1 IH]; [discriminate|]. clear Hn1.
  cbn [all_chars] in Hw1. apply andb_true_iff in Hw1 as [Hc Hw1].
  destruct w1 as [|c2 w1].
  - rewrite !append_cons, !append_nil, sub_cons. cbn [match_here].
    rewrite Hc, Hw. cbn [Ascii.eqb Bool.eqb andb].
    rewrite (lstrip_run ws w2 d Hws (word_not_space _ Hd)), Hd.
    by rewrite (sub_unchanged w2 (words_no_hyphen_space _ Hw2)).
  - assert (Hnone : match_here (String c (String c2 w1) ++ "-" ++ String w ws ++ String d w2)
                    = None).
    { cbn [all_chars] in Hw1. apply andb_true_iff in Hw1 as [Hc2 _].
      rewrite !append_cons. cbn [match_here].
      destruct (w1 ++ String "-" ("" ++ String w (ws ++ String d w2)))%string;
        [reflexivity|].
      by rewrite (word_not_hyphen _ Hc2), andb_false_r. }
    rewrite (append_cons c), sub_cons, <- (append_cons c), Hnone.
    rewrite (append_cons c (String c2 w1)). f_equal. by apply IH.
Qed.

End SoftHyphenFacts.

(* ===================================================================== *)
(** ** The loop body of the fixer *)
(* ===================================================================== *)
Module FixElemFacts.

Import Fixer FixerSpec.

#[local] Arguments SoftHyphen.sub : simpl never.
#[local] Arguments full_text_of : simpl never.

Lemma in_title_tags (t : string) :
  Audit.in_tags t ["title"; "article-title"] = true -> t = "title" \/ t = "article-title".
Proof.
  unfold Audit.in_tags. simpl.
  destruct (String.eqb_spec t "title"); [by left|].
  destruct (String.eqb_spec t "article-title"); [by right|discriminate].
Qed.

Lemma hyphen_rule_children tg line full_text elem st :
  children (fst (hyphen_rule tg line full_text elem st)) = children elem.
Proof.
  unfold hyphen_rule. destruct (PyStr.truthy _); [|done].
  by destruct (negb _).
Qed.

Lemma title_rule_skip tg line full_text elem st :
  Audit.in_tags tg ["title"; "article-title"] && Audit.single_bold_child elem = false ->
  title_rule tg line full_text elem st = (elem, st).
Proof.
  unfold title_rule, Audit.single_bold_child.
  destruct (children elem) as [|c [|c2 l]]; try reflexivity.
  by intros ->.
Qed.

(** The loop body on an element the title rule does not apply to. *)
Lemma fix_elem_plain (elem : element) (st : report) :
  strips_bold elem = false ->
  fix_elem elem st
  = let tg := tag elem in
    let line := line_of elem in
    let full_text := full_text_of elem in
    if String.eqb tg "publisher" && negb (ET.has_child_tagged "publisher-loc" elem)
    then hyphen_rule tg line full_text
           (set_children (children elem ++ [new_loc]) elem)
           (flag (missing_publisher_loc tg line full_text) st)
    else hyphen_rule tg line full_text elem st.
Proof.
  unfold strips_bold, fix_elem, publisher_rule. intros Hplain. cbv zeta.
  destruct (String.eqb_spec (tag elem) "publisher") as [Hp|Hne]; cbn [andb].
  - destruct (negb _); [|by rewrite title_rule_skip].
    rewrite title_rule_skip; [done|]. by rewrite Hp.
  - by rewrite title_rule_skip.
Qed.

(** The loop body on a title whose only child is [bold]. *)
Lemma fix_elem_title (elem child : element) (st : report) :
  Audit.in_tags (tag elem) ["title"; "article-title"] = true ->
  children elem = [child] -> tag child = "bold" ->
  fix_elem elem st
  = hyphen_rule (tag elem) (line_of elem) (full_text_of elem)
      (set_children [] (set_text (text child) elem))
      (flag (uniform_bold (tag elem) (line_of elem) (full_text_of elem)) st).
Proof.
  intros Htag Hkids Hbold. unfold fix_elem, publisher_rule, title_rule.
  assert (String.eqb (tag elem) "publisher" = false) as ->
    by (destruct (in_title_tags _ Htag) as [-> | ->]; reflexivity).
  cbn [andb]. by rewrite Hkids, Htag, Hbold.
Qed.

End FixElemFacts.
Module HyphenRuleFacts.

Import Fixer FixerSpec FixElemFacts SoftHyphenFacts CharFacts.

Lemma hyphen_rule_changed tg line full_text elem st (t : string) :
  text elem = Some t -> SoftHyphen.sub t <> t ->
  hyphen_rule tg line full_text elem st
  = (set_text (Some (SoftHyphen.sub t)) elem, flag (soft_hyphen tg line full_text) st).
Proof.
  intros Ht Hne. unfold hyphen_rule. rewrite Ht.
  destruct t as [|c t]; [exfalso; apply Hne, SoftHyphen.sub_equation_1|].
  change (PyStr.or_empty (Some (String c t))) with (String c t).
  cbn [PyStr.truthy].
  destruct (String.eqb_spec (SoftHyphen.sub (String c t)) (String c t)) as [Heq|_];
    [by destruct Hne|reflexivity].
Qed.

Lemma hyphen_rule_unchanged tg line full_text elem st (t : string) :
  text elem = Some t -> SoftHyphen.sub t = t ->
  hyphen_rule tg line full_text elem st = (elem, st).
Proof.
  intros Ht Heq. unfold hyphen_rule. rewrite Ht.
  destruct t as [|c t]; [reflexivity|].
  change (PyStr.or_empty (Some (String c t))) with (String c t).
  cbn [PyStr.truthy]. by rewrite Heq, String.eqb_refl.
Qed.

Lemma length_append (s1 s2 : string) :
  String.length (s1 ++ s2) = String.length s1 + String.length s2.
Proof.
  induction s1 as [|c s1 IH]; [reflexivity|].
  rewrite append_cons. simpl. by rewrite IH.
Qed.

Lemma joined_differs (w1 ws w2 : string) :
  (w1 ++ w2 <> w1 ++ "-" ++ ws ++ w2)%string.
Proof.
  intros H. apply (f_equal String.length) in H.
  rewrite !length_append in H. simpl in H. lia.
Qed.

End HyphenRuleFacts.

(** A text made of two word fragments separated by a hyphen and a run of
    whitespace is joined, and the node is flagged; text in which no
    hyphen is followed by whitespace is left as it is.  (The title rule
    first replaces the text of a title that only holds a [bold] child;
    [strips_bold] excludes that case.) *)
Lemma two_fragments_are_joined (elem : element) (st : report) (w1 ws w2 : string)
    (Hw1 : FixerSpec.word_fragment w1 = true)
    (Hws : FixerSpec.whitespace_run ws = true)
    (Hw2 : FixerSpec.word_fragment w2 = true)
    (Hplain : FixerSpec.strips_bold elem = false)
    (Htext : text elem = Some (w1 ++ "-" ++ ws ++ w2)%string) :
  SoftHyphen.sub (w1 ++ "-" ++ ws ++ w2) = (w1 ++ w2)%string
  /\ text (fst (Fixer.fix_elem elem st)) = Some (w1 ++ w2)%string
  /\ last (printed (snd (Fixer.fix_elem elem st)))
     = Some (Fixer.soft_hyphen (tag elem) (line_of elem) (full_text_of elem))
  /\ violation_count st < violation_count (snd (Fixer.fix_elem elem st))
  /\ forall (other : element) (s : string),
       FixerSpec.strips_bold other = false ->
       text other = Some s ->
       FixerSpec.hyphen_then_space s = false ->
       SoftHyphen.sub s = s /\ text (fst (Fixer.fix_elem other st)) = Some s.
Proof.
  pose proof (SoftHyphenFacts.sub_joins w1 ws w2 Hw1 Hws Hw2) as Hsub.
  assert (Hne : SoftHyphen.sub (w1 ++ "-" ++ ws ++ w2) <> (w1 ++ "-" ++ ws ++ w2)%string).
  { rewrite Hsub. apply HyphenRuleFacts.joined_differs. }
  split; [exact Hsub|].
  rewrite (FixElemFacts.fix_elem_plain elem st Hplain). cbv zeta.
  split; [|split; [|split]].
  - destruct (_ && _);
      erewrite HyphenRuleFacts.hyphen_rule_changed by (try exact Htext; exact Hne);
      by rewrite Hsub.
  - destruct (_ && _);
      erewrite HyphenRuleFacts.hyphen_rule_changed by (try exact Htext; exact Hne);
      cbn [snd flag printed]; apply last_snoc.
  - destruct (_ && _);
      erewrite HyphenRuleFacts.hyphen_rule_changed by (try exact Htext; exact Hne);
      cbn [snd flag violation_count]; lia.
  - intros other s Hother Hs Hnone.
    pose proof (SoftHyphenFacts.sub_unchanged s Hnone) as Hsame.
    split; [exact Hsame|].
    rewrite (FixElemFacts.fix_elem_plain other st Hother). cbv zeta.
    destruct (_ && _);
      erewrite HyphenRuleFacts.hyphen_rule_unchanged by (try exact Hs; exact Hsame);
      exact Hs.
Qed.

(** C2.  The fixer is not idempotent.  On [<p>vis- a- vis</p>] the first
    pass applies one fix and leaves the text ["visa- vis"]: the match
    ["s- a"] consumes the [a] that the second artifact ["a- v"] needs.  A
    second pass on that output applies one more fix; only a third pass
    applies none. *)
Theorem fixer_second_pass_fixes_again :
  Fixer.fix_tree FixerSpec.two_hyphens
  = Some (FixerSpec.two_hyphens_once,
          Report 1 [Fixer.soft_hyphen "p" (LineNumber 1) "vis- a- vis"])
  /\ Fixer.fix_tree FixerSpec.two_hyphens_once
     = Some (FixerSpec.two_hyphens_twice,
             Report 1 [Fixer.soft_hyphen "p" (LineNumber 1) "visa- vis"])
  /\ Fixer.fix_tree FixerSpec.two_hyphens_twice
     = Some (FixerSpec.two_hyphens_twice, Report 0 []).
Proof. repeat split; vm_compute; reflexivity. Qed.

(** C6.  Soft-hyphen normalization joins ["exam- ple"] into ["example"]
    and leaves ["multi-word"] alone, but it does not collapse every
    artifact of a text: in ["vis- a- vis"] the loop body collapses the
    first one only, and the text it stores, ["visa- vis"], still has a
    hyphen followed by whitespace between two word characters. *)
Theorem overlapping_soft_hyphen_remains :
  SoftHyphen.sub "exam- ple" = "example"
  /\ SoftHyphen.sub "multi-word" = "multi-word"
  /\ text (fst (Fixer.fix_elem FixerSpec.exam_ple no_report)) = Some "example"
  /\ text (fst (Fixer.fix_elem FixerSpec.multi_word no_report)) = Some "multi-word"
  /\ Fixer.fix_elem FixerSpec.two_hyphens no_report
     = (FixerSpec.two_hyphens_once,
        Report 1 [Fixer.soft_hyphen "p" (LineNumber 1) "vis- a- vis"])
  /\ FixerSpec.has_artifact "visa- vis" = true.
Proof. repeat split; vm_compute; reflexivity. Qed.

(** The auditor applies the rule to [book-title] as well; the fixer does
    not, and leaves such a title as it is. *)
Remark book_title_is_not_stripped :
  In (Audit.uniform_bold "book-title" (LineNumber 12) "Chapter One")
     (AuditSpec.emitted false FixerSpec.chapter_one_book_title)
  /\ Fixer.fix_tree FixerSpec.chapter_one_book_title
     = Some (FixerSpec.chapter_one_book_title, Report 0 []).
Proof. split; [by left|vm_compute; reflexivity]. Qed.

(* ===================================================================== *)
(** ** The traversal ends, and the copy on disk *)
(* ===================================================================== *)
Module WalkFacts.

Import Fixer.

Lemma depth_child (c : element) (cs : list element) :
  In c cs -> depth c <= foldr Nat.max 0 (map depth cs).
Proof.
  induction cs as [|x cs IH]; intros Hin; [destruct Hin|].
  simpl. destruct Hin as [->|Hin]; [lia|]. specialize (IH Hin). lia.
Qed.

Lemma depth_children (e c : element) : In c (children e) -> depth c < depth e.
Proof.
  destruct e as [t a tx tl ln cs]. simpl. intros H%depth_child. lia.
Qed.

(** The children the iterator finds after the loop body: the old ones,
    possibly followed by the new [publisher-loc], or none. *)
Lemma fix_elem_children (e : element) (st : report) :
  let kids := children (fst (fix_elem e st)) in
  kids = children e \/ kids = children e ++ [new_loc] \/ kids = [].
Proof.
  unfold fix_elem. cbv zeta.
  set (tg := tag e). set (line := line_of e). set (ft := full_text_of e).
  destruct (publisher_rule tg line ft e st) as [e1 st1] eqn:E1.
  destruct (title_rule tg line ft e1 st1) as [e2 st2] eqn:E2.
  rewrite FixElemFacts.hyphen_rule_children.
  assert (H1 : children e1 = children e \/ children e1 = children e ++ [new_loc]).
  { unfold publisher_rule in E1. destruct (_ && _); injection E1 as <- <-; auto. }
  assert (H2 : children e2 = children e1 \/ children e2 = []).
  { unfold title_rule in E2.
    destruct (children e1) as [|c [|c2 l]] eqn:Ec; try (injection E2 as <- <-; auto).
    destruct (_ && _); injection E2 as <- <-; auto. }
  destruct H2 as [-> | ->]; [|auto]. destruct H1 as [-> | ->]; auto.
Qed.

Lemma fix_children_total (walk : element -> report -> option (element * report))
    (cs : list element) :
  (forall c, In c cs -> forall st, is_Some (walk c st)) ->
  forall st, is_Some (fix_children walk cs st).
Proof.
  induction cs as [|c cs IH]; intros Hwalk st; [by eexists|].
  simpl. destruct (Hwalk c (or_introl eq_refl) st) as [[c' st1] ->]. simpl.
  destruct (IH (fun x Hx => Hwalk x (or_intror Hx)) st1) as [[cs' st2] ->].
  by eexists.
Qed.

Lemma fix_walk_new_loc (fuel : nat) (st : report) :
  is_Some (fix_walk (S fuel) new_loc st).
Proof. by eexists. Qed.

(** The traversal ends within its bound. *)
Lemma fix_walk_total (fuel : nat) :
  forall (e : element) (st : report), depth e < fuel -> is_Some (fix_walk fuel e st).
Proof.
  induction fuel as [|fuel IH]; intros e st Hdepth; [lia|].
  cbn [fix_walk].
  pose proof (fix_elem_children e st) as Hkids. cbv zeta in Hkids.
  destruct (fix_elem e st) as [e1 st1]. cbn [fst] in Hkids.
  assert (Hall : forall c, In c (children e1) -> forall st', is_Some (fix_walk fuel c st')).
  { intros c Hc st'.
    assert (Hcases : In c (children e) \/ c = new_loc).
    { destruct Hkids as [Hk|[Hk|Hk]]; rewrite Hk in Hc.
      - by left.
      - apply in_app_or in Hc as [Hc|[<-|[]]]; auto.
      - destruct Hc. }
    destruct Hcases as [Hin | ->].
    - apply IH. pose proof (depth_children e c Hin). lia.
    - destruct fuel as [|fuel']; [destruct e; simpl in Hdepth; lia|].
      apply fix_walk_new_loc. }
  destruct (fix_children_total _ _ Hall st1) as [[cs' st2] ->]. by eexists.
Qed.

Lemma fix_tree_total (root : element) : is_Some (fix_tree root).
Proof.
  unfold fix_tree. destruct (front_matter root no_report) as [root1 st1].
  apply fix_walk_total. lia.
Qed.

End WalkFacts.

Module FilesFacts.

Import Files.

Lemma length_take_drop (n : nat) (s : string) :
  String.length (PyStr.take n s) + String.length (drop n s) = String.length s.
Proof.
  revert s. induction n as [|n IH]; intros [|c s]; simpl; auto.
Qed.

Lemma name_new_path (p : path) :
  name (new_path p) = (stem p +:+ "_FIXED" +:+ suffix p).
Proof. reflexivity. Qed.

(** The copy never has the path of the source. *)
Lemma new_path_distinct (p : path) : new_path p <> p.
Proof.
  intros H. apply (f_equal name) in H. rewrite name_new_path in H.
  apply (f_equal String.length) in H.
  rewrite !HyphenRuleFacts.length_append in H.
  pose proof (length_take_drop (split_index (name p)) (name p)) as Hlen.
  unfold stem, suffix in H. simpl in H. lia.
Qed.

End FilesFacts.

(** C8.  When the source parses, the fixer ends with a report; a copy of
    the mutated tree is written exactly when [violation_count > 0], to
    [files/audited/<stem>_FIXED<suffix>], which is never the path of the
    source; every other file, the source included, is left as it was.
    With no fix the disk is unchanged. *)
Theorem fixed_copy_written_iff (d : Files.disk) (xml_path : Files.path) (root : element)
    (Hsource : Files.files d !! xml_path = Some (Files.Xml root)) :
  exists (tree : element) (st : report) (d' : Files.disk),
    Fixer.fix_tree root = Some (tree, st)
    /\ Files.run_aem_fixer xml_path d = Some (d', Files.Fixed st)
    /\ Files.new_path xml_path <> xml_path
    /\ Files.files d' !! xml_path = Some (Files.Xml root)
    /\ (0 < violation_count st ->
        Files.files d' = <[ Files.new_path xml_path := Files.Xml tree ]> (Files.files d))
    /\ (violation_count st = 0 -> d' = d).
Proof.
  destruct (WalkFacts.fix_tree_total root) as [[tree st] Hfix].
  pose proof (FilesFacts.new_path_distinct xml_path) as Hne.
  unfold Files.run_aem_fixer. rewrite Hsource, Hfix. simpl.
  destruct (violation_count st) as [|n] eqn:Hn; simpl.
  - exists tree, st, d. repeat split; try done. lia.
  - exists tree, st, (Files.save_fixed_copy tree xml_path d).
    repeat split; try done; [|lia].
    simpl. by rewrite lookup_insert_ne.
Qed.

Lemma fixed_copy_written_iff_witness :
  Files.files FixerSpec.one_file_disk !! ["files"; "report_BITS.xml"]
  = Some (Files.Xml FixerSpec.two_hyphens)
  /\ exists d' st,
       Files.run_aem_fixer ["files"; "report_BITS.xml"] FixerSpec.one_file_disk
       = Some (d', Files.Fixed st)
       /\ violation_count st = 1
       /\ Files.files d' !! ["files"; "audited"; "report_BITS_FIXED.xml"]
          = Some (Files.Xml FixerSpec.two_hyphens_once)
       /\ Files.files d' !! ["files"; "report_BITS.xml"]
          = Some (Files.Xml FixerSpec.two_hyphens).
Proof.
  split; [reflexivity|].
  pose proof (fixed_copy_written_iff FixerSpec.one_file_disk ["files"; "report_BITS.xml"]
                FixerSpec.two_hyphens eq_refl)
    as (tree & st & d' & Hfix & Hrun & _ & Hsrc & Hwritten & _).
  assert (Hval : Fixer.fix_tree FixerSpec.two_hyphens
                 = Some (FixerSpec.two_hyphens_once,
                         Report 1 [Fixer.soft_hyphen "p" (LineNumber 1) "vis- a- vis"]))
    by (vm_compute; reflexivity).
  rewrite Hval in Hfix. injection Hfix as <- <-.
  exists d', (Report 1 [Fixer.soft_hyphen "p" (LineNumber 1) "vis- a- vis"]).
  split; [exact Hrun|]. split; [reflexivity|]. split; [|exact Hsrc].
  rewrite Hwritten by (simpl; lia). apply lookup_insert_eq.
Defined.

(* ===================================================================== *)
(** ** The front-matter check *)
(* ===================================================================== *)
Module FindFacts.

Import Fixer.

(** The loop over the children inside [find_desc]. *)
Definition scan_children (t : string) : nat -> list element -> option path :=
  fix scan (i : nat) (cs : list element) : option path :=
    match cs with
    | [] => None
    | c :: cs' =>
        if String.eqb (tag c) t then Some [i]
        else match find_desc t c with
             | Some p => Some (i :: p)
             | None => scan (S i) cs'
             end
    end.

Lemma find_desc_children (t : string) (e : element) :
  find_desc t e = scan_children t 0 (children e).
Proof. by destruct e. Qed.

Definition bump (p : path) : path :=
  match p with
  | j :: p' => S j :: p'
  | [] => []
  end.

Lemma scan_shift (t : string) (i : nat) (cs : list element) :
  scan_children t (S i) cs = bump <$> scan_children t i cs.
Proof.
  revert i. induction cs as [|c cs IH]; intros i; [reflexivity|]. simpl.
  destruct (String.eqb (tag c) t); [reflexivity|].
  destruct (find_desc t c); [reflexivity|]. apply IH.
Qed.

Lemma scan_cons (t : string) (c : element) (cs : list element) :
  scan_children t 0 (c :: cs)
  = if String.eqb (tag c) t then Some [0]
    else match find_desc t c with
         | Some p => Some (0 :: p)
         | None => bump <$> scan_children t 0 cs
         end.
Proof.
  simpl. destruct (String.eqb (tag c) t); [reflexivity|].
  destruct (find_desc t c); [reflexivity|]. apply scan_shift.
Qed.

(** The element a non-empty path designates among a list of children. *)
Definition at_children (p : path) (cs : list element) : option element :=
  match p with
  | [] => None
  | i :: p' =>
      match cs !! i with
      | Some c => at_path p' c
      | None => None
      end
  end.

Lemma at_children_bump (p : path) (c : element) (cs : list element) :
  at_children (bump p) (c :: cs) = at_children p cs.
Proof. by destruct p. Qed.

Lemma at_path_children (p : path) (e : element) :
  p <> [] -> at_path p e = at_children p (children e).
Proof. by destruct p. Qed.

Lemma scan_nonempty (t : string) (cs : list element) (p : path) :
  scan_children t 0 cs = Some p -> p <> [].
Proof.
  revert p. induction cs as [|c cs IH]; intros p; [discriminate|].
  rewrite scan_cons. destruct (String.eqb (tag c) t); [by intros [= <-]|].
  destruct (find_desc t c); [by intros [= <-]|].
  destruct (scan_children t 0 cs) as [p0|] eqn:E; [|discriminate].
  intros [= <-]. specialize (IH p0 eq_refl). by destruct p0.
Qed.

Lemma find_desc_nonempty (t : string) (e : element) (p : path) :
  find_desc t e = Some p -> p <> [].
Proof. rewrite find_desc_children. apply scan_nonempty. Qed.

Lemma element_induction (P : element -> Prop) :
  (forall t a tx tl ln cs, List.Forall P cs -> P (Element t a tx tl ln cs)) ->
  forall e, P e.
Proof.
  intros Hstep. fix IH 1. intros [t a tx tl ln cs]. apply Hstep.
  induction cs as [|c cs IHcs]; constructor; [apply IH|exact IHcs].
Qed.

(** [find] returns a path to an element with the tag looked for. *)
Lemma find_desc_tag (t : string) (e : element) :
  forall p, find_desc t e = Some p -> exists x, at_path p e = Some x /\ tag x = t.
Proof.
  induction e as [t0 a tx tl ln cs IH] using element_induction.
  intros p Hp. pose proof (find_desc_nonempty _ _ _ Hp) as Hne.
  rewrite find_desc_children in Hp. rewrite (at_path_children p _ Hne).
  cbn [children] in *. clear Hne. revert p Hp.
  induction IH as [|c cs Hc _ IHcs]; intros p; [discriminate|].
  rewrite scan_cons. destruct (String.eqb_spec (tag c) t) as [Ht|_].
  - intros [= <-]. by exists c.
  - destruct (find_desc t c) as [p0|] eqn:E.
    + intros [= <-]. simpl. by apply Hc.
    + destruct (scan_children t 0 cs) as [p1|]; [|discriminate].
      intros [= <-]. rewrite at_children_bump. by apply IHcs.
Qed.

End FindFacts.

Module InsertFacts.

Import Fixer FindFacts.

Section Insert.

(** [t] is the tag looked for; [x] is the element inserted: a leaf
    with another tag. *)
Variables (t : string) (x : element).
Hypothesis x_tag : String.eqb (tag x) t = false.
Hypothesis x_leaf : children x = [].

Lemma find_desc_leaf : find_desc t x = None.
Proof. rewrite find_desc_children. by rewrite x_leaf. Qed.

Lemma update_at_tag (q : path) (e : element) :
  tag (update_at q (insert_first x) e) = tag e.
Proof. destruct q as [|i q]; [reflexivity|]. simpl. by destruct (children e !! i). Qed.

Lemma scan_insert_first (cs : list element) :
  scan_children t 0 (x :: cs) = bump <$> scan_children t 0 cs.
Proof. by rewrite scan_cons, x_tag, find_desc_leaf. Qed.

(** Replacing one child by a child with the same tag that still holds
    no element tagged [t] leaves the search without result. *)
Lemma scan_replace_none (cs : list element) (i : nat) (c c' : element) :
  cs !! i = Some c -> tag c' = tag c ->
  (find_desc t c = None -> find_desc t c' = None) ->
  scan_children t 0 cs = None -> scan_children t 0 (<[ i := c' ]> cs) = None.
Proof.
  intros Hi Htag Hnone. revert i Hi.
  induction cs as [|d cs IH]; intros i Hi; [discriminate|].
  rewrite scan_cons. destruct (String.eqb (tag d) t) eqn:Ed; [discriminate|].
  destruct (find_desc t d) as [p0|] eqn:Ef; [discriminate|].
  destruct (scan_children t 0 cs) as [p1|] eqn:Es; [discriminate|]. intros _.
  destruct i as [|i]; simpl in Hi.
  - injection Hi as ->. change (<[ 0 := c' ]> (c :: cs)) with (c' :: cs).
    rewrite scan_cons, Htag, Ed, (Hnone Ef). by rewrite Es.
  - change (<[ S i := c' ]> (d :: cs)) with (d :: <[ i := c' ]> cs).
    rewrite scan_cons, Ed, Ef. by rewrite (IH i Hi eq_refl).
Qed.

Lemma find_desc_update_none (q : path) :
  forall e, find_desc t e = None ->
            find_desc t (update_at q (insert_first x) e) = None.
Proof.
  induction q as [|i q IH]; intros e He.
  - rewrite find_desc_children in *.
    cbn [update_at insert_first set_children children].
    by rewrite scan_insert_first, He.
  - cbn [update_at]. destruct (children e !! i) as [c|] eqn:Ei; [|exact He].
    rewrite find_desc_children in *. cbn [set_children children].
    eapply scan_replace_none; [exact Ei|apply update_at_tag|apply IH|exact He].
Qed.

(** Replacing one child keeps the first childless element tagged [t]
    when the new child keeps it too. *)
Lemma scan_replace_some (cs : list element) (i : nat) (c c' : element) (am : element) :
  cs !! i = Some c -> tag c' = tag c ->
  (String.eqb (tag c) t = true -> children c <> []) ->
  (find_desc t c = None -> find_desc t c' = None) ->
  (forall p0, find_desc t c = Some p0 -> at_path p0 c = Some am ->
              exists p0', find_desc t c' = Some p0' /\ at_path p0' c' = Some am) ->
  children am = [] ->
  forall p, scan_children t 0 cs = Some p -> at_children p cs = Some am ->
  exists p', scan_children t 0 (<[ i := c' ]> cs) = Some p'
             /\ at_children p' (<[ i := c' ]> cs) = Some am.
Proof.
  intros Hi Htag Hkids Hnone Hsome Ham. revert i Hi.
  induction cs as [|d cs IH]; intros i Hi p; [discriminate|].
  rewrite scan_cons. destruct i as [|i]; simpl in Hi.
  - injection Hi as ->. change (<[ 0 := c' ]> (c :: cs)) with (c' :: cs).
    rewrite scan_cons, Htag.
    destruct (String.eqb (tag c) t) eqn:Ec.
    + intros [= <-]. simpl. intros [= ->]. by destruct (Hkids eq_refl).
    + destruct (find_desc t c) as [p0|] eqn:Ef.
      * intros [= <-]. simpl. intros Hat.
        destruct (Hsome p0 eq_refl Hat) as (p0' & -> & Hat').
        by exists (0 :: p0').
      * rewrite (Hnone eq_refl).
        destruct (scan_children t 0 cs) as [p1|]; [|discriminate].
        intros [= <-]. rewrite at_children_bump. intros Hat.
        exists (bump p1). by rewrite at_children_bump.
  - change (<[ S i := c' ]> (d :: cs)) with (d :: <[ i := c' ]> cs).
    rewrite scan_cons.
    destruct (String.eqb (tag d) t); [intros [= <-] Hat; by exists [0]|].
    destruct (find_desc t d) as [p0|]; [intros [= <-] Hat; by exists (0 :: p0)|].
    destruct (scan_children t 0 cs) as [p1|] eqn:Es; [|discriminate].
    intros [= <-]. rewrite at_children_bump. intros Hat.
    destruct (IH i Hi p1 eq_refl Hat) as (p' & -> & Hat').
    exists (bump p'). by rewrite at_children_bump.
Qed.

(** Inserting [x] as the first child of an element that is not tagged
    [t] keeps the first element tagged [t], when that one has no
    children. *)
Lemma find_desc_update_some (q : path) (am : element) :
  children am = [] ->
  forall e bm p,
    at_path q e = Some bm -> String.eqb (tag bm) t = false ->
    find_desc t e = Some p -> at_path p e = Some am ->
    exists p', find_desc t (update_at q (insert_first x) e) = Some p'
               /\ at_path p' (update_at q (insert_first x) e) = Some am.
Proof.
  intros Ham. induction q as [|i q IH]; intros e bm p Hq Hbm Hp Hat.
  - pose proof (find_desc_nonempty _ _ _ Hp) as Hne.
    rewrite find_desc_children in *. rewrite (at_path_children p e Hne) in Hat.
    cbn [update_at insert_first set_children children].
    rewrite scan_insert_first, Hp. exists (bump p). split; [reflexivity|].
    rewrite at_path_children by (by destruct p).
    cbn [insert_first set_children children]. by rewrite at_children_bump.
  - cbn [at_path] in Hq. destruct (children e !! i) as [c|] eqn:Ei; [|discriminate].
    pose proof (find_desc_nonempty _ _ _ Hp) as Hne.
    rewrite find_desc_children in Hp. rewrite (at_path_children p e Hne) in Hat.
    cbn [update_at]. rewrite Ei.
    destruct (scan_replace_some (children e) i c (update_at q (insert_first x) c) am)
      with (p := p) as (p' & Hp' & Hat'); try assumption.
    + apply update_at_tag.
    + intros Hc Hnil. destruct q as [|k q].
      * injection Hq as <-. congruence.
      * cbn [at_path] in Hq. by rewrite Hnil in Hq.
    + apply find_desc_update_none.
    + intros p0 Hp0 Hat0. by eapply IH.
    + exists p'. rewrite find_desc_children. cbn [set_children children].
      split; [exact Hp'|].
      rewrite at_path_children by (by eapply scan_nonempty). exact Hat'.
Qed.

End Insert.

End InsertFacts.

Module FrontMatterFacts.

Import Fixer FindFacts.

(** The target is [article-meta] only when that element has children. *)
Lemma target_article_meta_has_children (root : element) (q : path) (target : element) :
  front_matter_target root = Some q -> at_path q root = Some target ->
  tag target = "article-meta" -> children target <> [].
Proof.
  unfold front_matter_target, find_or. intros Hq Hat Htag.
  assert (Hbook : find_desc "book-meta" root = Some q -> False).
  { intros (y & Hy & Hty)%find_desc_tag. congruence. }
  destruct (find_desc "article-meta" root) as [p|]; [|done].
  destruct (at_path p root) as [e|] eqn:Ep; [|done].
  unfold ET.truth in Hq. destruct (children e) eqn:Ec; [done|].
  injection Hq as ->. congruence.
Qed.

End FrontMatterFacts.

(** C10.  When the first [article-meta] of the document has no children,
    its truth value is false and the front-matter check takes the result
    of the [book-meta] lookup as its target: the target, if any, is a
    [book-meta] element, nothing is inserted without one, and after the
    check the first [article-meta] of the document is still the same
    childless element.  In any document, an [article-meta] that is the
    target has at least one child. *)
Theorem childless_article_meta_is_skipped (root : element) (st : report)
    (p : Fixer.path) (article_meta : element)
    (Hfind : Fixer.find_desc "article-meta" root = Some p)
    (Hat : Fixer.at_path p root = Some article_meta)
    (Hempty : children article_meta = []) :
  Fixer.front_matter_target root = Fixer.find_desc "book-meta" root
  /\ (forall q target,
        Fixer.front_matter_target root = Some q -> Fixer.at_path q root = Some target ->
        tag target = "book-meta")
  /\ (Fixer.find_desc "book-meta" root = None -> Fixer.front_matter root st = (root, st))
  /\ (exists p',
        Fixer.find_desc "article-meta" (fst (Fixer.front_matter root st)) = Some p'
        /\ Fixer.at_path p' (fst (Fixer.front_matter root st)) = Some article_meta)
  /\ (forall other q target,
        Fixer.front_matter_target other = Some q -> Fixer.at_path q other = Some target ->
        tag target = "article-meta" -> children target <> []).
Proof.
  assert (Htarget : Fixer.front_matter_target root = Fixer.find_desc "book-meta" root).
  { unfold Fixer.front_matter_target, Fixer.find_or.
    rewrite Hfind, Hat. unfold ET.truth. by rewrite Hempty. }
  split; [exact Htarget|]. split; [|split; [|split]].
  - intros q target Hq Hq'. rewrite Htarget in Hq.
    apply FindFacts.find_desc_tag in Hq as (y & Hy & Hty). congruence.
  - intros Hnone. unfold Fixer.front_matter. by rewrite Htarget, Hnone.
  - unfold Fixer.front_matter. rewrite Htarget.
    destruct (Fixer.find_desc "book-meta" root) as [q|] eqn:Hq; [|by exists p].
    destruct (FindFacts.find_desc_tag _ _ _ Hq) as (bm & Hbm & Htag).
    rewrite Hbm. destruct (negb (Fixer.has_nces_id bm)); [|by exists p].
    cbn [fst].
    eapply (InsertFacts.find_desc_update_some "article-meta" Fixer.new_id);
      try eassumption; try reflexivity.
    by rewrite Htag.
  - intros other q target. apply FrontMatterFacts.target_article_meta_has_children.
Qed.

Lemma childless_article_meta_is_skipped_witness :
  Fixer.find_desc "article-meta" FixerSpec.empty_article_meta = Some [0; 0]
  /\ Fixer.at_path [0; 0] FixerSpec.empty_article_meta
     = Some (Element "article-meta" ∅ None None (Some 3) [])
  /\ Fixer.front_matter_target FixerSpec.empty_article_meta = Some [0; 1]
  /\ Fixer.front_matter FixerSpec.empty_article_meta no_report
     = (Element "book" ∅ None None (Some 1)
          [ Element "front" ∅ None None (Some 2)
              [ Element "article-meta" ∅ None None (Some 3) [];
                Element "book-meta" ∅ None None (Some 4)
                  [ Fixer.new_id;
                    Element "book-title" ∅ (Some "Digest") None (Some 5) [] ] ] ],
        Report 1 [Fixer.missing_nces_id]).
Proof.
  split; [reflexivity|]. split; [reflexivity|].
  pose proof (childless_article_meta_is_skipped FixerSpec.empty_article_meta no_report [0; 0]
                (Element "article-meta" ∅ None None (Some 3) [])
                eq_refl eq_refl eq_refl) as (Htarget & _).
  split; [rewrite Htarget; reflexivity|].
  vm_compute. reflexivity.
Defined.

(* ===================================================================== *)
(** ** Containment mode *)
(* ===================================================================== *)

Module ContainmentFacts.

Import Containment ContainmentSpec CharFacts.

Lemma lower_take (n : nat) (s : string) :
  PyStr.lower (PyStr.take n s) = PyStr.take n (PyStr.lower s).
Proof.
  revert s. induction n as [|n IH]; intros [|c s]; simpl; try reflexivity.
  by rewrite IH.
Qed.

Lemma lower_append (s1 s2 : string) :
  PyStr.lower (s1 ++ s2) = (PyStr.lower s1 ++ PyStr.lower s2)%string.
Proof.
  induction s1 as [|c s1 IH]; [reflexivity|].
  rewrite append_cons. simpl. by rewrite IH.
Qed.

Lemma startswith_append (p s1 s2 : string) :
  PyStr.startswith p s1 = true -> PyStr.startswith p (s1 ++ s2) = true.
Proof.
  revert s1. induction p as [|a p IH]; intros s1; [reflexivity|].
  destruct s1 as [|b s1]; [discriminate|]. rewrite append_cons. simpl.
  destruct (Ascii.eqb a b); [apply IH|discriminate].
Qed.

Lemma contains_append_l (p s1 s2 : string) :
  PyStr.contains p s1 = true -> PyStr.contains p (s1 ++ s2) = true.
Proof.
  induction s1 as [|b s1 IH].
  - simpl. rewrite orb_false_r. intros H.
    destruct p; [by destruct s2|discriminate].
  - rewrite append_cons. cbn [PyStr.contains]. intros [H|H]%orb_true_iff.
    + apply orb_true_iff. left. by apply (startswith_append p (String b s1) s2).
    + apply orb_true_iff. right. by apply IH.
Qed.

Lemma contains_append_r (p s1 s2 : string) :
  PyStr.contains p s2 = true -> PyStr.contains p (s1 ++ s2) = true.
Proof.
  intros H. induction s1 as [|b s1 IH]; [done|].
  rewrite append_cons. cbn [PyStr.contains]. apply orb_true_iff. by right.
Qed.

Lemma contains_join (p sep x : string) (pool : list string) :
  In x pool -> PyStr.contains p (PyStr.lower x) = true ->
  PyStr.contains p (PyStr.lower (PyStr.join sep pool)) = true.
Proof.
  intros Hin Hx. induction pool as [|y pool IH]; [destruct Hin|].
  destruct pool as [|z pool].
  - destruct Hin as [->|[]]. exact Hx.
  - change (PyStr.join sep (y :: z :: pool))
      with (y ++ sep ++ PyStr.join sep (z :: pool))%string.
    rewrite lower_append. destruct Hin as [->|Hin].
    + by apply contains_append_l.
    + apply contains_append_r. rewrite lower_append. apply contains_append_r.
      by apply IH.
Qed.

Lemma is_match_spec (xml_pool : list string) (para : string) :
  is_match (map PyStr.lower xml_pool) para = true <-> in_some_unit xml_pool para.
Proof.
  unfold is_match, in_some_unit. rewrite existsb_exists. split.
  - intros (x & Hx & Hc). apply in_map_iff in Hx as (y & <- & Hy).
    exists y. by rewrite lower_take.
  - intros (y & Hy & Hc). exists (PyStr.lower y). split; [by apply in_map|].
    by rewrite <- lower_take.
Qed.

Lemma found_count_fold (pool : list string) (paras : list string) (n : nat) :
  fold_left (fun n para => if is_match pool para then S n else n) paras n
  = n + length (List.filter (is_match pool) paras).
Proof.
  revert n. induction paras as [|p paras IH]; intros n; simpl; [lia|].
  rewrite IH. destruct (is_match pool p); simpl; lia.
Qed.

End ContainmentFacts.

(** C3, as stated, fails.  With the XML units
    ["The quick brown fox jumps"] and ["over the lazy dog again."], a PDF
    unit that straddles the two occurs in their concatenation (joined
    directly, or with a space) but in neither unit, and [draw_table]
    reports it MISSING. *)
Lemma containment_not_by_concatenation :
  ~ ContainmentSpec.classifies_by_concatenation ""
      ["jumpsover the lazy dog again."] ContainmentSpec.fox_pool
  /\ ~ ContainmentSpec.classifies_by_concatenation " "
      ["jumps over the lazy dog again."] ContainmentSpec.fox_pool.
Proof.
  split; intros H.
  - destruct (H "jumpsover the lazy dog again." "MISSING") as [_ Hback];
      [by left|]. by specialize (Hback eq_refl).
  - destruct (H "jumps over the lazy dog again." "MISSING") as [_ Hback];
      [by left|]. by specialize (Hback eq_refl).
Qed.

(** C3, amended.  In containment mode a PDF unit is reported FOUND if and
    only if its lower-cased first 60 characters occur in at least one
    lower-cased XML unit, and MISSING otherwise; a unit reported FOUND
    also occurs in the concatenation of the XML units, and the footer
    counts the FOUND rows out of all PDF units. *)
Theorem containment_per_unit (pdf_paras xml_pool : list string) (para status : string)
    (Hrow : In (para, status)
               (Containment.rows (Containment.draw_table pdf_paras xml_pool))) :
  (status = "FOUND" <-> ContainmentSpec.in_some_unit xml_pool para)
  /\ (status = "MISSING" <-> ~ ContainmentSpec.in_some_unit xml_pool para)
  /\ (status = "FOUND" ->
      forall sep, ContainmentSpec.in_concatenation sep xml_pool para = true)
  /\ Containment.found_count (Containment.draw_table pdf_paras xml_pool)
     = length (List.filter (fun row => String.eqb (snd row) "FOUND")
                 (Containment.rows (Containment.draw_table pdf_paras xml_pool)))
  /\ Containment.total (Containment.draw_table pdf_paras xml_pool) = length pdf_paras.
Proof.
  cbn [Containment.draw_table Containment.rows Containment.found_count Containment.total] in *.
  apply in_map_iff in Hrow as (p & [= -> <-] & _).
  unfold Containment.status_text.
  pose proof (ContainmentFacts.is_match_spec xml_pool para) as Hspec.
  assert (Hfound : (if Containment.is_match (map PyStr.lower xml_pool) para
                    then "FOUND" else "MISSING") = "FOUND"
                   <-> ContainmentSpec.in_some_unit xml_pool para).
  { rewrite <- Hspec. by destruct (Containment.is_match _ para). }
  split; [exact Hfound|]. split; [|split; [|split]].
  - rewrite <- Hspec. by destruct (Containment.is_match _ para).
  - intros (x & Hx & Hc)%Hfound sep. by eapply ContainmentFacts.contains_join.
  - rewrite ContainmentFacts.found_count_fold. simpl. f_equal.
    induction pdf_paras as [|q l IH]; [reflexivity|]. simpl.
    destruct (Containment.is_match _ q); simpl; by rewrite IH.
  - reflexivity.
Qed.

Lemma containment_per_unit_witness :
  In ("THE QUICK Brown", "FOUND")
     (Containment.rows
        (Containment.draw_table ["THE QUICK Brown"; "A slow red hen."]
                                ["The quick brown fox."]))
  /\ ContainmentSpec.in_some_unit ["The quick brown fox."] "THE QUICK Brown"
  /\ In ("A slow red hen.", "MISSING")
        (Containment.rows
           (Containment.draw_table ["THE QUICK Brown"; "A slow red hen."]
                                   ["The quick brown fox."]))
  /\ ~ ContainmentSpec.in_some_unit ["The quick brown fox."] "A slow red hen.".
Proof.
  assert (H1 : In ("THE QUICK Brown", "FOUND")
     (Containment.rows
        (Containment.draw_table ["THE QUICK Brown"; "A slow red hen."]
                                ["The quick brown fox."]))) by (by left).
  assert (H2 : In ("A slow red hen.", "MISSING")
     (Containment.rows
        (Containment.draw_table ["THE QUICK Brown"; "A slow red hen."]
                                ["The quick brown fox."]))) by (right; by left).
  split; [exact H1|].
  split; [exact (proj1 (proj1 (containment_per_unit _ _ _ _ H1)) eq_refl)|].
  split; [exact H2|].
  exact (proj1 (proj1 (proj2 (containment_per_unit _ _ _ _ H2))) eq_refl).
Defined.

(* ===================================================================== *)
(** ** Text extraction *)
(* ===================================================================== *)

Module ExtractFacts.

Import Extract ExtractSpec.

Lemma sub_spaces_head (c : ascii) (s : string) :
  PyStr.isspace c = false -> sub_spaces (String c s) = String c (sub_spaces s).
Proof. intros H. simpl. by rewrite H. Qed.

Lemma single_spaced_cons (c : ascii) (s : string) :
  single_spaced (String c s)
  = (if PyStr.isspace c then Ascii.eqb c " " && negb (starts_with_space s) else true)
    && single_spaced s.
Proof. reflexivity. Qed.

Lemma single_spaced_sub_spaces (s : string) : single_spaced (sub_spaces s) = true.
Proof.
  induction s as [|c s IH]; [reflexivity|].
  cbn [sub_spaces]. destruct (PyStr.isspace c) eqn:Ec.
  - destruct s as [|d s]; [reflexivity|].
    destruct (PyStr.isspace d) eqn:Ed; [exact IH|].
    rewrite single_spaced_cons, IH, andb_true_r.
    rewrite (sub_spaces_head d s Ed). simpl. by rewrite Ed.
  - by rewrite single_spaced_cons, Ec, IH.
Qed.

Lemma single_spaced_tail (c : ascii) (s : string) :
  single_spaced (String c s) = true -> single_spaced s = true.
Proof. rewrite single_spaced_cons. by intros [_ H]%andb_true_iff. Qed.

Lemma single_spaced_lstrip (s : string) :
  single_spaced s = true -> single_spaced (PyStr.lstrip s) = true.
Proof.
  induction s as [|c s IH]; [done|]. intros H. cbn [PyStr.lstrip].
  destruct (PyStr.isspace c); [|exact H]. apply IH. by eapply single_spaced_tail.
Qed.

Lemma lstrip_start (s : string) : starts_with_space (PyStr.lstrip s) = false.
Proof.
  induction s as [|c s IH]; [reflexivity|]. cbn [PyStr.lstrip].
  destruct (PyStr.isspace c) eqn:Ec; [exact IH|]. exact Ec.
Qed.

Lemma rstrip_cons (c : ascii) (s : string) :
  PyStr.rstrip (String c s)
  = match PyStr.rstrip s with
    | EmptyString => if PyStr.isspace c then EmptyString else String c EmptyString
    | r => String c r
    end.
Proof. reflexivity. Qed.

(** A non-empty result of [rstrip] starts like its argument. *)
Lemma rstrip_start (s : string) :
  starts_with_space s = false -> starts_with_space (PyStr.rstrip s) = false.
Proof.
  destruct s as [|c s]; [done|]. rewrite rstrip_cons. cbn [starts_with_space].
  intros Hc. destruct (PyStr.rstrip s); [by rewrite Hc|exact Hc].
Qed.

Lemma rstrip_start_inv (s : string) :
  starts_with_space (PyStr.rstrip s) = true -> starts_with_space s = true.
Proof.
  destruct s as [|c s]; [done|]. rewrite rstrip_cons. cbn [starts_with_space].
  destruct (PyStr.rstrip s); [|done].
  destruct (PyStr.isspace c) eqn:Ec; [done|]. simpl. by rewrite Ec.
Qed.

Lemma rstrip_end (s : string) : ends_with_space (PyStr.rstrip s) = false.
Proof.
  induction s as [|c s IH]; [reflexivity|]. rewrite rstrip_cons.
  destruct (PyStr.rstrip s) as [|d r] eqn:Er.
  - destruct (PyStr.isspace c) eqn:Ec; [reflexivity|]. simpl. exact Ec.
  - exact IH.
Qed.

Lemma single_spaced_rstrip (s : string) :
  single_spaced s = true -> single_spaced (PyStr.rstrip s) = true.
Proof.
  induction s as [|c s IH]; [done|]. intros H. rewrite rstrip_cons.
  pose proof (IH (single_spaced_tail _ _ H)) as IH'.
  destruct (PyStr.rstrip s) as [|d r] eqn:Er.
  - destruct (PyStr.isspace c) eqn:Ec; [done|].
    by rewrite single_spaced_cons, Ec.
  - rewrite single_spaced_cons in H |- *. apply andb_true_iff in H as [Hc _].
    rewrite IH', andb_true_r. destruct (PyStr.isspace c); [|done].
    apply andb_true_iff in Hc as [Hsp Hnext]. rewrite Hsp. simpl.
    apply negb_true_iff in Hnext. apply negb_true_iff.
    destruct (starts_with_space (String d r)) eqn:Ed; [|done].
    rewrite <- Er in Ed. apply rstrip_start_inv in Ed. congruence.
Qed.

(** [clean_text] produces text with collapsed and trimmed whitespace. *)
Lemma clean_text_normalized (text : string) : normalized (clean_text text) = true.
Proof.
  unfold clean_text, normalized. destruct text as [|c s]; [reflexivity|].
  unfold PyStr.strip.
  rewrite single_spaced_rstrip
    by apply single_spaced_lstrip, single_spaced_sub_spaces.
  rewrite rstrip_start by apply lstrip_start.
  by rewrite rstrip_end.
Qed.

Lemma extract_xml_paragraphs_eq (root : element) :
  Blocks.extract_xml_paragraphs root = spec_units Blocks.content_tags 20 root.
Proof.
  unfold Blocks.extract_xml_paragraphs, spec_units.
  induction (ET.iter root) as [|e l IH]; [reflexivity|].
  cbn [flat_map List.filter]. rewrite IH. unfold Blocks.units_of.
  destruct (Audit.in_tags (tag e) Blocks.content_tags); [|reflexivity].
  cbn [map List.filter]. fold (flattened e).
  by destruct (20 <? String.length (clean_text (flattened e)))%nat.
Qed.

Lemma extract_xml_text_eq (root : element) :
  Sentences.extract_xml_text root
  = clean_text (PyStr.join " " (direct_parts Sentences.content_tags root)).
Proof.
  unfold Sentences.extract_xml_text, direct_parts. do 2 f_equal.
  induction (ET.iter root) as [|e l IH]; [reflexivity|].
  cbn [flat_map List.filter]. rewrite IH. unfold Sentences.parts_of.
  by destruct (Audit.in_tags (tag e) Sentences.content_tags).
Qed.

End ExtractFacts.

(** C9, as stated, fails for the sentence extractor [extract_xml_text] of
    [xmlsasd.py]: on [<p>Hello <bold>big</bold> world.</p>] it yields the
    one unit ["Hello"], the stripped direct text of [p], and not the
    flattened text ["Hello big world."], whatever the length threshold. *)
Lemma sentence_extractor_not_flattened :
  Extract.Sentences.split_into_sentences
    (Extract.Sentences.extract_xml_text ExtractSpec.inline_markup) = ["Hello"]
  /\ ExtractSpec.flattened ExtractSpec.inline_markup = "Hello big world."
  /\ ~ exists threshold,
         Extract.Sentences.split_into_sentences
           (Extract.Sentences.extract_xml_text ExtractSpec.inline_markup)
         = ExtractSpec.spec_units Extract.Sentences.content_tags threshold
             ExtractSpec.inline_markup.
Proof.
  split; [reflexivity|]. split; [reflexivity|].
  intros [threshold H].
  change (Extract.Sentences.split_into_sentences
            (Extract.Sentences.extract_xml_text ExtractSpec.inline_markup))
    with ["Hello"] in H.
  change (ExtractSpec.spec_units Extract.Sentences.content_tags threshold
            ExtractSpec.inline_markup)
    with (if (threshold <? 16)%nat then ["Hello big world."] else []) in H.
  by destruct (threshold <? 16)%nat.
Qed.

(** C9, amended.  The block extractor [extract_xml_paragraphs] produces,
    in document order, one unit per node whose tag is a content tag and
    whose cleaned flattened text is longer than 20 characters; every unit
    is the flattened text of its node with whitespace runs collapsed to
    one space and trimmed.  The sentence extractor [extract_xml_text]
    cleans whitespace in the same way, but what it joins is the stripped
    direct text and the stripped tail of the nodes with a content tag. *)
Theorem block_extractor_units (root : element) :
  Extract.Blocks.extract_xml_paragraphs root
  = ExtractSpec.spec_units Extract.Blocks.content_tags 20 root
  /\ Forall (fun u => 20 < String.length u /\ ExtractSpec.normalized u = true)
       (Extract.Blocks.extract_xml_paragraphs root)
  /\ Extract.Sentences.extract_xml_text root
     = Extract.clean_text
         (PyStr.join " " (ExtractSpec.direct_parts Extract.Sentences.content_tags root))
  /\ ExtractSpec.normalized (Extract.Sentences.extract_xml_text root) = true.
Proof.
  split; [apply ExtractFacts.extract_xml_paragraphs_eq|]. split; [|split].
  - rewrite ExtractFacts.extract_xml_paragraphs_eq. unfold ExtractSpec.spec_units.
    apply List.Forall_forall. intros u [Hin Hlen]%filter_In.
    apply Nat.ltb_lt in Hlen. split; [exact Hlen|].
    apply in_map_iff in Hin as (e & <- & _).
    apply ExtractFacts.clean_text_normalized.
  - apply ExtractFacts.extract_xml_text_eq.
  - apply ExtractFacts.clean_text_normalized.
Qed.

(* ===================================================================== *)
(** ** Alignment mode and the two reports *)
(* ===================================================================== *)

Module AlignmentFacts.

Import Alignment AlignmentSpec.

(** [entry[0]] is never the two-space string. *)
Lemma first_char_single (entry : string) :
  String.eqb (first_char entry) "  " = false.
Proof.
  destruct entry as [|c s]; [reflexivity|]. simpl. by destruct (Ascii.eqb c " ").
Qed.

Lemma entry_output_block (line_num : nat) (entry : string) :
  entry_output (S line_num) entry = entry_block line_num entry.
Proof.
  unfold entry_output, entry_block, block. rewrite Nat.add_1_r, first_char_single.
  destruct (String.eqb (first_char entry) "-"); [reflexivity|].
  destruct (String.eqb (first_char entry) "+"); reflexivity.
Qed.

(** The line counter is the position in the diff. *)
Lemma entries_output_blocks (line_num : nat) (diff : list string) :
  entries_output (S line_num) diff
  = concat (imap (fun i => entry_block (line_num + i)) diff).
Proof.
  revert line_num. induction diff as [|entry diff IH]; intros line_num; [reflexivity|].
  cbn [entries_output]. rewrite entry_output_block, Nat.add_1_r, IH.
  rewrite imap_cons, Nat.add_0_r. cbn [concat]. f_equal. f_equal.
  apply imap_ext. intros i x _. simpl. f_equal. lia.
Qed.

End AlignmentFacts.

(** C4.  The branch for unchanged entries is never taken: [entry[0]] is
    one character and is compared with the two-space string.  An
    unchanged entry therefore prints nothing at any line number, while a
    PDF-only entry prints its MISSING block and an XML-only entry its
    EXTRA block.  For the sequences [A. B. C.] and [A. C.] the diff is
    ["  A."], ["- B."], ["  C."], and the loop prints the MISSING block for
    ["B."] only; for fifteen identical sentences the diff has fifteen
    unchanged entries and nothing is printed at line 15, where the match
    branch would print its [[OK] Verified sequence matches...] line. *)
Theorem unchanged_entries_not_recognised :
  (forall entry, String.eqb (Alignment.first_char entry) "  " = false)
  /\ (forall line_num sentence,
        Alignment.entry_output line_num ("  " +:+ sentence) = [])
  /\ (forall line_num sentence,
        Alignment.entry_output line_num ("- " +:+ sentence)
        = AlignmentSpec.block "-"
            ("LINE " +:+ Alignment.format_03 line_num +:+ " | MISSING IN XML:") sentence)
  /\ (forall line_num sentence,
        Alignment.entry_output line_num ("+ " +:+ sentence)
        = AlignmentSpec.block "+"
            ("LINE " +:+ Alignment.format_03 line_num +:+ " | EXTRA IN XML:  ") sentence)
  /\ Differ.compare AlignmentSpec.abc AlignmentSpec.ac = Some ["  A."; "- B."; "  C."]
  /\ Alignment.entries_output 1 ["  A."; "- B."; "  C."]
     = AlignmentSpec.block "-" "LINE 002 | MISSING IN XML:" "B."
  /\ Differ.compare AlignmentSpec.fifteen AlignmentSpec.fifteen
     = Some (map (fun s => "  " +:+ s) AlignmentSpec.fifteen)
  /\ Alignment.draw_comparison_graph AlignmentSpec.fifteen AlignmentSpec.fifteen
     = Some [ Alignment.Print (Alignment.newline +:+ Alignment.rule "=" 80);
              Alignment.Print "|| DOCUMENT SCAN REPORT";
              Alignment.Print (Alignment.rule "=" 80);
              Alignment.Print (Alignment.rule "=" 80 +:+ Alignment.newline) ].
Proof.
  split; [apply AlignmentFacts.first_char_single|].
  do 3 (split; [reflexivity|]).
  repeat split; vm_compute; reflexivity.
Qed.


(** C5, as stated, fails in alignment mode.  For the PDF sentences
    ["A."], ["B."], ["C."] and the XML sentences ["A."], ["C."] the whole
    report is the header, the MISSING block of ["B."] and the closing
    rule: it shows no counts, does not mention ["A."] or ["C."], and its
    last line carries no percentage. *)
Lemma alignment_report_has_no_summary :
  Alignment.draw_comparison_graph AlignmentSpec.abc AlignmentSpec.ac
  = Some [ Alignment.Print (Alignment.newline +:+ Alignment.rule "=" 80);
           Alignment.Print "|| DOCUMENT SCAN REPORT";
           Alignment.Print (Alignment.rule "=" 80);
           Alignment.Print ("||" +:+ Alignment.rule "-" 76);
           Alignment.WrapAndPrint "LINE 002 | MISSING IN XML:" "B.";
           Alignment.Print ("||" +:+ Alignment.rule "-" 76);
           Alignment.Print (Alignment.rule "=" 80 +:+ Alignment.newline) ]
  /\ ~ (exists out,
          Alignment.draw_comparison_graph AlignmentSpec.abc AlignmentSpec.ac = Some out
          /\ forallb (AlignmentSpec.mentions out) AlignmentSpec.abc = true
          /\ AlignmentSpec.ends_with_percentage out = true).
Proof.
  split; [vm_compute; reflexivity|].
  intros (out & Hout & Hall & _).
  assert (Hval : Alignment.draw_comparison_graph AlignmentSpec.abc AlignmentSpec.ac
                 = Some (Alignment.render ["  A."; "- B."; "  C."]))
    by (vm_compute; reflexivity).
  rewrite Hval in Hout. injection Hout as <-.
  vm_compute in Hall. discriminate.
Qed.

(** C5, amended.  Containment mode reports in its footer the number of
    FOUND units out of all PDF units, followed by the percentage
    [found / total * 100], computed in floating point and shown with
    one decimal ([0.0] for no units).  Alignment mode reports no counts
    and no percentage: between its header and its closing rule the
    report holds, in the order of the diff, one block for every PDF-only
    and every XML-only entry, labelled with a running line number that
    starts at 1 and advances by one for every entry of the diff, and
    nothing else. *)
Theorem reconciliation_reports (pdf_paras xml_pool pdf_sent xml_sent diff : list string) :
  let table := Containment.draw_table pdf_paras xml_pool in
  map fst (Containment.rows table) = pdf_paras
  /\ Containment.found_count table
     = length (List.filter (fun row => String.eqb (snd row) "FOUND") (Containment.rows table))
  /\ Containment.total table = length pdf_paras
  /\ Containment.found_count table <= Containment.total table
  /\ Containment.match_pct table
     = match pdf_paras with
       | [] => PyFloat.Int 0
       | _ =>
           PyFloat.Float
             (PyFloat.times
                (PyFloat.true_divide (Z.of_nat (Containment.found_count table))
                                     (Z.of_nat (Containment.total table)))
                100)
       end
  /\ Footer.summary table
     = "TOTAL MATCHES: " +:+ Words.str (Containment.found_count table) +:+ "/"
       +:+ Words.str (length pdf_paras)
       +:+ " (" +:+ Footer.format_1f (Containment.match_pct table) +:+ "%)"
  /\ (pdf_paras = [] -> Footer.summary table = "TOTAL MATCHES: 0/0 (0.0%)")
  /\ Alignment.render diff
     = [ Alignment.Print (Alignment.newline +:+ Alignment.rule "=" 80);
         Alignment.Print "|| DOCUMENT SCAN REPORT";
         Alignment.Print (Alignment.rule "=" 80) ]
       ++ concat (imap AlignmentSpec.entry_block diff)
       ++ [ Alignment.Print (Alignment.rule "=" 80 +:+ Alignment.newline) ]
  /\ Alignment.draw_comparison_graph pdf_sent xml_sent
     = Alignment.render <$> Differ.compare pdf_sent xml_sent.
Proof.
  cbv zeta.
  split; [|split; [|split; [|split; [|split; [|split; [|split; [|split]]]]]]].
  - cbn [Containment.draw_table Containment.rows]. rewrite map_map. simpl. apply map_id.
  - cbn [Containment.draw_table Containment.rows Containment.found_count].
    rewrite ContainmentFacts.found_count_fold. cbn [Nat.add].
    induction pdf_paras as [|q l IH]; [reflexivity|]. simpl.
    unfold Containment.status_text at 1.
    destruct (Containment.is_match _ q); simpl; by rewrite IH.
  - reflexivity.
  - cbn [Containment.draw_table Containment.found_count Containment.total].
    rewrite ContainmentFacts.found_count_fold. cbn [Nat.add].
    apply List.filter_length_le.
  - by destruct pdf_paras.
  - reflexivity.
  - intros ->. vm_compute. reflexivity.
  - unfold Alignment.render. by rewrite AlignmentFacts.entries_output_blocks.
  - unfold Alignment.draw_comparison_graph.
    by destruct (Differ.compare pdf_sent xml_sent).
Qed.

(** The footer for 7 units found out of 25: the quotient [7 / 25 * 100]
    is the float [28.000000000000004], shown as [28.0]. *)
Remark footer_of_seven_in_twenty_five :
  PyFloat.times (PyFloat.true_divide 7 25) 100
  = SpecFloat.S754_finite false 7881299347898369 (-48)
  /\ Footer.format_1f (PyFloat.Float (PyFloat.times (PyFloat.true_divide 7 25) 100))
     = "28.0"
  /\ Footer.summary
       (Containment.Table [] 7 25
          (PyFloat.Float (PyFloat.times (PyFloat.true_divide 7 25) 100)))
     = "TOTAL MATCHES: 7/25 (28.0%)".
Proof. repeat split; vm_compute; reflexivity. Qed.

(* ===================================================================== *)
(** ** Strings *)
(* ===================================================================== *)

Module StringFacts.

Import CharFacts.

Lemma append_assoc (s1 s2 s3 : string) :
  ((s1 ++ s2) ++ s3 = s1 ++ (s2 ++ s3))%string.
Proof.
  induction s1 as [|c s1 IH]; [by rewrite !append_nil|].
  by rewrite !append_cons, IH.
Qed.

Lemma append_empty (s : string) : (s ++ EmptyString = s)%string.
Proof. induction s as [|c s IH]; [done|]. by rewrite append_cons, IH. Qed.

End StringFacts.

(* ===================================================================== *)
(** ** The summary of the auditor *)
(* ===================================================================== *)

Module DashboardFacts.

Import Audit AuditSpec AuditFacts Dashboard DashboardSpec.

Lemma dashboard_compliant (n : nat) : dashboard n = compliant_box <-> n = 0.
Proof.
  split; [|by intros ->].
  unfold dashboard, compliant_box, box.
  destruct (n =? 0)%nat eqn:E; [by apply Nat.eqb_eq in E|].
  destruct (5 <? n)%nat; intros [= H _]; vm_compute in H; discriminate.
Qed.

Lemma flat_map_nil {X Y : Type} (f : X -> list Y) (l : list X) :
  flat_map f l = [] <-> Forall (fun x => f x = []) l.
Proof.
  induction l as [|x l IH]; [by split; [constructor|]|].
  simpl. split.
  - intros [H1 H2]%app_eq_nil. constructor; [done|by apply IH].
  - intros [H1 H2]%Forall_cons. rewrite H1. by apply IH.
Qed.

Lemma attribute_records_nil (elem : element) :
  Namespaces.parsed_element elem = true ->
  attribute_records elem = []
  <-> match aem_rules !! tag elem with
      | Some (required_attrs, _) =>
          forallb (fun attr => negb (Namespaces.prefixed attr) && carries attr elem)
                  required_attrs = true
      | None => True
      end.
Proof.
  intros Hparsed. unfold attribute_records.
  destruct (aem_rules !! tag elem) as [[req spec]|] eqn:Hrule; [|done].
  rewrite flat_map_nil, forallb_forall, Forall_forall.
  split; intros H x Hx.
  - pose proof (ParsedFacts.lacks_parsed elem _ x _ _ Hparsed Hrule Hx) as Hl.
    apply list_elem_of_In in Hx. specialize (H x Hx).
    destruct (lacks x elem); [done|].
    symmetry in Hl. apply orb_false_iff in Hl as [-> Hc].
    apply negb_false_iff in Hc. by rewrite Hc.
  - pose proof (ParsedFacts.lacks_parsed elem _ x _ _ Hparsed Hrule
                  (proj1 (list_elem_of_In _ _) Hx)) as Hl.
    apply list_elem_of_In in Hx. specialize (H x Hx).
    apply andb_true_iff in H as [Hp Hc]. apply negb_true_iff in Hp.
    rewrite Hp, Hc in Hl. simpl in Hl. by rewrite Hl.
Qed.

Lemma emitted_nil (is_bits : bool) (elem : element) :
  Namespaces.parsed_element elem = true ->
  emitted is_bits elem = [] <-> passes is_bits elem = true.
Proof.
  intros Hparsed. rewrite emitted_eq. unfold passes, structural_records.
  pose proof (attribute_records_nil elem Hparsed) as Ha.
  destruct (aem_rules !! tag elem) as [[req spec]|];
    destruct (lacks_publisher_loc is_bits elem), (uniformly_bold_title elem),
      (formula_without_id elem); simpl; rewrite ?andb_false_r, ?andb_true_r;
    split; try discriminate; try (by intros [_ [=]]%app_eq_nil);
    try (intros [H _]%app_eq_nil; by apply Ha);
    try (intros H; apply Ha in H; by rewrite H);
    try (intros _; destruct Ha as [_ Ha]; by rewrite Ha).
Qed.

(** An element with a rule on [xlink:href] does not pass. *)
Lemma graphic_never_passes (is_bits : bool) (elem : element) :
  tag elem = "graphic" \/ tag elem = "ext-link" -> passes is_bits elem = false.
Proof. unfold passes. by intros [-> | ->]. Qed.

End DashboardFacts.

(** X1.  The summary box of the auditor, for a parsed document.  The
    count it is built from is the number of records printed in the
    loop.  The green [AEM COMPLIANT] box is printed exactly when the
    auditor finds no rule failed in any element: every mandatory
    attribute of its tag is written without prefix and present, and
    none of the three structural rules applies.  A document that holds
    a [graphic] or an [ext-link] therefore never gets the green box,
    whether or not these elements carry [xlink:href]. *)
Theorem audit_summary_compliant_iff (is_bits : bool) (root : element)
    (Hparsed : Namespaces.parsed root = true) :
  Dashboard.audit_summary is_bits root
  = Dashboard.dashboard (length (flat_map (AuditSpec.emitted is_bits) (ET.iter root)))
  /\ (Dashboard.audit_summary is_bits root = DashboardSpec.compliant_box
      <-> Forall (fun elem => DashboardSpec.passes is_bits elem = true) (ET.iter root))
  /\ (forall elem,
        In elem (ET.iter root) -> tag elem = "graphic" \/ tag elem = "ext-link" ->
        Dashboard.audit_summary is_bits root <> DashboardSpec.compliant_box).
Proof.
  assert (Hiff : Dashboard.audit_summary is_bits root = DashboardSpec.compliant_box
                 <-> Forall (fun elem => DashboardSpec.passes is_bits elem = true)
                            (ET.iter root)).
  { unfold Dashboard.audit_summary.
    rewrite AuditFacts.run_aem_audit_count, AuditFacts.run_aem_audit_printed.
    rewrite DashboardFacts.dashboard_compliant, length_zero_iff_nil.
    rewrite DashboardFacts.flat_map_nil, !Forall_forall.
    split; intros H e He; apply DashboardFacts.emitted_nil; auto;
      apply (ParsedFacts.parsed_In root e Hparsed); by apply list_elem_of_In. }
  split; [|split; [exact Hiff|]].
  - unfold Dashboard.audit_summary.
    by rewrite AuditFacts.run_aem_audit_count, AuditFacts.run_aem_audit_printed.
  - intros elem Helem Htag Hbox. apply Hiff in Hbox.
    rewrite Forall_forall in Hbox. apply list_elem_of_In in Helem.
    specialize (Hbox elem Helem).
    by rewrite (DashboardFacts.graphic_never_passes is_bits elem Htag) in Hbox.
Qed.

Lemma audit_summary_compliant_iff_witness :
  Namespaces.parsed AuditSpec.figure_article = true
  /\ AuditSpec.carries "xlink:href" AuditSpec.figure_graphic = true
  /\ Dashboard.audit_summary false AuditSpec.figure_article <> DashboardSpec.compliant_box.
Proof.
  pose proof (audit_summary_compliant_iff false AuditSpec.figure_article eq_refl)
    as (_ & _ & Hgraphic).
  split; [reflexivity|]. split; [reflexivity|].
  apply (Hgraphic AuditSpec.figure_graphic).
  - right. right. by left.
  - by left.
Defined.

(* ===================================================================== *)
(** ** Words and context lines *)
(* ===================================================================== *)

Module WordsFacts.

Import Words WordsSpec FixerSpec CharFacts StringFacts SentenceSpec.

Lemma word_cons (c : ascii) (w : string) :
  word (String c w) = negb (PyStr.isspace c) && all_chars (fun c => negb (PyStr.isspace c)) w.
Proof. reflexivity. Qed.

Lemma word_tail (c d : ascii) (w : string) :
  word (String c (String d w)) = true -> word (String d w) = true.
Proof. rewrite !word_cons. by intros [_ H]%andb_prop. Qed.

Lemma split_space (c : ascii) (s : string) :
  PyStr.isspace c = true -> split (String c s) = split s.
Proof. intros H. simpl. by rewrite H. Qed.

Lemma split_blank (s : string) : split s = [] <-> blank s = true.
Proof.
  unfold blank. induction s as [|c s IH]; [done|].
  simpl. destruct (PyStr.isspace c) eqn:Ec; simpl; [exact IH|].
  split; [|discriminate].
  destruct s as [|d s]; [discriminate|].
  destruct (PyStr.isspace d); [discriminate|].
  by destruct (split (String d s)).
Qed.

(** A word followed by whitespace is the first word of the text. *)
Lemma split_word_app (w : string) (sp : ascii) (r : string) :
  word w = true -> PyStr.isspace sp = true ->
  split (w ++ String sp r) = w :: split r.
Proof.
  intros Hw Hsp. induction w as [|c w IH]; [discriminate|].
  pose proof Hw as Hc. rewrite word_cons in Hc. apply andb_prop in Hc as [Hc _].
  apply negb_true_iff in Hc.
  rewrite append_cons. destruct w as [|d w].
  - rewrite append_nil. simpl. by rewrite Hc, Hsp.
  - specialize (IH (word_tail _ _ _ Hw)).
    pose proof (word_tail _ _ _ Hw) as Hd. rewrite word_cons in Hd.
    apply andb_prop in Hd as [Hd _]. apply negb_true_iff in Hd.
    rewrite append_cons in *.
    change (split (String c (String d (w ++ String sp r))))
      with (if PyStr.isspace c then split (String d (w ++ String sp r))
            else if PyStr.isspace d
                 then String c EmptyString :: split (String d (w ++ String sp r))
                 else Extract.Sentences.cons_char c (split (String d (w ++ String sp r)))).
    by rewrite Hc, Hd, IH.
Qed.

Lemma split_word (w : string) : word w = true -> split w = [w].
Proof.
  intros Hw. induction w as [|c w IH]; [discriminate|].
  pose proof Hw as Hc. rewrite word_cons in Hc. apply andb_prop in Hc as [Hc _].
  apply negb_true_iff in Hc.
  destruct w as [|d w].
  - simpl. by rewrite Hc.
  - specialize (IH (word_tail _ _ _ Hw)).
    pose proof (word_tail _ _ _ Hw) as Hd. rewrite word_cons in Hd.
    apply andb_prop in Hd as [Hd _]. apply negb_true_iff in Hd.
    change (split (String c (String d w)))
      with (if PyStr.isspace c then split (String d w)
            else if PyStr.isspace d
                 then String c EmptyString :: split (String d w)
                 else Extract.Sentences.cons_char c (split (String d w))).
    by rewrite Hc, Hd, IH.
Qed.

(** What [split] returns are words. *)
Lemma split_words (s : string) : Forall (fun w => word w = true) (split s).
Proof.
  induction s as [|c s IH]; [constructor|].
  simpl. destruct (PyStr.isspace c) eqn:Ec; [exact IH|].
  assert (Hone : word (String c EmptyString) = true).
  { rewrite word_cons, Ec. reflexivity. }
  destruct s as [|d s]; [by repeat constructor|].
  destruct (PyStr.isspace d); [by constructor|].
  destruct (split (String d s)) as [|h rest]; [by repeat constructor|].
  apply Forall_cons in IH as [Hh Hrest]. simpl. constructor; [|done].
  rewrite word_cons, Ec. simpl. destruct h as [|e h]; [done|].
  rewrite word_cons in Hh. exact Hh.
Qed.

Lemma join_cons (sep p : string) (rest : list string) :
  rest <> [] -> PyStr.join sep (p :: rest) = (p ++ sep ++ PyStr.join sep rest)%string.
Proof. by destruct rest. Qed.

(** The words joined by one whitespace character, then whitespace and
    more text: its words are those words, then the words of the rest. *)
Lemma split_join_app (sp1 sp2 : ascii) (ws : list string) (r : string) :
  PyStr.isspace sp1 = true -> PyStr.isspace sp2 = true ->
  Forall (fun w => word w = true) ws -> ws <> [] ->
  split (PyStr.join (String sp1 EmptyString) ws ++ String sp2 r) = ws ++ split r.
Proof.
  intros H1 H2 Hws. induction Hws as [|w ws Hw Hws IH]; [done|]. intros _.
  destruct ws as [|w2 ws].
  - simpl PyStr.join. by rewrite split_word_app.
  - rewrite join_cons by done.
    rewrite !append_assoc, append_cons, append_nil.
    rewrite split_word_app by done. rewrite IH by done. reflexivity.
Qed.

Lemma split_join (sp : ascii) (ws : list string) :
  PyStr.isspace sp = true ->
  Forall (fun w => word w = true) ws ->
  split (PyStr.join (String sp EmptyString) ws) = ws.
Proof.
  intros Hsp Hws. induction Hws as [|w ws Hw Hws IH]; [done|].
  destruct ws as [|w2 ws].
  - by apply split_word.
  - rewrite join_cons by done. rewrite append_cons, append_nil.
    rewrite split_word_app by done. by rewrite IH.
Qed.

(** Lines of words: the words of the lines joined by newlines are the
    words of all lines. *)
Lemma split_join_lines (lines : list (list string)) :
  Forall (fun l => l <> [] /\ Forall (fun w => word w = true) l) lines ->
  split (PyStr.join Alignment.newline (map (PyStr.join " ") lines)) = concat lines.
Proof.
  induction 1 as [|l lines [Hne Hl] Hlines IH]; [done|].
  destruct lines as [|l2 lines].
  - simpl. rewrite app_nil_r. by apply split_join.
  - change (map (PyStr.join " ") (l :: l2 :: lines))
      with (PyStr.join " " l :: map (PyStr.join " ") (l2 :: lines)).
    rewrite join_cons by done. unfold Alignment.newline at 1.
    rewrite append_cons, append_nil.
    rewrite split_join_app by done. by rewrite IH.
Qed.

Lemma range_step_cons (n step : nat) :
  0 < n -> 0 < step ->
  range_step n step = 0 :: map (fun i => i + step) (range_step (n - step) step).
Proof.
  intros Hn Hstep. unfold range_step.
  assert (E1 : (n + step - 1) / step = S ((n - 1) / step)).
  { replace (n + step - 1) with (n - 1 + 1 * step) by lia.
    rewrite Nat.div_add by lia. lia. }
  assert (E2 : (n - step + step - 1) / step = (n - 1) / step).
  { destruct (Nat.le_gt_cases step n).
    - f_equal. lia.
    - rewrite !Nat.div_small by lia. reflexivity. }
  rewrite E1, E2. generalize ((n - 1) / step). intros k.
  change (seq 0 (S k)) with (0 :: seq 1 k).
  rewrite <- seq_shift, map_cons, !map_map. f_equal.
  apply map_ext. intros i. lia.
Qed.

Lemma range_step_0 (step : nat) : 0 < step -> range_step 0 step = [].
Proof. intros H. unfold range_step. rewrite Nat.div_small by lia. reflexivity. Qed.

Lemma chunks_nil (word_limit : nat) : 0 < word_limit -> chunks word_limit [] = [].
Proof. intros H. unfold chunks. simpl length. by rewrite range_step_0. Qed.

Lemma chunks_cons (word_limit : nat) (words : list string) :
  0 < word_limit -> words <> [] ->
  chunks word_limit words
  = take word_limit words :: chunks word_limit (drop word_limit words).
Proof.
  intros Hlimit Hwords. unfold chunks.
  rewrite range_step_cons; [|destruct words; [done|simpl; lia]|done].
  simpl map. rewrite map_map, length_drop. f_equal.
  apply map_ext. intros i. by rewrite drop_drop, (Nat.add_comm word_limit).
Qed.

(** The chunks are a partition of the words into groups of at most
    [word_limit], none of them empty. *)
Lemma chunks_partition (word_limit : nat) :
  0 < word_limit ->
  forall (n : nat) (words : list string),
    length words <= n ->
    concat (chunks word_limit words) = words
    /\ Forall (fun l => l <> [] /\ length l <= word_limit) (chunks word_limit words).
Proof.
  intros Hlimit. induction n as [|n IH]; intros words Hn.
  - destruct words; [|simpl in Hn; lia]. by rewrite chunks_nil.
  - destruct words as [|w words]; [by rewrite chunks_nil|].
    rewrite chunks_cons by done.
    destruct (IH (drop word_limit (w :: words))) as [H1 H2].
    { rewrite length_drop. simpl in *. lia. }
    split.
    + simpl concat. rewrite H1. apply take_drop.
    + constructor; [|done]. split.
      * destruct word_limit; [lia|done].
      * rewrite length_take. lia.
Qed.

Lemma Forall_sublist_chunks (word_limit : nat) (words : list string) :
  0 < word_limit ->
  Forall (fun w => word w = true) words ->
  Forall (fun l => l <> [] /\ Forall (fun w => word w = true) l) (chunks word_limit words).
Proof.
  intros Hlimit Hwords.
  destruct (chunks_partition word_limit Hlimit (length words) words) as [H1 H2]; [done|].
  rewrite <- H1 in Hwords. clear H1.
  induction H2 as [|l ls [Hl _] Hls IH]; [constructor|].
  simpl in Hwords. apply Forall_app in Hwords as [Ha Hb].
  constructor; [done|by apply IH].
Qed.

Lemma join_snoc (sep : string) (ws : list string) (w tl : string) :
  (PyStr.join sep (ws ++ [w]) ++ tl)%string = PyStr.join sep (ws ++ [w ++ tl]%string).
Proof.
  induction ws as [|x ws IH]; [reflexivity|].
  change ((x :: ws) ++ [w]) with (x :: (ws ++ [w])).
  change ((x :: ws) ++ [(w ++ tl)%string]) with (x :: (ws ++ [(w ++ tl)%string])).
  rewrite !join_cons by (by destruct ws).
  by rewrite !append_assoc, IH.
Qed.

Lemma word_append (w tl : string) :
  word w = true -> all_chars (fun c => negb (PyStr.isspace c)) tl = true ->
  word (w ++ tl) = true.
Proof.
  intros Hw Htl. destruct w as [|c w]; [done|].
  rewrite append_cons, word_cons. rewrite word_cons in Hw.
  apply andb_prop in Hw as [-> Hw]. simpl.
  induction w as [|d w IH]; [by rewrite append_nil|].
  rewrite append_cons. simpl in *. apply andb_prop in Hw as [-> Hw]. by apply IH.
Qed.

End WordsFacts.

(** X2.  The context an audit record shows keeps every word of the text.
    For text with at least one word and a positive [word_limit] (15 in
    [print_aem_violation]), [wrap_context] returns lines joined by
    newlines; the words of what it returns are the words of the text, in
    order; and each line holds at least one and at most [word_limit]
    of them. *)
Theorem wrap_context_keeps_words (text : string) (word_limit : nat)
    (Hwords : SentenceSpec.blank text = false)
    (Hlimit : 0 < word_limit) :
  let lines := map (PyStr.join " ") (WordsSpec.chunks word_limit (Words.split text)) in
  Dashboard.wrap_context text word_limit = Some (PyStr.join Alignment.newline lines)
  /\ Words.split (PyStr.join Alignment.newline lines) = Words.split text
  /\ concat (map Words.split lines) = Words.split text
  /\ Forall (fun l => 0 < length (Words.split l) <= word_limit) lines.
Proof.
  cbv zeta.
  assert (Hne : Words.split text <> []).
  { intros H. apply WordsFacts.split_blank in H. congruence. }
  pose proof (WordsFacts.split_words text) as Hw.
  destruct (WordsFacts.chunks_partition word_limit Hlimit _ (Words.split text) (le_n _))
    as [Hcat Hlen].
  pose proof (WordsFacts.Forall_sublist_chunks word_limit _ Hlimit Hw) as Hch.
  split; [|split; [|split]].
  - unfold Dashboard.wrap_context. destruct (Words.split text); [done|].
    destruct word_limit; [lia|]. unfold WordsSpec.chunks. by rewrite map_map.
  - rewrite WordsFacts.split_join_lines by done. exact Hcat.
  - rewrite <- Hcat at 2. f_equal. rewrite map_map.
    clear Hcat Hlen. induction Hch as [|l ls [_ Hl] Hls IH]; [done|].
    simpl. rewrite IH. f_equal. by apply WordsFacts.split_join.
  - apply Forall_map. clear Hcat.
    induction Hch as [|l ls [Hl1 Hl2] Hls IH]; [constructor|].
    apply Forall_cons in Hlen as [[_ Hlen] Hrest].
    constructor; [|by apply IH].
    simpl. rewrite (WordsFacts.split_join " ") by done.
    split; [|done]. destruct l; [done|simpl; lia].
Qed.

Lemma wrap_context_keeps_words_witness :
  SentenceSpec.blank " Digest  of Education Statistics " = false
  /\ 0 < 3
  /\ Dashboard.wrap_context " Digest  of Education Statistics " 3
     = Some (PyStr.join Alignment.newline ["Digest of Education"; "Statistics"])
  /\ Words.split (PyStr.join Alignment.newline ["Digest of Education"; "Statistics"])
     = ["Digest"; "of"; "Education"; "Statistics"].
Proof.
  pose proof (wrap_context_keeps_words " Digest  of Education Statistics " 3
                eq_refl (Nat.lt_0_succ 2)) as (H1 & H2 & _).
  split; [reflexivity|]. split; [lia|]. split; [exact H1|exact H2].
Defined.

(** X3.  The context a fixer record shows is a prefix of the words of the
    text, with three dots glued to the last word shown, whether or not
    words were left out: for text with at least one word and a positive
    [word_limit] (12 by default), the words of the result are the first
    [word_limit] words of the text, the last of them followed by [...]. *)
Theorem fixer_context_is_word_prefix (text : string) (word_limit : nat)
    (Hwords : SentenceSpec.blank text = false)
    (Hlimit : 0 < word_limit) :
  exists (shown : list string) (last_shown : string),
    take word_limit (Words.split text) = shown ++ [last_shown]
    /\ Words.split (FixerContext.wrap_context text word_limit)
       = shown ++ [last_shown +:+ "..."]
    /\ length (Words.split (FixerContext.wrap_context text word_limit)) <= word_limit.
Proof.
  assert (Hne : Words.split text <> []).
  { intros H. apply WordsFacts.split_blank in H. congruence. }
  pose proof (WordsFacts.split_words text) as Hw.
  assert (Htake : take word_limit (Words.split text) <> []).
  { destruct (Words.split text); [done|]. destruct word_limit; [lia|done]. }
  destruct (exists_last Htake) as (shown & last_shown & E).
  exists shown, last_shown. split; [exact E|].
  assert (Hsplit : Words.split (FixerContext.wrap_context text word_limit)
                   = shown ++ [last_shown +:+ "..."]).
  { unfold FixerContext.wrap_context.
    destruct (Words.split text) as [|w ws] eqn:Es; [done|].
    rewrite E, WordsFacts.join_snoc.
    apply (WordsFacts.split_join " "); [done|].
    assert (Hall : Forall (fun w => WordsSpec.word w = true) (shown ++ [last_shown])).
    { rewrite <- E. by apply Forall_take. }
    apply Forall_app in Hall as [Ha Hb]. apply Forall_app. split; [done|].
    apply Forall_cons in Hb as [Hb _]. constructor; [|constructor].
    by apply WordsFacts.word_append. }
  split; [exact Hsplit|].
  rewrite Hsplit, length_app. simpl.
  apply (f_equal length) in E. rewrite length_take, length_app in E. simpl in E. lia.
Qed.

Lemma fixer_context_is_word_prefix_witness :
  SentenceSpec.blank "Digest of  Education Statistics" = false
  /\ 0 < 2
  /\ FixerContext.wrap_context "Digest of  Education Statistics" 2 = "Digest of..."
  /\ exists shown last_shown,
       Words.split (FixerContext.wrap_context "Digest of  Education Statistics" 2)
       = shown ++ [last_shown +:+ "..."].
Proof.
  pose proof (fixer_context_is_word_prefix "Digest of  Education Statistics" 2
                eq_refl (Nat.lt_0_succ 1)) as (shown & last_shown & _ & H & _).
  split; [reflexivity|]. split; [lia|]. split; [reflexivity|].
  exists shown, last_shown. exact H.
Defined.

(* ===================================================================== *)
(** ** What a pass of the fixer establishes *)
(* ===================================================================== *)

Module WalkInduction.

Import Fixer.

Section Induction.

(** [R] relates an element as the traversal reaches it with what the
    traversal leaves in its place; [I] relates the report before and
    after. *)
Variables (R : element -> element -> Prop) (I : report -> report -> Prop).

Hypothesis I_refl : forall st, I st st.
Hypothesis I_trans : forall a b c, I a b -> I b c -> I a c.
Hypothesis I_elem : forall e st, I st (snd (fix_elem e st)).
Hypothesis R_node :
  forall e st cs',
    Forall2 R (children (fst (fix_elem e st))) cs' ->
    R e (set_children cs' (fst (fix_elem e st))).

Lemma fix_children_rel (walk : element -> report -> option (element * report))
    (cs : list element) :
  (forall c st c' st', walk c st = Some (c', st') -> R c c' /\ I st st') ->
  forall st cs' st',
    fix_children walk cs st = Some (cs', st') -> Forall2 R cs cs' /\ I st st'.
Proof.
  intros Hwalk. induction cs as [|c cs IH]; intros st cs' st' H; simpl in H.
  - injection H as <- <-. split; [constructor|apply I_refl].
  - destruct (walk c st) as [[c1 st1]|] eqn:E1; [|discriminate]. simpl in H.
    destruct (fix_children walk cs st1) as [[cs1 st2]|] eqn:E2; [|discriminate].
    simpl in H. injection H as <- <-.
    destruct (Hwalk _ _ _ _ E1) as [Hr Hi].
    destruct (IH _ _ _ E2) as [Hrs His].
    split; [by constructor|by eapply I_trans].
Qed.

Lemma fix_walk_rel (fuel : nat) :
  forall e st e' st', fix_walk fuel e st = Some (e', st') -> R e e' /\ I st st'.
Proof.
  induction fuel as [|fuel IH]; intros e st e' st' H; [discriminate|].
  cbn [fix_walk] in H.
  pose proof (I_elem e st) as Hi. pose proof (R_node e st) as Hr.
  destruct (fix_elem e st) as [e1 st1]. cbn [fst snd] in Hi, Hr.
  destruct (fix_children (fix_walk fuel) (children e1) st1) as [[cs st2]|] eqn:E;
    [|discriminate].
  simpl in H. injection H as <- <-.
  destruct (fix_children_rel _ _ IH _ _ _ E) as [Hrs His].
  split; [by apply Hr|by eapply I_trans].
Qed.

End Induction.

End WalkInduction.

Module LockstepFacts.

Import Fixer WalkSpec.

(** The report grows by records of the loop, the counter by their
    number. *)
Definition grows (st st' : report) : Prop :=
  exists vs,
    printed st' = printed st ++ vs
    /\ violation_count st' = violation_count st + length vs
    /\ Forall (fun v => In (v_violation v) loop_descriptions) vs.

Lemma grows_refl (st : report) : grows st st.
Proof. exists []. rewrite app_nil_r. split; [done|]. split; [simpl; lia|constructor]. Qed.

Lemma grows_trans (a b c : report) : grows a b -> grows b c -> grows a c.
Proof.
  intros (v1 & P1 & C1 & F1) (v2 & P2 & C2 & F2). exists (v1 ++ v2).
  rewrite P2, P1, C2, C1, length_app, app_assoc.
  split; [done|]. split; [lia|by apply Forall_app].
Qed.

Lemma grows_flag (v : violation) (st : report) :
  In (v_violation v) loop_descriptions -> grows st (flag v st).
Proof.
  intros Hv. exists [v]. split; [done|]. split; [simpl; lia|]. by constructor.
Qed.

Lemma grows_publisher tg line ft e st : grows st (snd (publisher_rule tg line ft e st)).
Proof.
  unfold publisher_rule. destruct (_ && _); [|apply grows_refl].
  apply grows_flag. simpl. auto.
Qed.

Lemma grows_title tg line ft e st : grows st (snd (title_rule tg line ft e st)).
Proof.
  unfold title_rule. destruct (children e) as [|c [|c2 l]]; try apply grows_refl.
  destruct (_ && _); [|apply grows_refl]. apply grows_flag. simpl. auto.
Qed.

Lemma grows_hyphen tg line ft e st : grows st (snd (hyphen_rule tg line ft e st)).
Proof.
  unfold hyphen_rule. destruct (PyStr.truthy _); [|apply grows_refl].
  destruct (negb _); [|apply grows_refl]. apply grows_flag. simpl. auto.
Qed.

Lemma grows_fix_elem (e : element) (st : report) : grows st (snd (fix_elem e st)).
Proof.
  unfold fix_elem. cbv zeta.
  pose proof (grows_publisher (tag e) (line_of e) (full_text_of e) e st) as H1.
  destruct (publisher_rule _ _ _ e st) as [e1 st1]. cbn [snd] in H1.
  pose proof (grows_title (tag e) (line_of e) (full_text_of e) e1 st1) as H2.
  destruct (title_rule _ _ _ e1 st1) as [e2 st2]. cbn [snd] in H2.
  eapply grows_trans; [exact H1|]. eapply grows_trans; [exact H2|].
  apply grows_hyphen.
Qed.

Lemma grows_fix_walk (fuel : nat) (e e' : element) (st st' : report) :
  fix_walk fuel e st = Some (e', st') -> grows st st'.
Proof.
  intros H.
  apply (WalkInduction.fix_walk_rel (fun _ _ => True) grows
           grows_refl grows_trans grows_fix_elem (fun _ _ _ _ => Logic.I)) in H.
  apply H.
Qed.

(** The front-matter check prints nothing, or the record of the
    inserted NCES id. *)
Lemma front_matter_report (root : element) (st : report) :
  snd (front_matter root st) = st
  \/ snd (front_matter root st) = flag missing_nces_id st.
Proof.
  unfold front_matter. destruct (front_matter_target root); [|by left].
  destruct (at_path _ _); [|by left]. destruct (negb _); [by right|by left].
Qed.

End LockstepFacts.

(** X4.  Counter and records of the fixer stay in step.  A pass over any
    document ends, and its final [violation_count] is the number of
    records printed.  The records are those of the front-matter check,
    none or the one of the inserted NCES id, followed by those of the
    loop, each of which carries one of its three fix descriptions. *)
Theorem fixer_counter_in_step (root : element) :
  exists (tree : element) (st : report) (front loop : list violation),
    Fixer.fix_tree root = Some (tree, st)
    /\ violation_count st = length (printed st)
    /\ printed st = front ++ loop
    /\ (front = [] \/ front = [Fixer.missing_nces_id])
    /\ Forall (fun v => In (v_violation v) WalkSpec.loop_descriptions) loop.
Proof.
  destruct (WalkFacts.fix_tree_total root) as [[tree st] H].
  unfold Fixer.fix_tree in H.
  pose proof (LockstepFacts.front_matter_report root no_report) as Hfront.
  destruct (Fixer.front_matter root no_report) as [root1 st1] eqn:Ef.
  cbn [snd] in Hfront.
  pose proof H as (loop & P & C & F)%LockstepFacts.grows_fix_walk.
  exists tree, st, (printed st1), loop.
  split; [unfold Fixer.fix_tree; by rewrite Ef|].
  split; [|split; [exact P|split; [|exact F]]].
  - rewrite C, P, length_app. by destruct Hfront as [-> | ->].
  - destruct Hfront as [-> | ->]; auto.
Qed.


Module ShapeFacts.

Import Fixer WalkSpec FixerSpec FixElemFacts.

(** The tags of the children, on which the publisher rule and the
    title rule depend. *)
Definition kid_tags (e : element) : list string := map tag (children e).

Lemma has_child_tagged_tags (t : string) (e : element) :
  ET.has_child_tagged t e = existsb (fun x => String.eqb x t) (kid_tags e).
Proof.
  unfold ET.has_child_tagged, kid_tags.
  induction (children e) as [|c cs IH]; [done|]. simpl. by rewrite IH.
Qed.

Lemma single_bold_child_tags (e : element) :
  Audit.single_bold_child e
  = match kid_tags e with [x] => String.eqb x "bold" | _ => false end.
Proof.
  unfold Audit.single_bold_child, kid_tags. by destruct (children e) as [|c [|c2 l]].
Qed.

Lemma iter_eq (e : element) : ET.iter e = e :: flat_map ET.iter (children e).
Proof. by destruct e. Qed.

Lemma hyphen_rule_tag tg line ft e st :
  tag (fst (hyphen_rule tg line ft e st)) = tag e
  /\ attrib (fst (hyphen_rule tg line ft e st)) = attrib e.
Proof.
  unfold hyphen_rule. destruct (PyStr.truthy _); [|done]. by destruct (negb _).
Qed.

Lemma single_bold_child_inv (e : element) :
  Audit.single_bold_child e = true -> exists c, children e = [c] /\ tag c = "bold".
Proof.
  unfold Audit.single_bold_child. destruct (children e) as [|c [|c2 l]]; try discriminate.
  intros H%String.eqb_eq. by exists c.
Qed.

(** The element the loop body leaves: same tag and attributes; its
    children are none for a stripped title, the old ones and the new
    [publisher-loc] for a publisher without one, else the old ones. *)
Lemma fix_elem_shape (e : element) (st : report) :
  let e1 := fst (fix_elem e st) in
  tag e1 = tag e /\ attrib e1 = attrib e
  /\ children e1
     = if strips_bold e then []
       else if publisher_without_loc e then children e ++ [new_loc]
       else children e.
Proof.
  cbv zeta. destruct (strips_bold e) eqn:Es.
  - pose proof Es as [Htag Hb]%andb_prop.
    apply single_bold_child_inv in Hb as (c & Hkids & Hc).
    rewrite (fix_elem_title e c st Htag Hkids Hc).
    rewrite hyphen_rule_children.
    by destruct (hyphen_rule_tag (tag e) (line_of e) (full_text_of e)
                   (set_children [] (set_text (text c) e))
                   (flag (uniform_bold (tag e) (line_of e) (full_text_of e)) st))
      as [-> ->].
  - rewrite (fix_elem_plain e st Es). cbv zeta. unfold publisher_without_loc.
    destruct (_ && _).
    + rewrite hyphen_rule_children.
      by destruct (hyphen_rule_tag (tag e) (line_of e) (full_text_of e)
                     (set_children (children e ++ [new_loc]) e)
                     (flag (missing_publisher_loc (tag e) (line_of e) (full_text_of e)) st))
        as [-> ->].
    + rewrite hyphen_rule_children.
      by destruct (hyphen_rule_tag (tag e) (line_of e) (full_text_of e) e st) as [-> ->].
Qed.

Lemma strips_bold_not_publisher (e : element) :
  strips_bold e = true -> String.eqb (tag e) "publisher" = false.
Proof.
  intros [Htag _]%andb_prop. by destruct (in_title_tags _ Htag) as [-> | ->].
Qed.

Lemma publisher_not_title (e : element) :
  String.eqb (tag e) "publisher" = true ->
  Audit.in_tags (tag e) ["title"; "article-title"; "book-title"] = false.
Proof. by intros ->%String.eqb_eq. Qed.

Lemma Forall2_tags (R : element -> element -> Prop) (cs cs' : list element) :
  (forall c c', R c c' -> tag c' = tag c) ->
  Forall2 R cs cs' -> map tag cs' = map tag cs.
Proof.
  intros HR. induction 1 as [|c c' cs cs' Hc Hcs IH]; [done|].
  simpl. by rewrite IH, (HR _ _ Hc).
Qed.

End ShapeFacts.

Module RepairFacts.

Import Fixer WalkSpec FixerSpec FixElemFacts ShapeFacts.

(** An element neither the publisher rule nor the title rule would
    change. *)
Definition repaired (e : element) : Prop :=
  publisher_without_loc e = false /\ strips_bold e = false.

Lemma repaired_ext (a b : element) :
  tag a = tag b -> kid_tags a = kid_tags b -> repaired b -> repaired a.
Proof.
  unfold repaired, publisher_without_loc, strips_bold.
  rewrite !has_child_tagged_tags, !single_bold_child_tags.
  by intros -> ->.
Qed.

Lemma fix_elem_repaired (e : element) (st : report) : repaired (fst (fix_elem e st)).
Proof.
  destruct (fix_elem_shape e st) as (Htag & _ & Hkids).
  unfold repaired, publisher_without_loc, strips_bold.
  rewrite has_child_tagged_tags, single_bold_child_tags. unfold kid_tags.
  rewrite Htag, Hkids.
  destruct (strips_bold e) eqn:Es.
  - rewrite strips_bold_not_publisher by done. simpl. by rewrite andb_false_r.
  - destruct (publisher_without_loc e) eqn:Ep.
    + pose proof Ep as [Ht _]%andb_prop. apply String.eqb_eq in Ht. rewrite Ht.
      rewrite map_app, existsb_app. simpl. by rewrite orb_true_r.
    + unfold publisher_without_loc, strips_bold in Ep, Es.
      rewrite has_child_tagged_tags in Ep. rewrite single_bold_child_tags in Es.
      done.
Qed.

Definition repaired_tree (e e' : element) : Prop :=
  tag e' = tag e /\ Forall repaired (ET.iter e').

Lemma repaired_node (e : element) (st : report) (cs' : list element) :
  Forall2 repaired_tree (children (fst (fix_elem e st))) cs' ->
  repaired_tree e (set_children cs' (fst (fix_elem e st))).
Proof.
  intros Hkids. destruct (fix_elem_shape e st) as (Htag & _ & _).
  split; [exact Htag|].
  rewrite iter_eq. constructor.
  - apply (repaired_ext _ (fst (fix_elem e st))); [done| |apply fix_elem_repaired].
    unfold kid_tags. simpl.
    apply (Forall2_tags repaired_tree); [by intros c c' [H _]|done].
  - simpl. clear -Hkids. induction Hkids as [|c c' cs cs' [_ Hc] _ IH]; [constructor|].
    simpl. by apply Forall_app.
Qed.

Lemma fix_walk_repaired (fuel : nat) (e e' : element) (st st' : report) :
  fix_walk fuel e st = Some (e', st') -> Forall repaired (ET.iter e').
Proof.
  intros H.
  apply (WalkInduction.fix_walk_rel repaired_tree (fun _ _ => True)
           (fun _ => Logic.I) (fun _ _ _ _ _ => Logic.I) (fun _ _ => Logic.I)
           repaired_node) in H.
  apply H.
Qed.

End RepairFacts.

(** X5.  What a pass of the fixer establishes.  In the tree it leaves,
    every [publisher] has a [publisher-loc] child and no [title] or
    [article-title] has a [bold] element as its only child; so the
    auditor, run on that tree in BITS mode, prints no
    [Missing <publisher-loc>] record. *)
Theorem fixer_repairs_publishers_and_titles (root : element) :
  exists (tree : element) (st : report),
    Fixer.fix_tree root = Some (tree, st)
    /\ Forall (fun e => WalkSpec.publisher_without_loc e = false
                        /\ FixerSpec.strips_bold e = false)
         (ET.iter tree)
    /\ count (AuditSpec.describes "Missing <publisher-loc>")
         (printed (Audit.run_aem_audit true tree)) = 0.
Proof.
  destruct (WalkFacts.fix_tree_total root) as [[tree st] H].
  exists tree, st. split; [exact H|].
  unfold Fixer.fix_tree in H.
  destruct (Fixer.front_matter root no_report) as [root1 st1].
  apply RepairFacts.fix_walk_repaired in H.
  split; [exact H|].
  rewrite AuditFacts.run_aem_audit_printed.
  rewrite (count_flat_map _ (AuditSpec.lacks_publisher_loc true)).
  - apply count_none. intros e He.
    rewrite Forall_forall in H. apply list_elem_of_In, H in He as [Hp _].
    exact Hp.
  - intros e. apply AuditRules.emitted_structural.
Qed.


Module AuditCountFacts.

Import Fixer WalkSpec FixerSpec FixElemFacts ShapeFacts Audit AuditSpec AuditFacts.

(** The number of records the auditor prints for one element, and for
    the elements of a tree. *)
Definition records (is_bits : bool) (e : element) : nat := length (emitted is_bits e).

Definition tree_records (is_bits : bool) (e : element) : nat :=
  length (flat_map (emitted is_bits) (ET.iter e)).

Definition forest_records (is_bits : bool) (cs : list element) : nat :=
  length (flat_map (emitted is_bits) (flat_map ET.iter cs)).

Lemma length_flat_map_if {X Y : Type} (c : X -> bool) (f : X -> Y) (l : list X) :
  length (flat_map (fun x => if c x then [f x] else []) l) = count c l.
Proof.
  unfold count. induction l as [|x l IH]; [done|].
  simpl. rewrite length_app, IH. by destruct (c x).
Qed.

Definition b2n (b : bool) : nat := if b then 1 else 0.

Lemma records_eq (is_bits : bool) (e : element) :
  records is_bits e
  = match aem_rules !! tag e with
    | Some (required_attrs, _) => count (fun attr => lacks attr e) required_attrs
    | None => 0
    end
    + b2n (lacks_publisher_loc is_bits e)
    + b2n (uniformly_bold_title e)
    + b2n (formula_without_id e).
Proof.
  unfold records. rewrite emitted_eq, length_app.
  unfold attribute_records, structural_records. rewrite !length_app.
  destruct (aem_rules !! tag e) as [[req spec]|].
  - rewrite length_flat_map_if.
    destruct (lacks_publisher_loc is_bits e), (uniformly_bold_title e),
      (formula_without_id e); simpl; lia.
  - destruct (lacks_publisher_loc is_bits e), (uniformly_bold_title e),
      (formula_without_id e); simpl; lia.
Qed.

(** The records of an element depend on its tag, its attributes and
    the tags of its children only. *)
Lemma records_ext (is_bits : bool) (a b : element) :
  tag a = tag b -> attrib a = attrib b -> kid_tags a = kid_tags b ->
  records is_bits a = records is_bits b.
Proof.
  intros Ht Ha Hk. rewrite !records_eq.
  unfold lacks_publisher_loc, uniformly_bold_title, formula_without_id, lacks.
  rewrite !has_child_tagged_tags, !single_bold_child_tags, Ht, Ha, Hk.
  by destruct (aem_rules !! tag b) as [[req spec]|].
Qed.

Lemma tree_records_eq (is_bits : bool) (e : element) :
  tree_records is_bits e = records is_bits e + forest_records is_bits (children e).
Proof.
  unfold tree_records, forest_records, records. rewrite iter_eq. simpl.
  by rewrite length_app.
Qed.

Lemma forest_records_cons (is_bits : bool) (c : element) (cs : list element) :
  forest_records is_bits (c :: cs) = tree_records is_bits c + forest_records is_bits cs.
Proof.
  unfold forest_records, tree_records. simpl. by rewrite flat_map_app, length_app.
Qed.

Lemma forest_records_app (is_bits : bool) (cs1 cs2 : list element) :
  forest_records is_bits (cs1 ++ cs2)
  = forest_records is_bits cs1 + forest_records is_bits cs2.
Proof.
  induction cs1 as [|c cs1 IH]; [done|].
  change ((c :: cs1) ++ cs2) with (c :: (cs1 ++ cs2)).
  rewrite !forest_records_cons, IH. lia.
Qed.

Lemma new_loc_records (is_bits : bool) : tree_records is_bits new_loc = 0.
Proof. by destruct is_bits. Qed.

Lemma new_id_records (is_bits : bool) : tree_records is_bits new_id = 0.
Proof. by destruct is_bits. Qed.

(** The loop body never makes an element fail a rule of the auditor. *)
Lemma fix_elem_records (is_bits : bool) (e : element) (st : report) :
  records is_bits (fst (fix_elem e st)) <= records is_bits e.
Proof.
  destruct (fix_elem_shape e st) as (Htag & Hattr & Hkids).
  rewrite !records_eq.
  unfold lacks_publisher_loc, uniformly_bold_title, formula_without_id, lacks.
  rewrite !has_child_tagged_tags, !single_bold_child_tags. unfold kid_tags.
  rewrite Htag, Hattr, Hkids.
  destruct (aem_rules !! tag e) as [[req spec]|];
    (destruct (strips_bold e) eqn:Es;
     [ rewrite strips_bold_not_publisher by done; rewrite andb_false_r;
       simpl; rewrite andb_false_r; simpl; lia
     | destruct (publisher_without_loc e) eqn:Ep;
       [ pose proof Ep as [Ht _]%andb_prop;
         rewrite (publisher_not_title e Ht), map_app, existsb_app; simpl;
         rewrite orb_true_r, andb_false_r; simpl; lia
       | lia ] ]).
Qed.

Definition not_worse (is_bits : bool) (e e' : element) : Prop :=
  tag e' = tag e /\ attrib e' = attrib e
  /\ tree_records is_bits e' <= tree_records is_bits e.

Lemma Forall2_forest (is_bits : bool) (cs cs' : list element) :
  Forall2 (not_worse is_bits) cs cs' ->
  forest_records is_bits cs' <= forest_records is_bits cs.
Proof.
  induction 1 as [|c c' cs cs' (_ & _ & Hc) _ IH]; [done|].
  rewrite !forest_records_cons. lia.
Qed.

Lemma not_worse_node (is_bits : bool) (e : element) (st : report) (cs' : list element) :
  Forall2 (not_worse is_bits) (children (fst (fix_elem e st))) cs' ->
  not_worse is_bits e (set_children cs' (fst (fix_elem e st))).
Proof.
  intros Hkids. destruct (fix_elem_shape e st) as (Htag & Hattr & Hshape).
  split; [exact Htag|]. split; [exact Hattr|].
  rewrite !tree_records_eq. simpl children.
  rewrite (records_ext is_bits _ (fst (fix_elem e st))); [|done|done|].
  2:{ unfold kid_tags. simpl.
      apply (Forall2_tags (not_worse is_bits)); [by intros c c' [H _]|done]. }
  pose proof (fix_elem_records is_bits e st) as Hrec.
  pose proof (Forall2_forest _ _ _ Hkids) as Hforest.
  assert (Hold : forest_records is_bits (children (fst (fix_elem e st)))
                 <= forest_records is_bits (children e)).
  { rewrite Hshape. destruct (strips_bold e); [unfold forest_records; simpl; lia|].
    destruct (publisher_without_loc e); [|lia].
    rewrite forest_records_app, forest_records_cons, new_loc_records.
    unfold forest_records at 2. simpl. lia. }
  lia.
Qed.

Lemma fix_walk_not_worse (is_bits : bool) (fuel : nat) (e e' : element) (st st' : report) :
  fix_walk fuel e st = Some (e', st') -> tree_records is_bits e' <= tree_records is_bits e.
Proof.
  intros H.
  apply (WalkInduction.fix_walk_rel (not_worse is_bits) (fun _ _ => True)
           (fun _ => Logic.I) (fun _ _ _ _ _ => Logic.I) (fun _ _ => Logic.I)
           (not_worse_node is_bits)) in H.
  apply H.
Qed.

Lemma forest_records_insert (is_bits : bool) (cs : list element) (i : nat)
    (c c' : element) :
  cs !! i = Some c -> tree_records is_bits c' <= tree_records is_bits c ->
  forest_records is_bits (<[ i := c' ]> cs) <= forest_records is_bits cs.
Proof.
  revert i. induction cs as [|x cs IH]; intros [|i] Hi Hc; try discriminate.
  - injection Hi as ->. simpl. rewrite !forest_records_cons. lia.
  - simpl. rewrite !forest_records_cons. specialize (IH i Hi Hc). lia.
Qed.

Lemma map_tag_insert (cs : list element) (i : nat) (c c' : element) :
  cs !! i = Some c -> tag c' = tag c -> map tag (<[ i := c' ]> cs) = map tag cs.
Proof.
  revert i. induction cs as [|x cs IH]; intros [|i] Hi Hc; try discriminate.
  - injection Hi as ->. simpl. by rewrite Hc.
  - simpl. by rewrite (IH i).
Qed.

(** A mutation that keeps tag and attributes of its target and does
    not add records there adds none in the tree. *)
Lemma update_at_not_worse (is_bits : bool) (f : element -> element) (p : path) :
  forall e x,
    at_path p e = Some x ->
    not_worse is_bits x (f x) ->
    not_worse is_bits e (update_at p f e).
Proof.
  induction p as [|i p IH]; intros e x Hat Hf.
  - simpl in *. by injection Hat as ->.
  - simpl in *. destruct (children e !! i) as [c|] eqn:Ec; [|done].
    destruct (IH c x Hat Hf) as (Ht & Ha & Hle).
    split; [done|]. split; [done|].
    rewrite !tree_records_eq. simpl children.
    rewrite (records_ext is_bits _ e); [|done|done|].
    2:{ unfold kid_tags. simpl. by eapply map_tag_insert. }
    pose proof (forest_records_insert is_bits _ _ _ _ Ec Hle). lia.
Qed.

Lemma insert_new_id_not_worse (is_bits : bool) (x : element) :
  tag x = "article-meta" \/ tag x = "book-meta" ->
  not_worse is_bits x (insert_first new_id x).
Proof.
  intros Htag. split; [done|]. split; [done|].
  rewrite !tree_records_eq. simpl children.
  rewrite forest_records_cons, new_id_records.
  assert (E : records is_bits (insert_first new_id x) = records is_bits x).
  { rewrite !records_eq.
    unfold lacks_publisher_loc, uniformly_bold_title, formula_without_id, lacks.
    simpl tag. simpl attrib.
    destruct Htag as [-> | ->]; simpl; by rewrite !andb_false_r. }
  lia.
Qed.

Lemma front_matter_target_tag (root : element) (p : path) (x : element) :
  front_matter_target root = Some p -> at_path p root = Some x ->
  tag x = "article-meta" \/ tag x = "book-meta".
Proof.
  unfold front_matter_target, find_or. intros Hp Hx.
  destruct (find_desc "article-meta" root) as [q|] eqn:Eq.
  - destruct (at_path q root) as [y|] eqn:Ey.
    + destruct (ET.truth y).
      * injection Hp as <-. destruct (FindFacts.find_desc_tag _ _ _ Eq) as (z & Hz & Ht).
        left. congruence.
      * destruct (FindFacts.find_desc_tag _ _ _ Hp) as (z & Hz & Ht). right. congruence.
    + destruct (FindFacts.find_desc_tag _ _ _ Hp) as (z & Hz & Ht). right. congruence.
  - destruct (FindFacts.find_desc_tag _ _ _ Hp) as (z & Hz & Ht). right. congruence.
Qed.

Lemma front_matter_not_worse (is_bits : bool) (root : element) (st : report) :
  tree_records is_bits (fst (front_matter root st)) <= tree_records is_bits root.
Proof.
  unfold front_matter.
  destruct (front_matter_target root) as [p|] eqn:Ep; [|done].
  destruct (at_path p root) as [x|] eqn:Ex; [|done].
  destruct (negb _); [|done]. simpl.
  apply (update_at_not_worse is_bits (insert_first new_id) p root x Ex).
  apply insert_new_id_not_worse. by eapply front_matter_target_tag.
Qed.

End AuditCountFacts.

(** X6.  The fixer never makes a document worse for the auditor.  In
    either DTD mode, the auditor counts at most as many violations on
    the tree a pass of the fixer leaves as on the document the pass
    started from. *)
Theorem fixer_adds_no_audit_violation (is_bits : bool) (root : element) :
  exists (tree : element) (st : report),
    Fixer.fix_tree root = Some (tree, st)
    /\ violation_count (Audit.run_aem_audit is_bits tree)
       <= violation_count (Audit.run_aem_audit is_bits root).
Proof.
  destruct (WalkFacts.fix_tree_total root) as [[tree st] H].
  exists tree, st. split; [exact H|].
  rewrite !AuditFacts.run_aem_audit_count, !AuditFacts.run_aem_audit_printed.
  change (AuditCountFacts.tree_records is_bits tree
          <= AuditCountFacts.tree_records is_bits root).
  unfold Fixer.fix_tree in H.
  pose proof (AuditCountFacts.front_matter_not_worse is_bits root no_report) as Hfront.
  destruct (Fixer.front_matter root no_report) as [root1 st1]. cbn [fst] in Hfront.
  apply (AuditCountFacts.fix_walk_not_worse is_bits) in H. lia.
Qed.

(* ===================================================================== *)
(** ** A title in a document *)
(* ===================================================================== *)

Module TitleFacts.

Import Fixer FixerSpec TitleSpec.





Section Title.

Variables (title bold : element).
Hypothesis Htag : Audit.in_tags (tag title) ["title"; "article-title"] = true.
Hypothesis Hkids : children title = [bold].
Hypothesis Hbold : tag bold = "bold".
Hypothesis Htext : text bold = Some "Chapter One".






End Title.




End TitleFacts.



(* ===================================================================== *)
(** ** When the soft-hyphen rule fires, and a pass without fixes *)
(* ===================================================================== *)

Module ArtifactFacts.

Import SoftHyphen SoftHyphenFacts FixerSpec.

Lemma has_artifact_cons (c : ascii) (s : string) :
  has_artifact (String c s)
  = bool_decide (is_Some (match_here (String c s))) || has_artifact s.
Proof. reflexivity. Qed.

(** The substitution shortens a text with an artifact by two characters
    or more, and leaves a text without one as it is. *)
Lemma sub_artifact (n : nat) :
  forall s, String.length s <= n ->
    String.length (sub s) <= String.length s
    /\ (has_artifact s = true -> String.length (sub s) + 2 <= String.length s)
    /\ (has_artifact s = false -> sub s = s).
Proof.
  induction n as [|n IH]; intros s Hn.
  { destruct s; [done|simpl in Hn; lia]. }
  destruct s as [|c s]; [done|].
  rewrite sub_cons, has_artifact_cons.
  destruct (match_here (String c s)) as [[[a b] rest]|] eqn:E.
  - pose proof (match_here_length _ _ _ _ E) as Hlen.
    destruct (IH rest) as (H1 & _ & _); [simpl in *; lia|].
    simpl in *. repeat split; try lia; try done.
  - destruct (IH s) as (H1 & H2 & H3); [simpl in *; lia|].
    simpl in *. repeat split; try lia.
    + intros H. specialize (H2 H). lia.
    + intros H. by rewrite (H3 H).
Qed.

Lemma sub_changes_iff (s : string) : sub s <> s <-> has_artifact s = true.
Proof.
  destruct (sub_artifact _ s (le_n _)) as (_ & H2 & H3).
  destruct (has_artifact s).
  - split; [done|]. intros _ E. specialize (H2 eq_refl). rewrite E in H2. lia.
  - split; [|done]. intros H. by destruct (H (H3 eq_refl)).
Qed.

End ArtifactFacts.

(** X7.  When the soft-hyphen rule fires.  For an element with text,
    the rule replaces the text and counts a fix exactly when somewhere
    in the text a hyphen followed by whitespace stands between two word
    characters; the new text is then shorter by two characters or more.
    Otherwise the substitution returns the text as it is, and element
    and report are left alone. *)
Theorem soft_hyphen_rule_fires_iff (elem : element) (st : report) (t : string)
    (Htext : text elem = Some t) :
  let result :=
    Fixer.hyphen_rule (tag elem) (line_of elem) (full_text_of elem) elem st in
  (FixerSpec.has_artifact t = true ->
     result = (Fixer.set_text (Some (SoftHyphen.sub t)) elem,
               flag (Fixer.soft_hyphen (tag elem) (line_of elem) (full_text_of elem)) st)
     /\ String.length (SoftHyphen.sub t) + 2 <= String.length t)
  /\ (FixerSpec.has_artifact t = false -> SoftHyphen.sub t = t /\ result = (elem, st)).
Proof.
  cbv zeta. destruct (ArtifactFacts.sub_artifact _ t (le_n _)) as (_ & H2 & H3).
  split.
  - intros H. split; [|by apply H2].
    apply HyphenRuleFacts.hyphen_rule_changed; [done|].
    by apply ArtifactFacts.sub_changes_iff.
  - intros H. split; [by apply H3|].
    apply (HyphenRuleFacts.hyphen_rule_unchanged _ _ _ _ _ t); [done|by apply H3].
Qed.

Lemma soft_hyphen_rule_fires_iff_witness :
  text FixerSpec.exam_ple = Some "exam- ple"
  /\ FixerSpec.has_artifact "exam- ple" = true
  /\ Fixer.hyphen_rule "p" (LineNumber 7) "exam- ple" FixerSpec.exam_ple no_report
     = (Element "p" ∅ (Some "example") None (Some 7) [],
        Report 1 [Fixer.soft_hyphen "p" (LineNumber 7) "exam- ple"]).
Proof.
  pose proof (soft_hyphen_rule_fires_iff FixerSpec.exam_ple no_report "exam- ple" eq_refl)
    as [H _].
  assert (Ha : FixerSpec.has_artifact "exam- ple" = true) by reflexivity.
  destruct (H Ha) as [Hr _].
  split; [reflexivity|]. split; [exact Ha|]. exact Hr.
Defined.

Module UntouchedFacts.

Import Fixer.

(** The report only grows, and a step that does not count leaves its
    element as it was. *)
Definition counted (e : element) (st : report) (e' : element) (st' : report) : Prop :=
  violation_count st <= violation_count st'
  /\ (violation_count st' = violation_count st -> e' = e).

Lemma counted_publisher tg line ft e st :
  counted e st (fst (publisher_rule tg line ft e st)) (snd (publisher_rule tg line ft e st)).
Proof.
  unfold publisher_rule, counted. destruct (_ && _); simpl; split; try done; lia.
Qed.

Lemma counted_title tg line ft e st :
  counted e st (fst (title_rule tg line ft e st)) (snd (title_rule tg line ft e st)).
Proof.
  unfold title_rule, counted. destruct (children e) as [|c [|c2 l]]; try done.
  destruct (_ && _); simpl; split; try done; lia.
Qed.

Lemma counted_hyphen tg line ft e st :
  counted e st (fst (hyphen_rule tg line ft e st)) (snd (hyphen_rule tg line ft e st)).
Proof.
  unfold hyphen_rule, counted. destruct (PyStr.truthy _); [|done].
  destruct (negb _); simpl; split; try done; lia.
Qed.

Lemma counted_fix_elem (e : element) (st : report) :
  counted e st (fst (fix_elem e st)) (snd (fix_elem e st)).
Proof.
  unfold fix_elem. cbv zeta.
  pose proof (counted_publisher (tag e) (line_of e) (full_text_of e) e st) as [A1 A2].
  destruct (publisher_rule _ _ _ e st) as [e1 st1]. cbn [fst snd] in *.
  pose proof (counted_title (tag e) (line_of e) (full_text_of e) e1 st1) as [B1 B2].
  destruct (title_rule _ _ _ e1 st1) as [e2 st2]. cbn [fst snd] in *.
  pose proof (counted_hyphen (tag e) (line_of e) (full_text_of e) e2 st2) as [C1 C2].
  split; [lia|]. intros H.
  rewrite C2 by lia. rewrite B2 by lia. apply A2. lia.
Qed.

Lemma counted_children (walk : element -> report -> option (element * report))
    (cs : list element) :
  (forall c st c' st', walk c st = Some (c', st') -> counted c st c' st') ->
  forall st cs' st',
    fix_children walk cs st = Some (cs', st') ->
    violation_count st <= violation_count st'
    /\ (violation_count st' = violation_count st -> cs' = cs).
Proof.
  intros Hwalk. induction cs as [|c cs IH]; intros st cs' st' H; simpl in H.
  - by injection H as <- <-.
  - destruct (walk c st) as [[c1 st1]|] eqn:E1; [|discriminate]. simpl in H.
    destruct (fix_children walk cs st1) as [[cs1 st2]|] eqn:E2; [|discriminate].
    simpl in H. injection H as <- <-.
    destruct (Hwalk _ _ _ _ E1) as [A1 A2]. destruct (IH _ _ _ E2) as [B1 B2].
    split; [lia|]. intros H. rewrite A2, B2 by lia. reflexivity.
Qed.

Lemma set_children_same (e : element) : set_children (children e) e = e.
Proof. by destruct e. Qed.

Lemma counted_fix_walk (fuel : nat) :
  forall e st e' st', fix_walk fuel e st = Some (e', st') -> counted e st e' st'.
Proof.
  induction fuel as [|fuel IH]; intros e st e' st' H; [discriminate|].
  cbn [fix_walk] in H.
  pose proof (counted_fix_elem e st) as [A1 A2].
  destruct (fix_elem e st) as [e1 st1]. cbn [fst snd] in *.
  destruct (fix_children (fix_walk fuel) (children e1) st1) as [[cs st2]|] eqn:E;
    [|discriminate].
  simpl in H. injection H as <- <-.
  destruct (counted_children _ _ IH _ _ _ E) as [B1 B2].
  split; [lia|]. intros H. rewrite B2 by lia.
  rewrite set_children_same. apply A2. lia.
Qed.

Lemma counted_front_matter (root : element) (st : report) :
  counted root st (fst (front_matter root st)) (snd (front_matter root st)).
Proof.
  unfold front_matter, counted. destruct (front_matter_target root); [|done].
  destruct (at_path _ _); [|done]. destruct (negb _); simpl; split; try done; lia.
Qed.

End UntouchedFacts.

(** X8.  A pass that counts no fix has changed nothing.  The counter
    never goes down, and when a pass of the fixer ends with
    [violation_count] zero, the tree it leaves is the document as it
    was parsed, and no record was printed. *)
Theorem no_fix_no_change (root : element) :
  exists (tree : element) (st : report),
    Fixer.fix_tree root = Some (tree, st)
    /\ (violation_count st = 0 -> tree = root /\ printed st = []).
Proof.
  destruct (WalkFacts.fix_tree_total root) as [[tree st] H].
  exists tree, st. split; [exact H|]. intros Hzero.
  unfold Fixer.fix_tree in H.
  pose proof (UntouchedFacts.counted_front_matter root no_report) as [A1 A2].
  pose proof (LockstepFacts.front_matter_report root no_report) as Hfront.
  destruct (Fixer.front_matter root no_report) as [root1 st1]. cbn [fst snd] in *.
  pose proof (UntouchedFacts.counted_fix_walk _ _ _ _ _ H) as [B1 B2].
  apply LockstepFacts.grows_fix_walk in H as (loop & P & C & _).
  assert (E1 : violation_count st1 = 0) by lia.
  split.
  - rewrite B2 by lia. apply A2. simpl. lia.
  - rewrite P. destruct Hfront as [-> | ->]; [|discriminate E1].
    destruct loop; [done|]. simpl in C. lia.
Qed.

(* ===================================================================== *)
(** ** The front-matter check, twice *)
(* ===================================================================== *)

Module SameTargetFacts.

Import Fixer FindFacts.

Lemma at_path_update_at (f : element -> element) (p : path) :
  forall e x, at_path p e = Some x -> at_path p (update_at p f e) = Some (f x).
Proof.
  induction p as [|i p IH]; intros e x Hat; simpl in *.
  - by injection Hat as ->.
  - destruct (children e !! i) as [c|] eqn:Ec; [|discriminate].
    simpl. rewrite list_lookup_insert_eq by (by eapply lookup_lt_Some).
    by apply IH.
Qed.

Section SameTarget.

(** [t] is the tag looked for; [x] is the element inserted. *)
Variables (t : string) (x : element).

(** The children of [e] after the mutation at the path [q]. *)
Definition updated_children (q : path) (cs : list element) : list element :=
  match q with
  | i :: q' =>
      match cs !! i with
      | Some c => <[ i := update_at q' (insert_first x) c ]> cs
      | None => cs
      end
  | [] => cs
  end.

Lemma updated_children_bump (q : path) (c : element) (cs : list element) :
  q <> [] -> updated_children (bump q) (c :: cs) = c :: updated_children q cs.
Proof.
  destruct q as [|i q]; [done|]. intros _. simpl.
  by destruct (cs !! i).
Qed.

Lemma scan_update_same (cs : list element) :
  Forall (fun c => forall q, find_desc t c = Some q ->
                             find_desc t (update_at q (insert_first x) c) = Some q) cs ->
  forall q, scan_children t 0 cs = Some q ->
            scan_children t 0 (updated_children q cs) = Some q.
Proof.
  induction 1 as [|c cs Hc Hcs IH]; intros q; [discriminate|].
  rewrite scan_cons.
  destruct (String.eqb (tag c) t) eqn:Ec.
  - intros [= <-].
    change (updated_children [0] (c :: cs)) with (insert_first x c :: cs).
    rewrite scan_cons. change (tag (insert_first x c)) with (tag c). by rewrite Ec.
  - destruct (find_desc t c) as [p|] eqn:Ef.
    + intros [= <-].
      change (updated_children (0 :: p) (c :: cs))
        with (update_at p (insert_first x) c :: cs).
      rewrite scan_cons, (InsertFacts.update_at_tag x), Ec. by rewrite (Hc p).
    + destruct (scan_children t 0 cs) as [q0|] eqn:Es; [|discriminate].
      intros [= <-].
      rewrite updated_children_bump by (by eapply scan_nonempty).
      rewrite scan_cons, Ec, Ef. by rewrite (IH q0).
Qed.

Lemma update_at_children (q : path) (e : element) :
  q <> [] ->
  children (update_at q (insert_first x) e) = updated_children q (children e).
Proof.
  destruct q as [|i q]; [done|]. intros _. simpl.
  by destruct (children e !! i).
Qed.

(** Inserting [x] into the first element tagged [t] leaves that
    element the first one tagged [t]. *)
Lemma find_desc_update_same (e : element) :
  forall q, find_desc t e = Some q ->
            find_desc t (update_at q (insert_first x) e) = Some q.
Proof.
  induction e as [tg a tx tl ln cs IH] using element_induction. intros q Hq.
  pose proof (find_desc_nonempty _ _ _ Hq) as Hne.
  rewrite find_desc_children in *. rewrite update_at_children by done.
  by apply scan_update_same.
Qed.

End SameTarget.

Lemma has_nces_id_insert (meta : element) : has_nces_id (insert_first new_id meta) = true.
Proof. reflexivity. Qed.

Lemma truth_insert (y meta : element) : ET.truth (insert_first y meta) = true.
Proof. reflexivity. Qed.

(** After the insertion the target of the check is the same element,
    which now holds the NCES id. *)
Lemma front_matter_target_update (root : element) (p : path) (meta : element) :
  front_matter_target root = Some p -> at_path p root = Some meta ->
  front_matter_target (update_at p (insert_first new_id) root) = Some p.
Proof.
  unfold front_matter_target, find_or. intros Hp Hmeta.
  assert (Hbook : find_desc "book-meta" root = Some p ->
                  find_desc "book-meta" (update_at p (insert_first new_id) root) = Some p).
  { intros H. by apply find_desc_update_same. }
  destruct (find_desc "article-meta" root) as [q|] eqn:Eq.
  - destruct (find_desc_tag _ _ _ Eq) as (y & Hy & Hty). rewrite Hy in Hp.
    destruct (ET.truth y) eqn:Et.
    + injection Hp as ->.
      rewrite (find_desc_update_same "article-meta" new_id root p Eq).
      rewrite (at_path_update_at _ _ _ _ Hmeta). by rewrite truth_insert.
    + assert (Hkids : children y = []).
      { unfold ET.truth in Et. by destruct (children y). }
      destruct (find_desc_tag _ _ _ Hp) as (z & Hz & Htz).
      assert (z = meta) as -> by congruence.
      destruct (InsertFacts.find_desc_update_some "article-meta" new_id eq_refl eq_refl
                  p y Hkids root meta q Hmeta) as (q' & Hq' & Hat'); [by rewrite Htz|done|done|].
      rewrite Hq', Hat', Et. by apply Hbook.
  - rewrite (InsertFacts.find_desc_update_none "article-meta" new_id eq_refl eq_refl p root Eq).
    by apply Hbook.
Qed.

End SameTargetFacts.

(** X9.  The front-matter check is idempotent.  Applied to the tree it
    has left, whatever the document, it inserts nothing and reports
    nothing: the element holding the NCES id is again its target. *)
Theorem front_matter_check_is_idempotent (root : element) (st st' : report) :
  Fixer.front_matter (fst (Fixer.front_matter root st)) st'
  = (fst (Fixer.front_matter root st), st')
  /\ (forall p, Fixer.front_matter_target root = Some p ->
                Fixer.front_matter_target (fst (Fixer.front_matter root st)) = Some p
                /\ exists meta,
                     Fixer.at_path p (fst (Fixer.front_matter root st)) = Some meta
                     /\ Fixer.has_nces_id meta = true).
Proof.
  assert (Hsame : forall r, Fixer.front_matter r st = (r, st) ->
                            Fixer.front_matter r st' = (r, st')).
  { intros r. unfold Fixer.front_matter.
    destruct (Fixer.front_matter_target r); [|done].
    destruct (Fixer.at_path _ _); [|done].
    destruct (negb _); [|done].
    intros [= _ H]. exfalso. clear -H.
    apply (f_equal violation_count) in H. simpl in H. lia. }
  destruct (Fixer.front_matter_target root) as [p|] eqn:Ep.
  2:{ split; [|done]. unfold Fixer.front_matter at 2 3. rewrite Ep. simpl.
      apply Hsame. unfold Fixer.front_matter. by rewrite Ep. }
  assert (exists meta, Fixer.at_path p root = Some meta) as [meta Hmeta].
  { unfold Fixer.front_matter_target, Fixer.find_or in Ep.
    destruct (Fixer.find_desc "article-meta" root) as [q|] eqn:Eq.
    - destruct (FindFacts.find_desc_tag _ _ _ Eq) as (y & Hy & _). rewrite Hy in Ep.
      destruct (ET.truth y); [injection Ep as <-; by exists y|].
      destruct (FindFacts.find_desc_tag _ _ _ Ep) as (z & Hz & _). by exists z.
    - destruct (FindFacts.find_desc_tag _ _ _ Ep) as (z & Hz & _). by exists z. }
  assert (E : fst (Fixer.front_matter root st)
              = if Fixer.has_nces_id meta then root
                else Fixer.update_at p (Fixer.insert_first Fixer.new_id) root).
  { unfold Fixer.front_matter. rewrite Ep, Hmeta. by destruct (Fixer.has_nces_id meta). }
  rewrite E. destruct (Fixer.has_nces_id meta) eqn:Hn.
  - split.
    + unfold Fixer.front_matter. by rewrite Ep, Hmeta, Hn.
    + intros p' [= <-]. split; [done|]. by exists meta.
  - pose proof (SameTargetFacts.front_matter_target_update root p meta Ep Hmeta) as Ht.
    pose proof (SameTargetFacts.at_path_update_at
                  (Fixer.insert_first Fixer.new_id) p root meta Hmeta) as Hat.
    split.
    + unfold Fixer.front_matter. rewrite Ht, Hat.
      by rewrite SameTargetFacts.has_nces_id_insert.
    + intros p' [= <-]. split; [done|]. eexists. split; [exact Hat|].
      apply SameTargetFacts.has_nces_id_insert.
Qed.

(* ===================================================================== *)
(** ** The name of the fixed copy *)
(* ===================================================================== *)

Module NameFacts.

Import Files CharFacts HyphenRuleFacts.

Lemma string_take_drop (n : nat) (s : string) : (PyStr.take n s ++ drop n s)%string = s.
Proof.
  revert s. induction n as [|n IH]; intros [|c s]; try reflexivity.
  simpl. by rewrite append_cons, IH.
Qed.

Lemma take_append (a b : string) : PyStr.take (String.length a) (a ++ b) = a.
Proof.
  induction a as [|c a IH]; [by destruct b|].
  rewrite append_cons. simpl. by rewrite IH.
Qed.

Lemma drop_append (a b : string) : drop (String.length a) (a ++ b) = b.
Proof.
  induction a as [|c a IH]; [by rewrite append_nil; destruct b|].
  rewrite append_cons. simpl. exact IH.
Qed.

Lemma rfind_dot_lt (s : string) (i : nat) : rfind_dot s = Some i -> i < String.length s.
Proof.
  revert i. induction s as [|c s IH]; intros i; [discriminate|]. simpl.
  destruct (rfind_dot s) as [j|].
  - intros [= <-]. specialize (IH j eq_refl). lia.
  - destruct (Ascii.eqb c "."); [|discriminate]. intros [= <-]. lia.
Qed.

(** From the last dot on, the last dot comes first. *)
Lemma rfind_dot_drop (s : string) (i : nat) :
  rfind_dot s = Some i -> rfind_dot (drop i s) = Some 0.
Proof.
  revert i. induction s as [|c s IH]; intros i; [discriminate|]. simpl.
  destruct (rfind_dot s) as [j|] eqn:Ej.
  - intros [= <-]. simpl. by apply IH.
  - destruct (Ascii.eqb c ".") eqn:Ec; [|discriminate]. intros [= <-].
    simpl. by rewrite Ej, Ec.
Qed.

Lemma rfind_dot_append (a b : string) (j : nat) :
  rfind_dot b = Some j -> rfind_dot (a ++ b) = Some (String.length a + j).
Proof.
  intros Hb. induction a as [|c a IH]; [by rewrite append_nil|].
  rewrite append_cons. simpl. by rewrite IH.
Qed.

Lemma split_index_le (nm : string) : split_index nm <= String.length nm.
Proof.
  unfold split_index. destruct (rfind_dot nm) as [i|] eqn:E; [|done].
  apply rfind_dot_lt in E. destruct (_ && _); lia.
Qed.

(** A name with an extension: the index of its last dot is the place
    where stem and suffix split, and the suffix has two characters or
    more. *)
Lemma split_index_suffix (nm : string) :
  drop (split_index nm) nm <> EmptyString ->
  rfind_dot nm = Some (split_index nm)
  /\ 0 < split_index nm /\ split_index nm + 1 < String.length nm.
Proof.
  unfold split_index. intros H.
  assert (Hend : drop (String.length nm) nm = EmptyString).
  { pose proof (FilesFacts.length_take_drop (String.length nm) nm) as Hl'.
    destruct (drop (String.length nm) nm) eqn:E; [done|].
    assert (String.length (PyStr.take (String.length nm) nm) = String.length nm).
    { clear. induction nm as [|c nm IH]; [done|]. simpl. by rewrite IH. }
    simpl in Hl'. lia. }
  destruct (rfind_dot nm) as [i|]; [|by rewrite Hend in H].
  destruct (0 <? i)%nat eqn:E1; [|cbn [andb] in H; by rewrite Hend in H].
  destruct (i + 1 <? String.length nm)%nat eqn:E2;
    [|cbn [andb] in H; by rewrite Hend in H].
  cbn [andb]. apply Nat.ltb_lt in E1, E2. done.
Qed.

End NameFacts.

(** X10.  The fixed copy keeps the extension of its source.  Stem and
    suffix always make up the name; when the source has an extension,
    the name of the copy is the stem, [_FIXED] and that extension, and
    the copy has the same extension, its stem being the old one followed
    by [_FIXED]. *)
Theorem fixed_copy_keeps_extension (original_path : Files.path)
    (Hext : Files.suffix original_path <> EmptyString) :
  Files.stem original_path +:+ Files.suffix original_path = Files.name original_path
  /\ Files.name (Files.new_path original_path)
     = Files.stem original_path +:+ "_FIXED" +:+ Files.suffix original_path
  /\ Files.suffix (Files.new_path original_path) = Files.suffix original_path
  /\ Files.stem (Files.new_path original_path) = Files.stem original_path +:+ "_FIXED".
Proof.
  split; [apply NameFacts.string_take_drop|]. split; [apply FilesFacts.name_new_path|].
  unfold Files.suffix, Files.stem in *. rewrite FilesFacts.name_new_path.
  unfold Files.suffix, Files.stem.
  set (nm := Files.name original_path) in *.
  destruct (NameFacts.split_index_suffix nm Hext) as (Hdot & Hpos & Hlen).
  set (i := Files.split_index nm) in *.
  set (st := PyStr.take i nm). set (sf := Files.drop i nm).
  assert (Hst : String.length st = i).
  { pose proof (FilesFacts.length_take_drop i nm) as H1.
    pose proof (Samples.length_string_drop i nm). unfold st. lia. }
  assert (Hsf : String.length sf = String.length nm - i).
  { apply Samples.length_string_drop. }
  assert (Hnew : Files.split_index (st +:+ "_FIXED" +:+ sf) = i + 6).
  { unfold Files.split_index.
    rewrite (NameFacts.rfind_dot_append st ("_FIXED" +:+ sf) 6).
    2:{ apply (NameFacts.rfind_dot_append "_FIXED" sf 0).
        by apply NameFacts.rfind_dot_drop. }
    rewrite Hst, !HyphenRuleFacts.length_append, Hst, Hsf. simpl String.length.
    destruct (0 <? i + 6)%nat eqn:E1; [|apply Nat.ltb_ge in E1; lia].
    destruct (i + 6 + 1 <? i + (6 + (String.length nm - i)))%nat eqn:E2;
      [done|apply Nat.ltb_ge in E2; lia]. }
  rewrite Hnew.
  replace (i + 6) with (String.length (st +:+ "_FIXED"))
    by (rewrite HyphenRuleFacts.length_append, Hst; reflexivity).
  rewrite <- StringFacts.append_assoc.
  split; [apply NameFacts.drop_append|apply NameFacts.take_append].
Qed.

Lemma fixed_copy_keeps_extension_witness :
  Files.suffix ["files"; "report_BITS.xml"] <> EmptyString
  /\ Files.name (Files.new_path ["files"; "report_BITS.xml"]) = "report_BITS_FIXED.xml"
  /\ Files.suffix (Files.new_path ["files"; "report_BITS.xml"]) = ".xml"
  /\ Files.stem (Files.new_path ["files"; "report_BITS.xml"]) = "report_BITS_FIXED".
Proof.
  assert (Hext : Files.suffix ["files"; "report_BITS.xml"] <> EmptyString) by discriminate.
  pose proof (fixed_copy_keeps_extension ["files"; "report_BITS.xml"] Hext)
    as (_ & H1 & H2 & H3).
  split; [exact Hext|]. split; [exact H1|]. split; [exact H2|exact H3].
Defined.

(* ===================================================================== *)
(** ** The PDF sample phrases *)
(* ===================================================================== *)

Module SubstringFacts.

Import CharFacts.

Lemma startswith_iff (p s : string) :
  PyStr.startswith p s = true <-> exists y, s = (p ++ y)%string.
Proof.
  revert s. induction p as [|a p IH]; intros s.
  - split; [intros _; exists s; by rewrite append_nil|by destruct s].
  - destruct s as [|b s]; simpl.
    + split; [done|]. intros [y Hy]. by rewrite append_cons in Hy.
    + destruct (Ascii.eqb_spec a b) as [->|Hne].
      * rewrite IH. split; intros [y Hy]; exists y.
        -- by rewrite append_cons, Hy.
        -- rewrite append_cons in Hy. by injection Hy.
      * split; [done|]. intros [y Hy]. rewrite append_cons in Hy. by injection Hy.
Qed.

Lemma contains_iff (p s : string) :
  PyStr.contains p s = true <-> exists x y, s = (x ++ p ++ y)%string.
Proof.
  induction s as [|b s IH].
  - simpl. rewrite orb_false_r, startswith_iff. split.
    + intros [y Hy]. exists EmptyString, y. by rewrite append_nil.
    + intros (x & y & H). destruct x as [|c x]; [|by rewrite append_cons in H].
      rewrite append_nil in H. by exists y.
  - cbn [PyStr.contains]. rewrite orb_true_iff, IH, startswith_iff. split.
    + intros [[y Hy]|(x & y & H)].
      * exists EmptyString, y. by rewrite append_nil.
      * exists (String b x), y. by rewrite append_cons, H.
    + intros (x & y & H). destruct x as [|c x].
      * left. exists y. by rewrite append_nil in H.
      * right. rewrite append_cons in H. injection H as _ H. by exists x, y.
Qed.

Lemma contains_trans (a b c : string) :
  PyStr.contains a b = true -> PyStr.contains b c = true -> PyStr.contains a c = true.
Proof.
  rewrite !contains_iff. intros (x1 & y1 & ->) (x2 & y2 & ->).
  exists (x2 ++ x1)%string, (y1 ++ y2)%string.
  by rewrite !StringFacts.append_assoc.
Qed.

Lemma lstrip_suffix (s : string) : exists x, s = (x ++ PyStr.lstrip s)%string.
Proof.
  induction s as [|c s [x IH]]; [by exists EmptyString|].
  simpl. destruct (PyStr.isspace c).
  - exists (String c x). by rewrite append_cons, <- IH.
  - exists EmptyString. by rewrite append_nil.
Qed.

Lemma rstrip_prefix (s : string) : exists y, s = (PyStr.rstrip s ++ y)%string.
Proof.
  induction s as [|c s [y IH]]; [by exists EmptyString|].
  rewrite ExtractFacts.rstrip_cons. destruct (PyStr.rstrip s) as [|d r].
  - rewrite append_nil in IH. subst y. destruct (PyStr.isspace c).
    + exists (String c s). by rewrite append_nil.
    + exists s. by rewrite append_cons, append_nil.
  - exists y. by rewrite (append_cons c), <- IH.
Qed.

Lemma contains_strip (s : string) : PyStr.contains (PyStr.strip s) s = true.
Proof.
  apply contains_iff. unfold PyStr.strip.
  destruct (lstrip_suffix s) as [x Hx].
  destruct (rstrip_prefix (PyStr.lstrip s)) as [y Hy].
  exists x, y. by rewrite <- Hy.
Qed.

Lemma length_lstrip (s : string) : String.length (PyStr.lstrip s) <= String.length s.
Proof. apply SoftHyphen.lstrip_length. Qed.

Lemma length_strip (s : string) : String.length (PyStr.strip s) <= String.length s.
Proof.
  unfold PyStr.strip. pose proof (length_lstrip s) as H1.
  destruct (rstrip_prefix (PyStr.lstrip s)) as [y Hy].
  apply (f_equal String.length) in Hy.
  rewrite HyphenRuleFacts.length_append in Hy. lia.
Qed.

End SubstringFacts.

Module SamplesFacts.

Import Samples SamplesSpec Extract.Sentences FixerSpec CharFacts SubstringFacts.

Lemma findall_cons (c : ascii) (s' : string) :
  findall (String c s')
  = match match_here (String c s') with
    | Some (phrase, rest) => phrase :: findall rest
    | None => findall s'
    end.
Proof.
  rewrite findall_equation_2.
  destruct (inspect (match_here (String c s'))) as [[[phrase rest]|] E].
  - transitivity (phrase :: findall rest); [reflexivity|]. by rewrite E.
  - transitivity (findall s'); [reflexivity|]. by rewrite E.
Qed.

(** The run of characters other than [.!?] at the start of a text, and
    what follows it. *)
Lemma run_split (s : string) :
  s = (PyStr.take (run_length s) s ++ Files.drop (run_length s) s)%string
  /\ String.length (PyStr.take (run_length s) s) = run_length s
  /\ all_chars not_end (PyStr.take (run_length s) s) = true
  /\ match Files.drop (run_length s) s with
     | String c _ => ends_sentence c = true
     | EmptyString => True
     end.
Proof.
  induction s as [|c s (H1 & H2 & H3 & H4)]; [done|].
  simpl run_length. destruct (ends_sentence c) eqn:Ec.
  - simpl. by rewrite Ec.
  - simpl. unfold not_end at 1. rewrite Ec, H2, H3.
    split; [by rewrite append_cons, <- H1|done].
Qed.

Lemma take_S_run (s : string) (c : ascii) (rest : string) :
  Files.drop (run_length s) s = String c rest ->
  PyStr.take (S (run_length s)) s
  = (PyStr.take (run_length s) s ++ String c EmptyString)%string.
Proof.
  induction s as [|d s IH]; [done|].
  simpl run_length. destruct (ends_sentence d) eqn:Ed.
  - simpl. by intros [= -> _].
  - simpl Files.drop. intros H. specialize (IH H).
    change (PyStr.take (S (S (run_length s))) (String d s))
      with (String d (PyStr.take (S (run_length s)) s)).
    rewrite IH. by rewrite <- append_cons.
Qed.

(** A match is a sample phrase at the start of the text, followed by
    the rest. *)
Lemma match_here_sample (s phrase rest : string) :
  match_here s = Some (phrase, rest) ->
  sample phrase /\ s = (phrase ++ rest)%string.
Proof.
  unfold match_here.
  destruct ((40 <=? run_length s)%nat && (run_length s <=? 80)%nat) eqn:Er; [|done].
  apply andb_prop in Er as [E1%Nat.leb_le E2%Nat.leb_le].
  destruct (run_split s) as (H1 & H2 & H3 & H4).
  destruct (Files.drop (run_length s) s) as [|c r] eqn:Ed; [done|].
  intros H.
  assert (phrase = PyStr.take (S (run_length s)) s) as -> by congruence.
  assert (rest = r) as -> by congruence.
  clear H. rewrite (take_S_run s c r Ed). split.
  - exists (PyStr.take (run_length s) s), c. repeat split; try done; lia.
  - rewrite StringFacts.append_assoc, append_cons, append_nil. exact H1.
Qed.

Lemma sample_length (phrase : string) : sample phrase -> String.length phrase <= 81.
Proof.
  intros (body & c & -> & [_ H] & _).
  rewrite HyphenRuleFacts.length_append. simpl. lia.
Qed.

Lemma findall_samples (n : nat) :
  forall s, String.length s <= n ->
            Forall (fun phrase => sample phrase /\ PyStr.contains phrase s = true)
              (findall s).
Proof.
  induction n as [|n IH]; intros s Hn.
  { destruct s; [constructor|simpl in Hn; lia]. }
  destruct s as [|c s]; [constructor|].
  rewrite findall_cons.
  destruct (match_here (String c s)) as [[phrase rest]|] eqn:E.
  - pose proof (sample_match_length _ _ _ E) as Hlen.
    destruct (match_here_sample _ _ _ E) as [Hs Heq].
    constructor.
    + split; [done|]. apply contains_iff. exists EmptyString, rest.
      by rewrite append_nil.
    + eapply Forall_impl; [apply IH; simpl in *; lia|].
      intros ph [Hph Hc]. split; [done|].
      eapply contains_trans; [exact Hc|]. apply contains_iff.
      exists phrase, EmptyString. by rewrite StringFacts.append_empty.
  - eapply Forall_impl; [apply IH; simpl in *; lia|].
    intros ph [Hph Hc]. split; [done|].
    eapply contains_trans; [exact Hc|]. apply contains_iff.
    exists (String c EmptyString), EmptyString.
    by rewrite StringFacts.append_empty, append_cons, append_nil.
Qed.

(** The length of the sentence a text begins with, when one of [.!?]
    ends it. *)
Lemma sentence_lengths_run (s : string) (n : nat) (c : ascii) (rest : string) :
  Files.drop (run_length s) s = String c rest ->
  In (n + run_length s) (sentence_lengths n s).
Proof.
  revert n. induction s as [|d s IH]; intros n; [done|].
  simpl. destruct (ends_sentence d).
  - intros _. left. lia.
  - intros H. specialize (IH (S n) H). by rewrite Nat.add_succ_r.
Qed.

Lemma findall_short (s : string) :
  forall n, Forall (fun k => k < 40) (sentence_lengths n s) -> findall s = [].
Proof.
  induction s as [|c s IH]; intros n H; [done|].
  rewrite findall_cons.
  assert (Hnone : match_here (String c s) = None).
  { unfold match_here.
    destruct ((40 <=? run_length (String c s))%nat
              && (run_length (String c s) <=? 80)%nat) eqn:Er; [|done].
    apply andb_prop in Er as [E1%Nat.leb_le _].
    destruct (Files.drop (run_length (String c s)) (String c s)) as [|d r] eqn:Ed; [done|].
    pose proof (sentence_lengths_run _ n _ _ Ed) as Hin.
    rewrite Forall_forall in H. apply list_elem_of_In, H in Hin. lia. }
  rewrite Hnone. simpl in H. destruct (ends_sentence c).
  - apply Forall_cons in H as [_ H]. by apply (IH 0).
  - by apply (IH (S n)).
Qed.

(** The mismatch lines of the comparison. *)
Definition mismatches (xml_blob : string) (sample_phrases : list string) : list line :=
  flat_map
    (fun phrase =>
       if negb (PyStr.contains (PyStr.strip phrase) xml_blob)
       then [TextMismatch (PyStr.strip phrase)] else [])
    (take 15 sample_phrases).

Lemma pdf_comparison_some (xml_full_text_list : list string) (c : ascii) (s : string) :
  pdf_comparison xml_full_text_list (Some (String c s))
  = match mismatches (PyStr.join " " xml_full_text_list) (findall (String c s)) with
    | [] => [TextFlowMatches]
    | m => m
    end.
Proof.
  change (pdf_comparison xml_full_text_list (Some (String c s)))
    with (match mismatches (PyStr.join " " xml_full_text_list) (findall (String c s)) with
          | [] => [TextFlowMatches]
          | _ => mismatches (PyStr.join " " xml_full_text_list) (findall (String c s))
          end).
  by destruct (mismatches _ _).
Qed.

Lemma mismatches_length (xml_blob : string) (sample_phrases : list string) :
  length (mismatches xml_blob sample_phrases) <= 15.
Proof.
  unfold mismatches.
  assert (H : length (take 15 sample_phrases) <= 15) by (rewrite length_take; lia).
  etransitivity; [|exact H]. clear H.
  induction (take 15 sample_phrases) as [|p l IH]; [done|].
  simpl. rewrite length_app. destruct (negb _); simpl; lia.
Qed.

Lemma mismatches_justified (xml_blob pdf_text : string) (sample_phrases : list string) :
  Forall (fun phrase => sample phrase /\ PyStr.contains phrase pdf_text = true)
    sample_phrases ->
  Forall (justified xml_blob pdf_text) (mismatches xml_blob sample_phrases).
Proof.
  intros H. apply (Forall_take _ 15) in H. unfold mismatches.
  induction H as [|p l [Hs Hc] _ IH]; [constructor|]. simpl.
  apply Forall_app. split; [|done].
  destruct (PyStr.contains (PyStr.strip p) xml_blob) eqn:E; [constructor|].
  constructor; [|constructor]. split; [done|]. split.
  - eapply contains_trans; [apply contains_strip|done].
  - pose proof (length_strip p). pose proof (sample_length p Hs). lia.
Qed.

End SamplesFacts.

(** X11.  The sample phrases and what the comparison prints.  Every
    phrase [re.findall] draws from the PDF text is made of 40 to 80
    characters other than [.!?] and one of [.!?], and occurs in the
    text.  The comparison prints at most 15 lines; a phrase it reports
    as a mismatch is at most 81 characters long, occurs in the PDF
    text and does not occur in the XML texts joined by spaces; and it
    prints nothing exactly when no PDF text was given. *)
Theorem pdf_samples_and_mismatches (xml_full_text_list : list string) (pdf_text : string) :
  Forall (fun phrase => SamplesSpec.sample phrase /\ PyStr.contains phrase pdf_text = true)
    (Samples.findall pdf_text)
  /\ length (Samples.pdf_comparison xml_full_text_list (Some pdf_text)) <= 15
  /\ Forall (SamplesSpec.justified (PyStr.join " " xml_full_text_list) pdf_text)
       (Samples.pdf_comparison xml_full_text_list (Some pdf_text))
  /\ (Samples.pdf_comparison xml_full_text_list (Some pdf_text) = []
      <-> pdf_text = EmptyString)
  /\ Samples.pdf_comparison xml_full_text_list None = [].
Proof.
  pose proof (SamplesFacts.findall_samples _ pdf_text (le_n _)) as Hall.
  split; [exact Hall|].
  destruct pdf_text as [|c s].
  { split; [simpl; lia|]. split; [constructor|]. done. }
  rewrite SamplesFacts.pdf_comparison_some.
  pose proof (SamplesFacts.mismatches_length (PyStr.join " " xml_full_text_list)
                (Samples.findall (String c s))) as Hlen.
  pose proof (SamplesFacts.mismatches_justified (PyStr.join " " xml_full_text_list)
                _ _ Hall) as Hjust.
  destruct (SamplesFacts.mismatches _ _) as [|l ls].
  - split; [simpl; lia|]. split; [by repeat constructor|]. split; [|done].
    split; discriminate.
  - split; [done|]. split; [done|]. split; [|done]. split; discriminate.
Qed.

(** X12.  A PDF of short sentences always matches.  When every sentence
    of the PDF text, counted up to its [.], [!] or [?], has fewer than
    40 characters, no sample phrase is drawn, and the comparison prints
    that the text flow matches, whatever the XML holds. *)
Theorem short_sentences_always_match (xml_full_text_list : list string) (pdf_text : string)
    (Htext : pdf_text <> EmptyString)
    (Hshort : Forall (fun k => k < 40) (SamplesSpec.sentence_lengths 0 pdf_text)) :
  Samples.findall pdf_text = []
  /\ Samples.pdf_comparison xml_full_text_list (Some pdf_text) = [Samples.TextFlowMatches].
Proof.
  pose proof (SamplesFacts.findall_short pdf_text 0 Hshort) as E.
  split; [exact E|].
  destruct pdf_text as [|c s]; [done|].
  rewrite SamplesFacts.pdf_comparison_some, E. reflexivity.
Qed.

Lemma short_sentences_always_match_witness :
  "Short. Also short! Why?" <> EmptyString
  /\ Forall (fun k => k < 40) (SamplesSpec.sentence_lengths 0 "Short. Also short! Why?")
  /\ Samples.pdf_comparison ["Quite another text"] (Some "Short. Also short! Why?")
     = [Samples.TextFlowMatches].
Proof.
  assert (H1 : "Short. Also short! Why?" <> EmptyString) by discriminate.
  assert (H2 : Forall (fun k => k < 40)
                 (SamplesSpec.sentence_lengths 0 "Short. Also short! Why?")).
  { simpl. repeat constructor; lia. }
  pose proof (short_sentences_always_match ["Quite another text"]
                "Short. Also short! Why?" H1 H2) as [_ H].
  split; [exact H1|]. split; [exact H2|exact H].
Defined.

(* ===================================================================== *)
(** ** Cleaned text and its sentences *)
(* ===================================================================== *)

Module CleanFacts.

Import Extract ExtractSpec ExtractFacts FixerSpec SentenceSpec.

Lemma sub_spaces_single_spaced (s : string) :
  single_spaced s = true -> sub_spaces s = s.
Proof.
  induction s as [|c s IH]; [reflexivity|].
  rewrite single_spaced_cons. intros [Hc Hs]%andb_prop.
  simpl. destruct (PyStr.isspace c) eqn:Ec; [|by rewrite IH].
  apply andb_prop in Hc as [Hc Hn]. apply Ascii.eqb_eq in Hc as ->.
  destruct s as [|d s]; [reflexivity|].
  simpl in Hn. apply negb_true_iff in Hn. rewrite Hn. by rewrite IH.
Qed.

Lemma lstrip_no_start (s : string) : starts_with_space s = false -> PyStr.lstrip s = s.
Proof. destruct s as [|c s]; [done|]. simpl. by intros ->. Qed.

Lemma rstrip_no_end (s : string) : ends_with_space s = false -> PyStr.rstrip s = s.
Proof.
  induction s as [|c s IH]; [done|].
  intros H. rewrite rstrip_cons. destruct s as [|d s].
  - simpl in *. by rewrite H.
  - rewrite IH by exact H. reflexivity.
Qed.

Lemma strip_normal (s : string) :
  starts_with_space s = false -> ends_with_space s = false -> PyStr.strip s = s.
Proof. intros Hs He. unfold PyStr.strip. by rewrite lstrip_no_start, rstrip_no_end. Qed.

Lemma strip_start (s : string) : starts_with_space (PyStr.strip s) = false.
Proof. apply rstrip_start, lstrip_start. Qed.

Lemma strip_end (s : string) : ends_with_space (PyStr.strip s) = false.
Proof. apply rstrip_end. Qed.

Lemma strip_strip (s : string) : PyStr.strip (PyStr.strip s) = PyStr.strip s.
Proof. apply strip_normal; [apply strip_start|apply strip_end]. Qed.

Lemma clean_text_of_normalized (s : string) : normalized s = true -> clean_text s = s.
Proof.
  unfold normalized. intros [[H1 H2]%andb_prop H3]%andb_prop.
  apply negb_true_iff in H2, H3.
  destruct s as [|c s]; [reflexivity|].
  unfold clean_text. rewrite sub_spaces_single_spaced by done. by apply strip_normal.
Qed.

Lemma lstrip_blank (s : string) : PyStr.lstrip s = EmptyString <-> blank s = true.
Proof.
  unfold blank. induction s as [|c s IH]; [done|].
  simpl. destruct (PyStr.isspace c); simpl; [exact IH|]. split; discriminate.
Qed.

Lemma rstrip_blank (s : string) : PyStr.rstrip s = EmptyString <-> blank s = true.
Proof.
  unfold blank. induction s as [|c s IH]; [done|].
  rewrite rstrip_cons. simpl.
  destruct (PyStr.rstrip s) as [|d r].
  - destruct IH as [IH _]. rewrite IH by done. rewrite andb_true_r.
    destruct (PyStr.isspace c); split; done.
  - split; [discriminate|]. intros [_ H]%andb_prop. by apply IH in H.
Qed.

Lemma blank_lstrip (s : string) : blank (PyStr.lstrip s) = blank s.
Proof.
  unfold blank. induction s as [|c s IH]; [done|].
  simpl. destruct (PyStr.isspace c) eqn:Ec; [exact IH|]. simpl. by rewrite Ec.
Qed.

Lemma strip_blank (s : string) : PyStr.strip s = EmptyString <-> blank s = true.
Proof. unfold PyStr.strip. by rewrite rstrip_blank, blank_lstrip. Qed.

Lemma sub_spaces_space (c : ascii) (s : string) :
  PyStr.isspace c = true ->
  sub_spaces (String c s)
  = match s with
    | String d _ => if PyStr.isspace d then sub_spaces s else String " " (sub_spaces s)
    | EmptyString => String " " EmptyString
    end.
Proof. intros H. simpl. by rewrite H. Qed.

Lemma blank_cons (c : ascii) (s : string) :
  blank (String c s) = PyStr.isspace c && blank s.
Proof. reflexivity. Qed.

Lemma blank_sub_spaces (s : string) : blank (sub_spaces s) = blank s.
Proof.
  induction s as [|c s IH]; [done|].
  destruct (PyStr.isspace c) eqn:Ec.
  - rewrite sub_spaces_space by done. rewrite blank_cons, Ec. simpl andb.
    destruct s as [|d s]; [done|].
    destruct (PyStr.isspace d) eqn:Ed; [exact IH|].
    rewrite blank_cons, IH. reflexivity.
  - rewrite sub_spaces_head by done. by rewrite !blank_cons, Ec.
Qed.

Lemma clean_text_blank (s : string) : clean_text s = EmptyString <-> blank s = true.
Proof.
  destruct s as [|c s]; [done|].
  unfold clean_text. by rewrite strip_blank, blank_sub_spaces.
Qed.

End CleanFacts.

Module SentenceFacts.

Import Extract Extract.Sentences ExtractSpec ExtractFacts CharFacts SentenceSpec CleanFacts.

Lemma re_split_nonempty (s : string) :
  forall prev_end in_sep, re_split prev_end in_sep s <> [].
Proof.
  induction s as [|c s IH]; intros pe sep; simpl; [done|].
  destruct (_ && sep); [apply IH|].
  destruct (_ && pe); [done|].
  specialize (IH (ends_sentence c) false).
  by destruct (re_split (ends_sentence c) false s).
Qed.

Definition starts_with_blank (s : string) : bool :=
  match s with
  | String c _ => Ascii.eqb c " "
  | EmptyString => false
  end.

Definition head_piece (l : list string) : string := List.hd EmptyString l.

Lemma has_break_cons (c : ascii) (s : string) :
  has_break (String c s) = (ends_sentence c && starts_with_blank s) || has_break s.
Proof. destruct s as [|d s]; [|reflexivity]. simpl. by rewrite andb_false_r. Qed.

(** No piece holds a place where the text is cut, and the piece after a
    sentence end or a separator does not begin with a space. *)
Lemma re_split_no_break (s : string) :
  forall prev_end in_sep,
    Forall (fun p => has_break p = false) (re_split prev_end in_sep s)
    /\ (prev_end || in_sep = true ->
        starts_with_blank (head_piece (re_split prev_end in_sep s)) = false).
Proof.
  induction s as [|c s IH]; intros pe sep; simpl.
  { split; [by constructor|done]. }
  destruct (Ascii.eqb c " ") eqn:Ec; simpl.
  - destruct sep; simpl.
    + destruct (IH false true) as [H1 H2]. split; [done|]. intros _. by apply H2.
    + destruct pe; simpl.
      * destruct (IH false true) as [H1 _]. split; [by constructor|done].
      * destruct (IH (ends_sentence c) false) as [H1 H2].
        apply Ascii.eqb_eq in Ec as ->.
        destruct (re_split (ends_sentence " ") false s) as [|h rest] eqn:E.
        { by apply re_split_nonempty in E. }
        split; [|done]. simpl.
        apply Forall_cons in H1 as [Hh Hrest]. constructor; [|done].
        rewrite has_break_cons, Hh. reflexivity.
  - destruct (IH (ends_sentence c) false) as [H1 H2].
    destruct (re_split (ends_sentence c) false s) as [|h rest] eqn:E.
    { by apply re_split_nonempty in E. }
    simpl. split.
    + apply Forall_cons in H1 as [Hh Hrest]. constructor; [|done].
      rewrite has_break_cons, Hh, orb_false_r.
      destruct (ends_sentence c); [|done]. simpl. by apply H2.
    + intros _. exact Ec.
Qed.

Lemma has_break_lstrip (s : string) :
  has_break s = false -> has_break (PyStr.lstrip s) = false.
Proof.
  induction s as [|c s IH]; [done|].
  intros H. simpl PyStr.lstrip. destruct (PyStr.isspace c); [|done].
  apply IH. rewrite has_break_cons in H. by apply orb_false_elim in H as [_ H].
Qed.

Lemma rstrip_head (s : string) (d : ascii) (r : string) :
  PyStr.rstrip s = String d r -> exists s', s = String d s'.
Proof.
  destruct s as [|c s]; [done|]. rewrite rstrip_cons.
  destruct (PyStr.rstrip s); [destruct (PyStr.isspace c)|]; intros [= <- _]; by eexists.
Qed.

Lemma has_break_rstrip (s : string) :
  has_break s = false -> has_break (PyStr.rstrip s) = false.
Proof.
  induction s as [|c s IH]; [done|].
  rewrite has_break_cons. intros [H1 H2]%orb_false_elim.
  rewrite rstrip_cons. specialize (IH H2).
  destruct (PyStr.rstrip s) as [|d r] eqn:E.
  - by destruct (PyStr.isspace c).
  - rewrite has_break_cons, IH, orb_false_r.
    apply rstrip_head in E as [s' ->]. exact H1.
Qed.

Lemma has_break_strip (s : string) :
  has_break s = false -> has_break (PyStr.strip s) = false.
Proof. intros H. by apply has_break_rstrip, has_break_lstrip. Qed.

Lemma split_into_sentences_eq (text : string) :
  split_into_sentences text
  = List.filter (longer_than 2) (map PyStr.strip (pieces text)).
Proof.
  unfold split_into_sentences, pieces.
  induction (re_split false false text) as [|p l IH]; [reflexivity|].
  simpl. rewrite IH. unfold longer_than. by destruct (_ <? _)%nat.
Qed.

Lemma join_cons_char (c : ascii) (l : list string) :
  l <> [] -> PyStr.join " " (cons_char c l) = String c (PyStr.join " " l).
Proof. destruct l as [|h [|h2 rest]]; [done|done|]. intros _. reflexivity. Qed.

Lemma join_empty_head (l : list string) :
  l <> [] -> PyStr.join " " (EmptyString :: l) = String " " (PyStr.join " " l).
Proof. destruct l as [|h rest]; [done|]. intros _. reflexivity. Qed.

(** On text whose whitespace is single spaces, the separators are
    single spaces too. *)
Lemma re_split_join (s : string) :
  forall prev_end in_sep,
    single_spaced s = true ->
    (in_sep = true -> starts_with_space s = false) ->
    PyStr.join " " (re_split prev_end in_sep s) = s.
Proof.
  induction s as [|c s IH]; intros pe sep Hs Hsep; [reflexivity|].
  rewrite single_spaced_cons in Hs. apply andb_prop in Hs as [Hc Hs].
  simpl re_split. destruct (Ascii.eqb c " ") eqn:Ec; simpl andb; cbv iota.
  - apply Ascii.eqb_eq in Ec as ->. simpl in Hc. apply negb_true_iff in Hc.
    destruct sep; [by discriminate Hsep|].
    destruct pe; cbv iota.
    + rewrite join_empty_head by apply re_split_nonempty. by rewrite IH.
    + rewrite join_cons_char by apply re_split_nonempty. by rewrite IH.
  - rewrite join_cons_char by apply re_split_nonempty. by rewrite IH.
Qed.

Lemma re_split_head_empty (s : string) :
  forall prev_end in_sep rest,
    re_split prev_end in_sep s = EmptyString :: rest ->
    s = EmptyString \/ (starts_with_blank s = true /\ prev_end || in_sep = true).
Proof.
  destruct s as [|c s]; intros pe sep rest; [by left|].
  simpl. destruct (Ascii.eqb c " ") eqn:Ec; simpl.
  - destruct sep; [intros _; right; by rewrite orb_true_r|].
    destruct pe; [by right|].
    destruct (re_split _ false s); discriminate.
  - destruct (re_split _ false s); discriminate.
Qed.

Lemma ends_with_space_cons (c : ascii) (s : string) :
  ends_with_space (String c s)
  = match s with EmptyString => PyStr.isspace c | _ => ends_with_space s end.
Proof. by destruct s. Qed.

Lemma ends_sentence_not_space (c : ascii) :
  ends_sentence c = true -> PyStr.isspace c = false.
Proof.
  unfold ends_sentence.
  intros [[H|H]%orb_prop|H]%orb_prop; apply Ascii.eqb_eq in H as ->; reflexivity.
Qed.

(** On such text that does not end with whitespace, no piece ends with
    whitespace, and only the first piece can begin with whitespace, when
    the text does. *)
Lemma re_split_trimmed (s : string) :
  forall prev_end in_sep,
    single_spaced s = true -> ends_with_space s = false ->
    (in_sep = true -> starts_with_space s = false) ->
    let l := re_split prev_end in_sep s in
    Forall (fun p => ends_with_space p = false) l
    /\ Forall (fun p => starts_with_space p = false) (List.tl l)
    /\ (starts_with_space s = false -> starts_with_space (head_piece l) = false).
Proof.
  induction s as [|c s IH]; intros pe sep Hs He Hsep.
  { simpl. repeat split; by repeat constructor. }
  rewrite single_spaced_cons in Hs. apply andb_prop in Hs as [Hc Hs].
  assert (He' : ends_with_space s = false).
  { rewrite ends_with_space_cons in He. by destruct s. }
  simpl re_split. destruct (Ascii.eqb c " ") eqn:Ec; simpl andb; cbv iota.
  - apply Ascii.eqb_eq in Ec as ->. simpl in Hc. apply negb_true_iff in Hc.
    destruct sep; [by discriminate Hsep|].
    destruct pe; cbv iota.
    + destruct (IH false true Hs He' (fun _ => Hc)) as (H1 & H2 & H3).
      cbv zeta. split; [by constructor|]. split; [|done]. simpl.
      destruct (re_split false true s) as [|h rest]; [done|].
      constructor; [by apply H3|done].
    + destruct (IH (ends_sentence " ") false Hs He') as (H1 & H2 & H3); [done|].
      cbv zeta. destruct (re_split (ends_sentence " ") false s) as [|h rest] eqn:E.
      { by apply re_split_nonempty in E. }
      simpl. apply Forall_cons in H1 as [Hh Hrest].
      split; [|split; [done|done]]. constructor; [|done].
      rewrite ends_with_space_cons. destruct h as [|d h]; [|done].
      apply re_split_head_empty in E as [->|[_ E]]; [done|done].
  - destruct (IH (ends_sentence c) false Hs He') as (H1 & H2 & H3); [done|].
    cbv zeta. destruct (re_split (ends_sentence c) false s) as [|h rest] eqn:E.
    { by apply re_split_nonempty in E. }
    simpl. apply Forall_cons in H1 as [Hh Hrest].
    split; [|split; [done|done]]. constructor; [|done].
    rewrite ends_with_space_cons. destruct h as [|d h]; [|done].
    apply re_split_head_empty in E as [->|[_ E]].
    + by rewrite ends_with_space_cons in He.
    + rewrite orb_false_r in E. by apply ends_sentence_not_space.
Qed.

Lemma pieces_trimmed (text : string) :
  normalized text = true -> Forall (fun p => PyStr.strip p = p) (pieces text).
Proof.
  unfold normalized. intros [[H1 H2]%andb_prop H3]%andb_prop.
  apply negb_true_iff in H2, H3.
  destruct (re_split_trimmed text false false H1 H3) as (Ha & Hb & Hc); [done|].
  unfold pieces. specialize (Hc H2).
  destruct (re_split false false text) as [|h rest]; [constructor|].
  simpl in Hb, Hc. apply Forall_cons in Ha as [Hh Hrest].
  constructor; [by apply strip_normal|].
  apply Forall_forall. intros p Hp.
  rewrite Forall_forall in Hb, Hrest. apply strip_normal; auto.
Qed.

End SentenceFacts.

(** X13.  [clean_text] is a normal form: cleaning twice is cleaning once, the
    texts it leaves unchanged are exactly those whose whitespace is single
    spaces with none at either end, and the result is empty exactly for
    text made of whitespace only. *)
Theorem clean_text_normal_form (s : string) :
  Extract.clean_text (Extract.clean_text s) = Extract.clean_text s
  /\ (Extract.clean_text s = s <-> ExtractSpec.normalized s = true)
  /\ (Extract.clean_text s = EmptyString <-> SentenceSpec.blank s = true).
Proof.
  split; [|split].
  - apply CleanFacts.clean_text_of_normalized, ExtractFacts.clean_text_normalized.
  - split.
    + intros <-. apply ExtractFacts.clean_text_normalized.
    + apply CleanFacts.clean_text_of_normalized.
  - apply CleanFacts.clean_text_blank.
Qed.

(** X14.  Whatever the text, every sentence [split_into_sentences] returns
    has more than two characters, has no whitespace at either end, and
    holds no sentence end followed by a space; the sentences are the
    stripped pieces of [re.split], in order, without the short ones. *)
Theorem sentences_are_trimmed (text : string) :
  Extract.Sentences.split_into_sentences text
  = List.filter (SentenceSpec.longer_than 2)
      (map PyStr.strip (SentenceSpec.pieces text))
  /\ Forall (fun u => 2 < String.length u
                      /\ PyStr.strip u = u
                      /\ SentenceSpec.has_break u = false)
       (Extract.Sentences.split_into_sentences text).
Proof.
  split; [apply SentenceFacts.split_into_sentences_eq|].
  rewrite SentenceFacts.split_into_sentences_eq.
  apply Forall_forall. intros u Hu.
  apply list_elem_of_In, filter_In in Hu as [Hu Hlen].
  apply in_map_iff in Hu as (p & <- & Hp).
  split; [by apply Nat.ltb_lt in Hlen|].
  split; [apply CleanFacts.strip_strip|].
  apply SentenceFacts.has_break_strip.
  destruct (SentenceFacts.re_split_no_break text false false) as [H _].
  rewrite Forall_forall in H. apply H. by apply list_elem_of_In.
Qed.

(** X15.  On cleaned text nothing but short pieces is lost: joining the
    pieces of [re.split] with single spaces gives the text back, the
    pieces need no stripping, and [split_into_sentences] returns exactly
    the pieces of more than two characters. *)
Theorem sentences_of_cleaned_text (text : string)
    (Hclean : ExtractSpec.normalized text = true) :
  PyStr.join " " (SentenceSpec.pieces text) = text
  /\ Extract.Sentences.split_into_sentences text
     = List.filter (SentenceSpec.longer_than 2) (SentenceSpec.pieces text).
Proof.
  split.
  - unfold ExtractSpec.normalized in Hclean.
    apply andb_prop in Hclean as [[H1 H2]%andb_prop H3].
    by apply SentenceFacts.re_split_join.
  - rewrite SentenceFacts.split_into_sentences_eq. f_equal.
    pose proof (SentenceFacts.pieces_trimmed text Hclean) as H.
    induction H as [|p l Hp Hl IH]; [reflexivity|]. simpl. by rewrite Hp, IH.
Qed.

Lemma sentences_of_cleaned_text_witness :
  ExtractSpec.normalized "It rains. So what? Go on!" = true
  /\ PyStr.join " " (SentenceSpec.pieces "It rains. So what? Go on!")
     = "It rains. So what? Go on!"
  /\ Extract.Sentences.split_into_sentences "It rains. So what? Go on!"
     = ["It rains."; "So what?"; "Go on!"].
Proof.
  pose proof (sentences_of_cleaned_text "It rains. So what? Go on!" eq_refl) as [H1 H2].
  split; [reflexivity|]. split; [exact H1|]. rewrite H2. reflexivity.
Defined.

(* ===================================================================== *)
(** ** Cleaned text, word by word *)
(* ===================================================================== *)

Module CleanWordsFacts.

Import Extract ExtractSpec ExtractFacts Words WordsSpec WordsFacts CharFacts
  StringFacts SentenceSpec CleanFacts SentenceFacts.

Lemma split_cons_word (c : ascii) (t : string) :
  PyStr.isspace c = false ->
  split (String c t)
  = match t with
    | EmptyString => [String c EmptyString]
    | String d _ =>
        if PyStr.isspace d then String c EmptyString :: split t
        else Sentences.cons_char c (split t)
    end.
Proof. intros H. simpl. by rewrite H. Qed.

Lemma split_not_blank (c : ascii) (t : string) :
  PyStr.isspace c = false -> split (String c t) <> [].
Proof.
  intros H E. apply split_blank in E. unfold blank in E. simpl in E. by rewrite H in E.
Qed.

Lemma sub_spaces_shape (s : string) :
  forall d, exists d' t',
    sub_spaces (String d s) = String d' t' /\ PyStr.isspace d' = PyStr.isspace d.
Proof.
  induction s as [|e s IH]; intros d.
  - simpl. destruct (PyStr.isspace d) eqn:Ed; eexists _, _; split; try reflexivity; done.
  - destruct (PyStr.isspace d) eqn:Ed.
    + rewrite sub_spaces_space by done. destruct (PyStr.isspace e) eqn:Ee.
      * destruct (IH e) as (d' & t' & -> & Hd'). exists d', t'. split; [done|congruence].
      * by eexists _, _.
    + rewrite sub_spaces_head by done. by eexists _, _.
Qed.

Lemma split_sub_spaces (s : string) : split (sub_spaces s) = split s.
Proof.
  induction s as [|c s IH]; [done|].
  destruct (PyStr.isspace c) eqn:Ec.
  - rewrite sub_spaces_space, (split_space c) by done.
    destruct s as [|d s]; [done|].
    destruct (PyStr.isspace d) eqn:Ed; [exact IH|].
    by rewrite split_space.
  - rewrite sub_spaces_head by done. rewrite !(split_cons_word c) by done.
    destruct s as [|d s]; [done|].
    destruct (sub_spaces_shape s d) as (d' & t' & E & Hd'). rewrite E in *.
    by rewrite Hd', IH.
Qed.

Lemma split_lstrip (s : string) : split (PyStr.lstrip s) = split s.
Proof.
  induction s as [|c s IH]; [done|]. simpl PyStr.lstrip.
  destruct (PyStr.isspace c) eqn:Ec; [|done]. by rewrite split_space.
Qed.

Lemma blank_start (d : ascii) (s : string) :
  blank (String d s) = true -> PyStr.isspace d = true.
Proof. unfold blank. simpl. by intros [H _]%andb_prop. Qed.

Lemma split_rstrip (s : string) : split (PyStr.rstrip s) = split s.
Proof.
  induction s as [|c s IH]; [done|].
  rewrite rstrip_cons. destruct (PyStr.rstrip s) as [|d r] eqn:E.
  - pose proof (proj1 (rstrip_blank s) E) as Hb.
    pose proof (proj2 (split_blank s) Hb) as Hs.
    destruct (PyStr.isspace c) eqn:Ec.
    + by rewrite split_space, Hs.
    + rewrite !(split_cons_word c) by done. destruct s as [|e s]; [done|].
      by rewrite (blank_start _ _ Hb), Hs.
  - destruct (rstrip_head _ _ _ E) as [s' ->].
    destruct (PyStr.isspace c) eqn:Ec.
    + by rewrite !(split_space c).
    + rewrite !(split_cons_word c) by done. by rewrite IH.
Qed.

Lemma split_clean_text (s : string) : split (clean_text s) = split s.
Proof.
  destruct s as [|c s]; [done|].
  unfold clean_text, PyStr.strip. by rewrite split_rstrip, split_lstrip, split_sub_spaces.
Qed.

(** Text whose whitespace is single spaces, with none at the end, is
    its words joined by single spaces, after a space at the start. *)
Lemma join_split (t : string) :
  single_spaced t = true -> ends_with_space t = false ->
  PyStr.join " " (split t) = PyStr.lstrip t.
Proof.
  induction t as [|c t IH]; [done|].
  rewrite single_spaced_cons, ends_with_space_cons.
  intros [Hc Hs]%andb_prop He.
  assert (He' : ends_with_space t = false) by (by destruct t).
  specialize (IH Hs He').
  destruct (PyStr.isspace c) eqn:Ec.
  - rewrite split_space by done. simpl PyStr.lstrip. by rewrite Ec.
  - rewrite split_cons_word by done. simpl PyStr.lstrip. rewrite Ec.
    destruct t as [|d t]; [done|].
    rewrite single_spaced_cons in Hs. apply andb_prop in Hs as [Hd Hs].
    destruct (PyStr.isspace d) eqn:Ed.
    + apply andb_prop in Hd as [Hd Hn]. apply Ascii.eqb_eq in Hd as ->.
      apply negb_true_iff in Hn.
      destruct t as [|e t]; [by rewrite ends_with_space_cons in He'|].
      simpl in Hn.
      rewrite join_cons.
      2:{ rewrite split_space by done. by apply split_not_blank. }
      rewrite IH. simpl PyStr.lstrip. rewrite Hn. reflexivity.
    + rewrite join_cons_char by (by apply split_not_blank).
      rewrite IH. simpl PyStr.lstrip. by rewrite Ed.
Qed.

Lemma clean_text_words (s : string) : clean_text s = PyStr.join " " (split s).
Proof.
  pose proof (clean_text_normalized s) as H. unfold normalized in H.
  apply andb_prop in H as [[H1 H2]%andb_prop H3]. apply negb_true_iff in H2, H3.
  rewrite <- (split_clean_text s), join_split by done.
  by rewrite lstrip_no_start.
Qed.

(** Text cut at a whitespace character: the words of both parts. *)
Lemma split_app_space (a : string) (sp : ascii) (b : string) :
  PyStr.isspace sp = true -> split (a ++ String sp b) = split a ++ split b.
Proof.
  intros Hsp. induction a as [|c a IH]; [by rewrite append_nil, split_space|].
  rewrite append_cons. destruct (PyStr.isspace c) eqn:Ec.
  - by rewrite !(split_space c).
  - rewrite !(split_cons_word c) by done. destruct a as [|d a].
    + rewrite append_nil, Hsp, split_space by done. reflexivity.
    + rewrite append_cons in *. destruct (PyStr.isspace d) eqn:Ed.
      * by rewrite IH.
      * rewrite IH. pose proof (split_not_blank d a Ed) as Hne.
        by destruct (split (String d a)).
Qed.

Lemma ends_with_space_snoc (a : string) :
  ends_with_space a = true ->
  exists a0 sp, a = (a0 ++ String sp EmptyString)%string /\ PyStr.isspace sp = true.
Proof.
  induction a as [|c a IH]; [done|]. rewrite ends_with_space_cons.
  destruct a as [|d a].
  - intros H. exists EmptyString, c. by rewrite append_nil.
  - intros H. destruct (IH H) as (a0 & sp & E & Hsp).
    exists (String c a0), sp. by rewrite append_cons, <- E.
Qed.

Lemma split_app_ends (a b : string) :
  ends_with_space a = true -> split (a ++ b) = split a ++ split b.
Proof.
  intros (a0 & sp & -> & Hsp)%ends_with_space_snoc.
  rewrite append_assoc, append_cons, append_nil.
  rewrite !split_app_space by done. simpl. by rewrite app_nil_r.
Qed.

End CleanWordsFacts.

(** X16.  [clean_text] is [" ".join(text.split())]: the cleaned text is
    the words of the text, in order, joined by single spaces; and
    cleaning changes no word. *)
Theorem clean_text_joins_words (text : string) :
  Extract.clean_text text = PyStr.join " " (Words.split text)
  /\ Words.split (Extract.clean_text text) = Words.split text.
Proof.
  split; [apply CleanWordsFacts.clean_text_words|apply CleanWordsFacts.split_clean_text].
Qed.


Module PdfTextFacts.

Import Extract ExtractSpec Words WordsFacts CharFacts StringFacts CleanWordsFacts Pdf.

(** The text the loops over the pages build, page by page. *)
Lemma fold_pages (f : string -> string) (pages : list string) (acc : string) :
  fold_left (fun text page => text +:+ f page) pages acc
  = acc +:+ foldr (fun page rest => f page +:+ rest) EmptyString pages.
Proof.
  revert acc. induction pages as [|p pages IH]; intros acc; simpl.
  - by rewrite append_empty.
  - by rewrite IH, append_assoc.
Qed.

Lemma fixer_extract_pdf_text_eq (pages : list string) :
  fixer_extract_pdf_text pages
  = clean_text (foldr (fun page rest => (page +:+ " ") +:+ rest) EmptyString pages).
Proof.
  unfold fixer_extract_pdf_text.
  rewrite (fold_pages (fun page => page +:+ " ")), append_nil.
  by destruct (foldr _ _ pages).
Qed.

Lemma extract_pdf_text_eq (pages : list string) :
  extract_pdf_text pages
  = clean_text (foldr (fun page rest => page +:+ rest) EmptyString pages).
Proof.
  unfold extract_pdf_text. by rewrite (fold_pages (fun page => page)), append_nil.
Qed.

Lemma split_spaced_pages (pages : list string) :
  split (foldr (fun page rest => (page +:+ " ") +:+ rest) EmptyString pages)
  = concat (map split pages).
Proof.
  induction pages as [|p pages IH]; [done|].
  simpl. rewrite append_assoc, append_cons, append_nil.
  by rewrite split_app_space, IH.
Qed.

Lemma split_pages (pages : list string) :
  Forall (fun page => ends_with_space page = true) pages ->
  split (foldr (fun page rest => page +:+ rest) EmptyString pages)
  = concat (map split pages).
Proof.
  induction 1 as [|p pages Hp _ IH]; [done|].
  simpl. by rewrite split_app_ends, IH.
Qed.

End PdfTextFacts.

(** X17.  The PDF text of the fixer keeps the pages apart: it is the
    words of the first page, then those of the second, and so on, joined
    by single spaces.  The PDF text of the alignment tool is the words
    of the pages read as one string, so that a word ending one page and
    a word starting the next are read as one; it is the text of the
    fixer when every page ends with whitespace. *)
Theorem pdf_text_page_by_page (pages : list string) :
  Pdf.fixer_extract_pdf_text pages = PyStr.join " " (concat (map Words.split pages))
  /\ Pdf.extract_pdf_text pages
     = PyStr.join " "
         (Words.split (foldr (fun page rest => page +:+ rest) EmptyString pages))
  /\ (Forall (fun page => ExtractSpec.ends_with_space page = true) pages ->
      Pdf.extract_pdf_text pages = Pdf.fixer_extract_pdf_text pages).
Proof.
  assert (Hfix : Pdf.fixer_extract_pdf_text pages
                 = PyStr.join " " (concat (map Words.split pages))).
  { rewrite PdfTextFacts.fixer_extract_pdf_text_eq.
    by rewrite CleanWordsFacts.clean_text_words, PdfTextFacts.split_spaced_pages. }
  assert (Hany : Pdf.extract_pdf_text pages
                 = PyStr.join " "
                     (Words.split (foldr (fun page rest => page +:+ rest) EmptyString pages))).
  { rewrite PdfTextFacts.extract_pdf_text_eq. apply CleanWordsFacts.clean_text_words. }
  split; [exact Hfix|]. split; [exact Hany|].
  intros Hends. by rewrite Hany, Hfix, PdfTextFacts.split_pages.
Qed.

(** Two pages that do not end with whitespace: the fixer keeps
    [page] and [Next] apart, the alignment tool reads [pageNext]. *)
Remark pages_without_final_whitespace :
  Pdf.fixer_extract_pdf_text ["End of page"; "Next page"] = "End of page Next page"
  /\ Pdf.extract_pdf_text ["End of page"; "Next page"] = "End of pageNext page".
Proof. split; reflexivity. Qed.

Module PdfBlocksFacts.

Import Extract ExtractSpec Pdf SentenceSpec.

Lemma extract_pdf_paragraphs_eq (pages : list (list string)) :
  extract_pdf_paragraphs pages
  = List.filter (longer_than 20) (map clean_text (concat pages)).
Proof.
  unfold extract_pdf_paragraphs.
  induction pages as [|blocks pages IH]; [done|].
  simpl. rewrite IH, map_app, List.filter_app. f_equal.
  clear. induction blocks as [|b blocks IH]; [done|].
  simpl. rewrite IH. unfold longer_than. by destruct (_ <? _)%nat.
Qed.

End PdfBlocksFacts.

(** X18.  The PDF side of containment mode.  The paragraphs are the
    cleaned texts of the blocks, page after page, block after block,
    without those of 20 characters or fewer: each is longer than 20
    characters, has single spaces only and none at either end.  The
    table is drawn exactly when there is such a paragraph; it then has
    one row per paragraph, so the percentage of its footer is a true
    quotient; otherwise the run stops with its [No significant text
    blocks] message. *)
Theorem pdf_paragraphs_and_table (pdf_pages : list (list string)) (root : element) :
  Pdf.extract_pdf_paragraphs pdf_pages
  = List.filter (SentenceSpec.longer_than 20)
      (map Extract.clean_text (concat pdf_pages))
  /\ Forall (fun u => 20 < String.length u /\ ExtractSpec.normalized u = true)
       (Pdf.extract_pdf_paragraphs pdf_pages)
  /\ (Reconcile.find_func_path pdf_pages root = Reconcile.NoSignificantBlocks
      <-> Forall (fun b4 => String.length (Extract.clean_text b4) <= 20) (concat pdf_pages))
  /\ (forall t,
        Reconcile.find_func_path pdf_pages root = Reconcile.Drawn t ->
        t = Containment.draw_table (Pdf.extract_pdf_paragraphs pdf_pages)
              (Extract.Blocks.extract_xml_paragraphs root)
        /\ 0 < Containment.total t
        /\ length (Containment.rows t) = Containment.total t).
Proof.
  split; [apply PdfBlocksFacts.extract_pdf_paragraphs_eq|]. split; [|split].
  - rewrite PdfBlocksFacts.extract_pdf_paragraphs_eq.
    apply Forall_forall. intros u Hu.
    apply list_elem_of_In, filter_In in Hu as [Hu Hlen].
    apply in_map_iff in Hu as (b & <- & _).
    split; [by apply Nat.ltb_lt in Hlen|apply ExtractFacts.clean_text_normalized].
  - transitivity (Pdf.extract_pdf_paragraphs pdf_pages = []).
    { unfold Reconcile.find_func_path.
      by destruct (Pdf.extract_pdf_paragraphs pdf_pages). }
    rewrite PdfBlocksFacts.extract_pdf_paragraphs_eq.
    induction (concat pdf_pages) as [|b l IH]; [by split; [constructor|]|].
    cbn [map List.filter]. unfold SentenceSpec.longer_than at 1.
    destruct (20 <? String.length (Extract.clean_text b))%nat eqn:E.
    + split; [done|]. intros [H _]%Forall_cons. apply Nat.ltb_lt in E. lia.
    + rewrite IH. apply Nat.ltb_ge in E. split; [by constructor|].
      by intros [_ H]%Forall_cons.
  - intros t. unfold Reconcile.find_func_path.
    destruct (Pdf.extract_pdf_paragraphs pdf_pages) as [|p ps] eqn:E; [done|].
    intros [= <-]. split; [done|].
    unfold Containment.draw_table. cbn [Containment.total Containment.rows].
    rewrite length_map. simpl. split; [lia|done].
Qed.

(* ===================================================================== *)
(** ** A diff against nothing *)
(* ===================================================================== *)

Module EmptySideFacts.

Import Difflib Differ.

Section Matcher.

Context {A : Type} `{EqDecision A}.

Lemma scan_rows_empty_b (a : list A) (alo ahi blo bhi : nat) :
  scan_rows a [] alo ahi blo bhi = (alo, blo, 0).
Proof.
  unfold scan_rows.
  assert (H : forall l j2len best,
            snd (fold_left
                   (fun '(j2len, best) i =>
                      let js := match a !! i with
                                | Some x => b2j (A := A) [] x
                                | None => []
                                end in
                      scan_row blo bhi i js j2len ∅ best)
                   l (j2len, best)) = best).
  { induction l as [|i l IH]; intros j2len best; [done|].
    simpl. destruct (a !! i); simpl; apply IH. }
  apply H.
Qed.

Lemma find_longest_match_empty_b (a : list A) (alo ahi blo : nat) :
  find_longest_match a [] alo ahi blo 0 = (alo, blo, 0).
Proof.
  unfold find_longest_match. rewrite scan_rows_empty_b. cbn [fst].
  assert (Hback : extend_back a [] alo blo alo (alo, blo, 0) = (alo, blo, 0)).
  { destruct alo as [|n]; [done|]. cbn [extend_back]. by rewrite Nat.ltb_irrefl. }
  rewrite Hback. destruct ahi as [|n]; [done|]. cbn [extend_forward].
  replace (blo + 0 <? 0)%nat with false by (by rewrite Nat.add_0_r).
  by rewrite andb_false_r.
Qed.

Lemma find_longest_match_empty_a (b : list A) (blo bhi : nat) :
  find_longest_match [] b 0 0 blo bhi = (0, blo, 0).
Proof. reflexivity. Qed.

Lemma get_opcodes_empty_b (a : list A) :
  get_opcodes a []
  = Some (match a with [] => [] | _ => [(Delete, 0, length a, 0, 0)] end).
Proof.
  unfold get_opcodes, get_matching_blocks.
  cbn [drain length]. rewrite find_longest_match_empty_b. cbn [drain].
  destruct a; reflexivity.
Qed.

Lemma get_opcodes_empty_a (b : list A) :
  get_opcodes [] b
  = Some (match b with [] => [] | _ => [(Insert, 0, 0, 0, length b)] end).
Proof.
  unfold get_opcodes, get_matching_blocks.
  cbn [drain length Nat.mul]. rewrite find_longest_match_empty_a. cbn [drain].
  destruct b; reflexivity.
Qed.

End Matcher.

Lemma dump_all (mark : string) (x : list string) :
  dump mark x 0 (length x) = map (fun s => mark +:+ " " +:+ s) x.
Proof.
  unfold dump. rewrite Nat.sub_0_r.
  assert (H : forall pre, map (fun i => mark +:+ " " +:+ line_at (pre ++ x) i)
                              (seq (length pre) (length x))
                            = map (fun s => mark +:+ " " +:+ s) x).
  { clear. induction x as [|s x IH]; intros pre; [done|].
    simpl. f_equal.
    - unfold line_at. rewrite lookup_app_r by lia. by rewrite Nat.sub_diag.
    - specialize (IH (pre ++ [s])). rewrite <- app_assoc, length_app in IH.
      simpl in IH. rewrite Nat.add_1_r in IH. exact IH. }
  apply (H []).
Qed.

Lemma compare_empty_b (a : list string) :
  compare a [] = Some (map (fun s => "- " +:+ s) a).
Proof.
  unfold compare. rewrite get_opcodes_empty_b. destruct a as [|s a]; [done|].
  cbn [mbind option_bind concat_lines lines_of]. 
  rewrite (dump_all "-" (s :: a)). simpl. by rewrite app_nil_r.
Qed.

Lemma compare_empty_a (b : list string) :
  compare [] b = Some (map (fun s => "+ " +:+ s) b).
Proof.
  unfold compare. rewrite get_opcodes_empty_a. destruct b as [|s b]; [done|].
  cbn [mbind option_bind concat_lines lines_of].
  rewrite (dump_all "+" (s :: b)). simpl. by rewrite app_nil_r.
Qed.

End EmptySideFacts.


Module EmptyReportFacts.

Import Alignment AlignmentSpec AlignmentFacts ReportSpec EmptySideFacts CharFacts.

Lemma render_marked (mark : ascii) (f : nat -> string -> list output)
    (sentences : list string) :
  (forall i s, entry_block i (String mark (String " " s)) = f i s) ->
  render (map (fun s => String mark (String " " s)) sentences)
  = report (concat (imap f sentences)).
Proof.
  intros Hf. unfold render, report. do 2 f_equal.
  rewrite (entries_output_blocks 0). rewrite imap_fmap. f_equal.
  apply imap_ext. intros i s _. apply Hf.
Qed.

Lemma graph_empty_xml (pdf_sent : list string) :
  draw_comparison_graph pdf_sent [] = Some (report (concat (imap missing_block pdf_sent))).
Proof.
  unfold draw_comparison_graph. rewrite compare_empty_b. simpl. f_equal.
  by apply (render_marked "-").
Qed.

Lemma graph_empty_pdf (xml_sent : list string) :
  draw_comparison_graph [] xml_sent = Some (report (concat (imap extra_block xml_sent))).
Proof.
  unfold draw_comparison_graph. rewrite compare_empty_a. simpl. f_equal.
  by apply (render_marked "+").
Qed.

Lemma blank_append (a b : string) :
  SentenceSpec.blank (a ++ b) = SentenceSpec.blank a && SentenceSpec.blank b.
Proof.
  unfold SentenceSpec.blank. induction a as [|c a IH]; [by rewrite append_nil|].
  rewrite append_cons. simpl. by rewrite IH, andb_assoc.
Qed.

Lemma blank_pages (pages : list string) (acc : string) :
  Forall (fun page => SentenceSpec.blank page = true) pages ->
  SentenceSpec.blank acc = true ->
  SentenceSpec.blank (fold_left (fun text page => text +:+ page) pages acc) = true.
Proof.
  intros H. revert acc. induction H as [|p pages Hp _ IH]; intros acc Hacc; [done|].
  simpl. apply IH. by rewrite blank_append, Hacc, Hp.
Qed.

End EmptyReportFacts.

(** X19.  A diff against nothing.  When the XML side has no sentence,
    the diff marks every PDF sentence as PDF-only and the report shows
    each of them, in order, as [MISSING IN XML] under the line numbers
    1, 2, ...; when the PDF side has none, every XML sentence is shown
    as [EXTRA IN XML] in the same way. *)
Theorem diff_against_nothing (sentences : list string) :
  Differ.compare sentences [] = Some (map (fun s => "- " +:+ s) sentences)
  /\ Differ.compare [] sentences = Some (map (fun s => "+ " +:+ s) sentences)
  /\ Alignment.draw_comparison_graph sentences []
     = Some (ReportSpec.report (concat (imap ReportSpec.missing_block sentences)))
  /\ Alignment.draw_comparison_graph [] sentences
     = Some (ReportSpec.report (concat (imap ReportSpec.extra_block sentences))).
Proof.
  split; [apply EmptySideFacts.compare_empty_b|].
  split; [apply EmptySideFacts.compare_empty_a|].
  split; [apply EmptyReportFacts.graph_empty_xml|apply EmptyReportFacts.graph_empty_pdf].
Qed.

(** X20.  A PDF without a text layer.  When every page of the PDF yields
    only whitespace (or nothing), the extracted PDF text is empty, there
    is no PDF sentence, and the alignment run reports every sentence
    of the XML as [EXTRA IN XML]. *)
Theorem blank_pdf_reports_all_extra (pdf_pages : list string) (root : element)
    (Hblank : Forall (fun page => SentenceSpec.blank page = true) pdf_pages) :
  Pdf.extract_pdf_text pdf_pages = EmptyString
  /\ Extract.Sentences.split_into_sentences (Pdf.extract_pdf_text pdf_pages) = []
  /\ Reconcile.main pdf_pages root
     = Some (ReportSpec.report
               (concat (imap ReportSpec.extra_block
                          (Extract.Sentences.split_into_sentences
                             (Extract.Sentences.extract_xml_text root))))).
Proof.
  assert (E : Pdf.extract_pdf_text pdf_pages = EmptyString).
  { unfold Pdf.extract_pdf_text. apply CleanFacts.clean_text_blank.
    by apply EmptyReportFacts.blank_pages. }
  split; [exact E|]. unfold Reconcile.main. rewrite E.
  split; [reflexivity|]. apply EmptyReportFacts.graph_empty_pdf.
Qed.

Lemma blank_pdf_reports_all_extra_witness :
  Forall (fun page => SentenceSpec.blank page = true) [" "; EmptyString]
  /\ Reconcile.main [" "; EmptyString] ExtractSpec.inline_markup
     = Some (ReportSpec.report (ReportSpec.extra_block 0 "Hello")).
Proof.
  assert (H : Forall (fun page => SentenceSpec.blank page = true) [" "; EmptyString])
    by (by repeat constructor).
  pose proof (blank_pdf_reports_all_extra [" "; EmptyString] ExtractSpec.inline_markup H)
    as (_ & _ & Hmain).
  split; [exact H|]. rewrite Hmain. reflexivity.
Defined.

(* ===================================================================== *)
(** ** A list compared with itself *)
(* ===================================================================== *)

Module SelfMatchFacts.

Import Difflib.

Section Positions.

Context {A : Type} `{EqDecision A}.

Lemma positions_elem (x : A) (l : list A) :
  forall j0, Forall (fun j => j0 <= j < j0 + length l /\ l !! (j - j0) = Some x)
               (positions x l j0).
Proof.
  induction l as [|y l IH]; intros j0; [constructor|].
  simpl. specialize (IH (S j0)).
  assert (Htail : Forall (fun j => j0 <= j < j0 + S (length l)
                                   /\ (y :: l) !! (j - j0) = Some x)
                    (positions x l (S j0))).
  { eapply Forall_impl; [exact IH|]. intros j [Hj Hl]. split; [lia|].
    replace (j - j0) with (S (j - S j0)) by lia. exact Hl. }
  destruct (decide (y = x)) as [->|_]; [|done].
  constructor; [|done]. split; [lia|]. by rewrite Nat.sub_diag.
Qed.

(** The positions of an element come in increasing order: those before
    a given occurrence, that occurrence, those after it. *)
Lemma positions_split (x : A) (l : list A) :
  forall i j0, l !! i = Some x ->
    exists L G, positions x l j0 = L ++ (j0 + i) :: G
                /\ Forall (fun j => j < j0 + i) L
                /\ Forall (fun j => j0 + i < j) G.
Proof.
  induction l as [|y l IH]; intros i j0 Hi; [done|].
  destruct i as [|i]; simpl in Hi.
  - injection Hi as ->. simpl. rewrite decide_True by done.
    exists [], (positions x l (S j0)). rewrite Nat.add_0_r.
    split; [done|]. split; [constructor|].
    eapply Forall_impl; [apply positions_elem|]. intros j [Hj _]. simpl in Hj. lia.
  - destruct (IH i (S j0) Hi) as (L & G & E & HL & HG).
    simpl. rewrite E.
    replace (S j0 + i) with (j0 + S i) in * by lia.
    destruct (decide (y = x)) as [_|_].
    + exists (j0 :: L), G. split; [done|]. split; [|done].
      constructor; [lia|done].
    + by exists L, G.
Qed.

End Positions.

Section Self.

Context {A : Type} `{EqDecision A}.
Variable a : list A.

(** The length of the run of elements that are not popular and that
    ends at position [t]. *)
Fixpoint run_to (t : nat) : nat :=
  let before := match t with O => 0 | S t' => run_to t' end in
  match a !! t with
  | Some x => if popular a x then 0 else S before
  | None => 0
  end.

Definition run_before (t : nat) : nat :=
  match t with O => 0 | S t' => run_to t' end.

Lemma run_to_eq (t : nat) :
  run_to t = match a !! t with
             | Some x => if popular a x then 0 else S (run_before t)
             | None => 0
             end.
Proof. by destruct t. Qed.

Lemma run_to_le (t : nat) : run_to t <= S t.
Proof.
  induction t as [|t IH]; rewrite run_to_eq; simpl;
    destruct (a !! _); try lia; destruct (popular a _); lia.
Qed.

(** [j2len.get(j - 1, 0)] *)
Definition before_in (m : gmap nat nat) (j : nat) : nat :=
  match j with O => 0 | S j1 => default 0 (m !! j1) end.

(** One round of the loop over [j], in a window from 0 to the end. *)
Definition row_step (i : nat) (m : gmap nat nat) (st : gmap nat nat * match_block) (j : nat)
    : gmap nat nat * match_block :=
  let k := before_in m j + 1 in
  let '(bi, bj, bs) := snd st in
  (<[ j := k ]> (fst st),
   if (bs <? k)%nat then (i + 1 - k, j + 1 - k, k) else (bi, bj, bs)).

Lemma scan_row_fold (i : nat) (m : gmap nat nat) (js : list nat) :
  Forall (fun j => j < length a) js ->
  forall new best,
    scan_row 0 (length a) i js m new best = fold_left (row_step i m) js (new, best).
Proof.
  induction 1 as [|j js Hj _ IH]; intros new best; [done|].
  cbn [scan_row fold_left].
  replace (j <? 0)%nat with false by done.
  replace (length a <=? j)%nat with false by (symmetry; apply Nat.leb_gt; lia).
  destruct best as [[bi bj] bs]. cbv zeta. rewrite IH. reflexivity.
Qed.

Lemma row_step_fst (i : nat) (m : gmap nat nat) (js : list nat) :
  forall st j k,
    fst (fold_left (row_step i m) js st) !! j = Some k ->
    fst st !! j = Some k \/ (In j js /\ k = before_in m j + 1).
Proof.
  induction js as [|j0 js IH]; intros st j k H; [by left|].
  cbn [fold_left] in H. apply IH in H as [H|[H1 H2]].
  - unfold row_step in H. destruct (snd st) as [[bi bj] bs]. cbn [fst] in H.
    apply lookup_insert_Some in H as [[<- <-]|[_ H]]; [right|by left].
    split; [by left|done].
  - right. split; [by right|done].
Qed.

Lemma row_step_lookup (i : nat) (m : gmap nat nat) (js : list nat) (j : nat) :
  forall st,
    In j js \/ fst st !! j = Some (before_in m j + 1) ->
    fst (fold_left (row_step i m) js st) !! j = Some (before_in m j + 1).
Proof.
  induction js as [|j0 js IH]; intros st H; [by destruct H|].
  cbn [fold_left]. apply IH.
  unfold row_step. destruct (snd st) as [[bi bj] bs]. cbn [fst].
  destruct (decide (j0 = j)) as [->|Hne].
  - right. by rewrite lookup_insert_eq.
  - rewrite lookup_insert_ne by done. destruct H as [[H|H]|H]; auto. done.
Qed.

Lemma row_step_keeps_best (i : nat) (m : gmap nat nat) (js : list nat) :
  forall new bi bj bs,
    Forall (fun j => before_in m j + 1 <= bs) js ->
    snd (fold_left (row_step i m) js (new, (bi, bj, bs))) = (bi, bj, bs).
Proof.
  induction js as [|j js IH]; intros new bi bj bs Hjs; [done|].
  apply Forall_cons in Hjs as [Hj Hjs]. cbn [fold_left].
  unfold row_step at 2. cbn [fst snd].
  replace (bs <? before_in m j + 1)%nat with false
    by (symmetry; apply Nat.ltb_ge; lia).
  by apply IH.
Qed.

(** What the table holds before row [i]: lengths of runs that end in
    row [i - 1]. *)
Definition table_ok (i : nat) (m : gmap nat nat) : Prop :=
  (forall j k, m !! j = Some k -> k <= run_to j /\ k <= run_before i)
  /\ before_in m i = run_before i.

(** The best block before row [i]: on the diagonal, and at least as
    long as every run on the diagonal so far. *)
Definition diagonal (i : nat) (best : match_block) : Prop :=
  let '(bi, bj, bs) := best in
  bi = bj /\ bi + bs <= length a /\ forall t, t < i -> run_to t <= bs.

Lemma diagonal_row (i : nat) (m : gmap nat nat) (best : match_block) :
  i < length a -> table_ok i m -> diagonal i best ->
  let js := match a !! i with Some x => b2j a x | None => [] end in
  table_ok (S i) (fst (scan_row 0 (length a) i js m ∅ best))
  /\ diagonal (S i) (snd (scan_row 0 (length a) i js m ∅ best)).
Proof.
  intros Hi [Hm1 Hm2] Hbest. cbv zeta.
  destruct (lookup_lt_is_Some_2 a i Hi) as [x Hx]. rewrite Hx.
  pose proof (run_to_eq i) as Hrun. rewrite Hx in Hrun.
  unfold b2j. destruct (popular a x) eqn:Epop.
  - cbn [scan_row fst snd]. split.
    + split; [by intros j k|]. simpl. by rewrite Hrun.
    + destruct best as [[bi bj] bs]. destruct Hbest as (H1 & H2 & H3).
      split; [done|]. split; [done|]. intros t Ht.
      destruct (decide (t = i)) as [->|Hne]; [lia|]. apply H3. lia.
  - pose proof (positions_elem x a 0) as Hpos.
    assert (Hlt : Forall (fun j => j < length a) (positions x a 0)).
    { eapply Forall_impl; [exact Hpos|]. intros j [Hj _]. lia. }
    rewrite scan_row_fold by done.
    assert (Hk : forall j, In j (positions x a 0) ->
                           before_in m j + 1 <= run_to j
                           /\ before_in m j + 1 <= run_to i).
    { intros j Hj. rewrite Forall_forall in Hpos.
      apply list_elem_of_In, Hpos in Hj as [_ Hj]. rewrite Nat.sub_0_r in Hj.
      rewrite (run_to_eq j), Hj, Epop, Hrun.
      assert (before_in m j <= run_before j /\ before_in m j <= run_before i).
      { destruct j as [|j1]; simpl; [lia|].
        destruct (m !! j1) as [k0|] eqn:E0; simpl; [|lia].
        destruct (Hm1 _ _ E0). split; [done|lia]. }
      lia. }
    destruct (positions_split x a i 0 Hx) as (L & G & E & HL & HG).
    simpl in E, HL, HG. split.
    + split.
      * intros j k [H0|[Hj ->]]%row_step_fst; [done|].
        destruct (Hk j Hj). split; [lia|]. simpl. lia.
      * simpl. rewrite (row_step_lookup i m (positions x a 0) i).
        -- simpl. rewrite Hm2, Hrun. lia.
        -- left. rewrite E. apply in_elt.
    + rewrite E in Hk |- *. rewrite fold_left_app. cbn [fold_left].
      destruct best as [[bi bj] bs]. destruct Hbest as (H1 & H2 & H3).
      set (stL := fold_left (row_step i m) L _).
      assert (EL : snd stL = (bi, bj, bs)).
      { apply row_step_keeps_best. apply Forall_forall. intros j Hj.
        assert (Hin : In j (L ++ i :: G)).
        { apply in_or_app. left. by apply list_elem_of_In. }
        destruct (Hk j Hin) as [Hkj _].
        rewrite Forall_forall in HL. specialize (H3 j (HL j Hj)). lia. }
      clearbody stL. destruct stL as [newL bestL].
      cbn [snd] in EL. subst bestL.
      unfold row_step at 2. cbn [fst snd]. rewrite Hm2.
      assert (Hri : run_before i + 1 = run_to i) by (rewrite Hrun; lia).
      rewrite Hri. pose proof (run_to_le i) as Hle.
      destruct (bs <? run_to i)%nat eqn:Ebs.
      * apply Nat.ltb_lt in Ebs. rewrite row_step_keeps_best.
        -- unfold diagonal. split; [done|]. split; [lia|]. intros t Ht.
           destruct (decide (t = i)) as [->|Hne]; [lia|].
           assert (run_to t <= bs) by (apply H3; lia). lia.
        -- apply Forall_forall. intros j Hj.
           assert (Hin : In j (L ++ i :: G)).
           { apply in_or_app. right. right. by apply list_elem_of_In. }
           destruct (Hk j Hin) as [_ Hkj]. lia.
      * apply Nat.ltb_ge in Ebs. rewrite row_step_keeps_best.
        -- unfold diagonal. split; [done|]. split; [done|]. intros t Ht.
           destruct (decide (t = i)) as [->|Hne]; [lia|]. apply H3. lia.
        -- apply Forall_forall. intros j Hj.
           assert (Hin : In j (L ++ i :: G)).
           { apply in_or_app. right. right. by apply list_elem_of_In. }
           destruct (Hk j Hin) as [_ Hkj]. lia.
Qed.

Lemma scan_rows_diagonal :
  diagonal (length a) (scan_rows a a 0 (length a) 0 (length a)).
Proof.
  unfold scan_rows. rewrite Nat.sub_0_r.
  assert (H : forall n start m best,
            start + n <= length a -> table_ok start m -> diagonal start best ->
            diagonal (start + n)
              (snd (fold_left
                      (fun '(j2len, best) i =>
                         let js := match a !! i with
                                   | Some x => b2j a x
                                   | None => []
                                   end in
                         scan_row 0 (length a) i js j2len ∅ best)
                      (seq start n) (m, best)))).
  { induction n as [|n IH]; intros start m best Hn Hm Hbest.
    - by rewrite Nat.add_0_r.
    - cbn [seq fold_left].
      destruct (diagonal_row start m best ltac:(lia) Hm Hbest) as [Hm' Hbest'].
      cbv zeta in Hm', Hbest'.
      destruct (scan_row 0 (length a) start _ m ∅ best) as [m' best'].
      replace (start + S n) with (S start + n) by lia.
      apply IH; [lia|done|done]. }
  apply (H (length a) 0 ∅ (0, 0, 0)); [lia| |].
  - split; [by intros j k|done].
  - split; [done|]. split; [simpl; lia|]. intros t Ht. lia.
Qed.

Lemma same_at_diag (t : nat) : t < length a -> same_at a a t t = true.
Proof.
  intros Ht. unfold same_at. destruct (lookup_lt_is_Some_2 a t Ht) as [x ->].
  by apply bool_decide_eq_true.
Qed.

Lemma extend_back_diag (p : nat) :
  forall s, p + s <= length a -> extend_back a a 0 0 p (p, p, s) = (0, 0, s + p).
Proof.
  induction p as [|p IH]; intros s Hs; [by rewrite Nat.add_0_r|].
  cbn [extend_back]. replace (S p - 1) with p by lia.
  rewrite same_at_diag by lia.
  replace (0 <? S p)%nat with true by done. cbn [andb].
  rewrite IH by lia. f_equal. lia.
Qed.

Lemma extend_forward_diag (rounds : nat) :
  forall s, s <= length a -> length a - s <= rounds ->
            extend_forward a a (length a) (length a) rounds (0, 0, s) = (0, 0, length a).
Proof.
  induction rounds as [|rounds IH]; intros s H1 H2.
  - simpl. do 2 f_equal. lia.
  - cbn [extend_forward]. rewrite !Nat.add_0_l.
    destruct (s <? length a)%nat eqn:E.
    + apply Nat.ltb_lt in E. rewrite same_at_diag by done. cbn [andb].
      apply IH; lia.
    + apply Nat.ltb_ge in E. cbn [andb]. do 2 f_equal. lia.
Qed.

(** The longest match of a list with itself is the whole list. *)
Lemma find_longest_match_self :
  find_longest_match a a 0 (length a) 0 (length a) = (0, 0, length a).
Proof.
  unfold find_longest_match.
  pose proof scan_rows_diagonal as Hd.
  destruct (scan_rows a a 0 (length a) 0 (length a)) as [[bi bj] bs].
  destruct Hd as (<- & Hlen & _). cbn [fst].
  rewrite extend_back_diag by done. apply extend_forward_diag; lia.
Qed.

Lemma get_opcodes_self :
  get_opcodes a a
  = Some (match a with [] => [] | _ => [(Equal, 0, length a, 0, length a)] end).
Proof.
  unfold get_opcodes, get_matching_blocks. cbn [drain].
  rewrite find_longest_match_self.
  destruct a as [|x l] eqn:Ea; [reflexivity|].
  cbn [length]. rewrite Nat.add_0_l, Nat.ltb_irrefl. cbn [andb drain].
  simpl. rewrite Nat.ltb_irrefl. reflexivity.
Qed.

End Self.

End SelfMatchFacts.

(** X21.  A document against itself.  The diff of a list of sentences
    with itself marks every sentence as common, whatever the list
    (also when [autojunk] sets popular sentences aside), and the report
    shows no block.  So when the PDF and the XML yield the same
    sentences, the alignment run prints the header and the closing rule
    only. *)
Theorem same_sentences_empty_report (sentences : list string) :
  Differ.compare sentences sentences = Some (map (fun s => "  " +:+ s) sentences)
  /\ Alignment.draw_comparison_graph sentences sentences = Some (ReportSpec.report [])
  /\ forall (pdf_pages : list string) (root : element),
       Extract.Sentences.split_into_sentences (Pdf.extract_pdf_text pdf_pages) = sentences ->
       Extract.Sentences.split_into_sentences (Extract.Sentences.extract_xml_text root)
       = sentences ->
       Reconcile.main pdf_pages root = Some (ReportSpec.report []).
Proof.
  assert (Hcompare : Differ.compare sentences sentences
                     = Some (map (fun s => "  " +:+ s) sentences)).
  { unfold Differ.compare. rewrite SelfMatchFacts.get_opcodes_self.
    destruct sentences as [|s l] eqn:E; [reflexivity|]. rewrite <- E.
    cbn [mbind option_bind Differ.concat_lines Differ.lines_of].
    rewrite (EmptySideFacts.dump_all " " sentences). simpl. by rewrite app_nil_r. }
  assert (Hgraph : Alignment.draw_comparison_graph sentences sentences
                   = Some (ReportSpec.report [])).
  { unfold Alignment.draw_comparison_graph. rewrite Hcompare. simpl. f_equal.
    assert (Hnone : concat (imap (fun (_ : nat) (_ : string) => @nil Alignment.output)
                              sentences) = []).
    { clear. induction sentences as [|s l IH] using rev_ind; [done|].
      rewrite imap_app, concat_app, IH. reflexivity. }
    rewrite <- Hnone. by apply (EmptyReportFacts.render_marked " "). }
  split; [exact Hcompare|]. split; [exact Hgraph|].
  intros pdf_pages root Hpdf Hxml. unfold Reconcile.main. cbv zeta.
  by rewrite Hpdf, Hxml.
Qed.

Lemma same_sentences_empty_report_witness :
  Reconcile.main ["Hel"; "lo "] ExtractSpec.inline_markup = Some (ReportSpec.report []).
Proof.
  pose proof (same_sentences_empty_report ["Hello"]) as (_ & _ & Hmain).
  apply Hmain; reflexivity.
Defined.

(* ===================================================================== *)
(** ** The rounds of the diff, and its entries *)
(* ===================================================================== *)

Module MatcherFacts.

Import Difflib.

Section Bounds.

Context {A : Type} `{EqDecision A}.
Variables (a b : list A) (alo ahi blo bhi : nat).
Hypothesis Ha : alo <= ahi.
Hypothesis Hb : blo <= bhi.

(** A block inside the window of [find_longest_match]. *)
Definition in_box (m : match_block) : Prop :=
  let '(i, j, k) := m in alo <= i /\ i + k <= ahi /\ blo <= j /\ j + k <= bhi.

(** The lengths a row of the table [j2len] can hold. *)
Definition row_ok (h : nat) (m : gmap nat nat) : Prop :=
  forall j k, m !! j = Some k -> blo <= j /\ k <= j + 1 - blo /\ k <= h.

Lemma scan_row_ok (i : nat) (js : list nat) :
  alo <= i < ahi ->
  forall j2len newj2len best,
    row_ok (i - alo) j2len -> row_ok (i + 1 - alo) newj2len -> in_box best ->
    row_ok (i + 1 - alo) (fst (scan_row blo bhi i js j2len newj2len best))
    /\ in_box (snd (scan_row blo bhi i js j2len newj2len best)).
Proof.
  intros Hi. induction js as [|j js IH]; intros j2len newj2len best Hold Hnew Hbest;
    [done|].
  cbn [scan_row].
  destruct (j <? blo)%nat eqn:E1; [by apply IH|]. apply Nat.ltb_ge in E1.
  destruct (bhi <=? j)%nat eqn:E2; [done|]. apply Nat.leb_gt in E2.
  set (prev := match j with O => 0 | S j1 => default 0 (j2len !! j1) end).
  assert (Hprev : prev <= i - alo /\ prev <= j - blo).
  { unfold prev. destruct j as [|j1]; [lia|].
    destruct (j2len !! j1) as [k0|] eqn:Ek; simpl; [|lia].
    destruct (Hold _ _ Ek) as (H1 & H2 & H3). lia. }
  destruct best as [[bi bj] bs]. cbv zeta.
  apply IH; [done| |].
  - intros j' k' [[<- <-]|[_ H]]%lookup_insert_Some; [lia|by apply Hnew].
  - destruct (bs <? prev + 1)%nat; [|done]. unfold in_box. lia.
Qed.

Lemma scan_rows_ok : in_box (scan_rows a b alo ahi blo bhi).
Proof.
  unfold scan_rows.
  assert (H : forall n start j2len best,
            alo <= start -> start + n <= ahi ->
            row_ok (start - alo) j2len -> in_box best ->
            in_box (snd (fold_left
                           (fun '(j2len, best) i =>
                              let js := match a !! i with
                                        | Some x => b2j b x
                                        | None => []
                                        end in
                              scan_row blo bhi i js j2len ∅ best)
                           (seq start n) (j2len, best)))).
  { induction n as [|n IH]; intros start j2len best H1 H2 Hrow Hbest; [done|].
    cbn [seq fold_left].
    destruct (scan_row_ok start
                (match a !! start with Some x => b2j b x | None => [] end)
                ltac:(lia) j2len ∅ best Hrow ltac:(by intros j k) Hbest) as [Hr Hbx].
    destruct (scan_row blo bhi start _ j2len ∅ best) as [m' best'].
    apply IH; [lia|lia| |done].
    replace (S start - alo) with (start + 1 - alo) by lia. exact Hr. }
  apply H; [done|lia|by intros j k|].
  unfold in_box. lia.
Qed.

Lemma extend_back_ok (rounds : nat) :
  forall best, in_box best -> in_box (extend_back a b alo blo rounds best).
Proof.
  induction rounds as [|rounds IH]; intros [[i j] k] Hbest; [done|].
  cbn [extend_back].
  destruct ((alo <? i)%nat && (blo <? j)%nat && same_at a b (i - 1) (j - 1)) eqn:E;
    [|done].
  apply andb_prop in E as [[E1%Nat.ltb_lt E2%Nat.ltb_lt]%andb_prop _].
  apply IH. unfold in_box in *. lia.
Qed.

Lemma extend_forward_ok (rounds : nat) :
  forall best, in_box best -> in_box (extend_forward a b ahi bhi rounds best).
Proof.
  induction rounds as [|rounds IH]; intros [[i j] k] Hbest; [done|].
  cbn [extend_forward].
  destruct ((i + k <? ahi)%nat && (j + k <? bhi)%nat && same_at a b (i + k) (j + k)) eqn:E;
    [|done].
  apply andb_prop in E as [[E1%Nat.ltb_lt E2%Nat.ltb_lt]%andb_prop _].
  apply IH. unfold in_box in *. lia.
Qed.

(** The longest match lies inside the window searched. *)
Lemma find_longest_match_ok : in_box (find_longest_match a b alo ahi blo bhi).
Proof.
  unfold find_longest_match. apply extend_forward_ok, extend_back_ok, scan_rows_ok.
Qed.

End Bounds.

Section Drain.

Context {A : Type} `{EqDecision A}.
Variables a b : list A.

Definition window_ok (q : nat * nat * nat * nat) : Prop :=
  let '(alo, ahi, blo, bhi) := q in alo <= ahi /\ blo <= bhi.

(** Two rounds for every element of [a] in a window, and one more. *)
Fixpoint weight (queue : list (nat * nat * nat * nat)) : nat :=
  match queue with
  | [] => 0
  | (alo, ahi, _, _) :: queue' => 2 * (ahi - alo) + 1 + weight queue'
  end.

Lemma drain_total (rounds : nat) :
  forall queue blocks,
    Forall window_ok queue -> weight queue <= rounds ->
    is_Some (drain a b rounds queue blocks).
Proof.
  induction rounds as [|rounds IH]; intros queue blocks Hq Hw.
  { destruct queue as [|[[[alo ahi] blo] bhi] q]; [by eexists|simpl in Hw; lia]. }
  destruct queue as [|[[[alo ahi] blo] bhi] q]; [by eexists|].
  apply Forall_cons in Hq as [[Ha Hb] Hq]. cbn [drain weight] in *.
  pose proof (find_longest_match_ok a b alo ahi blo bhi Ha Hb) as Hbox.
  destruct (find_longest_match a b alo ahi blo bhi) as [[i j] k].
  unfold in_box in Hbox. destruct k as [|k]; [apply IH; [done|lia]|].
  destruct ((alo <? i)%nat && (blo <? j)%nat) eqn:E1;
    destruct ((i + S k <? ahi)%nat && (j + S k <? bhi)%nat) eqn:E2;
    apply IH; repeat (apply Forall_cons; split); try done;
    try (apply andb_prop in E1 as [?%Nat.ltb_lt ?%Nat.ltb_lt]);
    try (apply andb_prop in E2 as [?%Nat.ltb_lt ?%Nat.ltb_lt]);
    unfold window_ok; cbn [weight]; lia.
Qed.

Lemma get_matching_blocks_total : is_Some (get_matching_blocks a b).
Proof.
  unfold get_matching_blocks.
  destruct (drain_total (S (2 * length a)) [(0, length a, 0, length b)] []) as [blocks E].
  - repeat constructor; lia.
  - simpl. lia.
  - rewrite E. by eexists.
Qed.

Lemma get_opcodes_total : is_Some (get_opcodes a b).
Proof.
  unfold get_opcodes. destruct get_matching_blocks_total as [blocks ->]. by eexists.
Qed.

Lemma ratio_total : is_Some (ratio a b).
Proof.
  unfold ratio. destruct get_matching_blocks_total as [blocks ->]. by eexists.
Qed.

End Drain.

End MatcherFacts.


Module DifferFacts.

Import Difflib Differ DiffSpec MatcherFacts.

(** A result of the right form: lines, each of them an entry. *)
Definition entries (o : option (list string)) : Prop :=
  exists l, o = Some l /\ Forall entry l.

Lemma entries_some (l : list string) : Forall entry l -> entries (Some l).
Proof. intros H. by exists l. Qed.

Lemma entry_marked (marker : ascii) (rest : string) :
  In marker ["-"; "+"; " "; "?"]%char -> entry (String marker (String " " rest)).
Proof. intros H. by exists marker, rest. Qed.

Lemma dump_entries (marker : ascii) (x : list string) (lo hi : nat) :
  In marker ["-"; "+"; " "]%char ->
  Forall entry (dump (String marker EmptyString) x lo hi).
Proof.
  intros Hm. unfold dump. apply Forall_forall. intros e He.
  apply list_elem_of_In, in_map_iff in He as (i & <- & _).
  apply entry_marked. simpl in *. tauto.
Qed.

Lemma plain_replace_entries (a : list string) (alo ahi : nat) (b : list string)
    (blo bhi : nat) :
  Forall entry (plain_replace a alo ahi b blo bhi).
Proof.
  unfold plain_replace. destruct (_ <? _)%nat; apply Forall_app; split;
    apply (dump_entries _ _ _ _); simpl; tauto.
Qed.

Lemma qformat_entries (aline bline atags btags : string) :
  Forall entry (qformat aline bline atags btags).
Proof.
  unfold qformat. cbv zeta.
  repeat (apply Forall_app; split);
    try (destruct (PyStr.rstrip _); [constructor|]);
    repeat constructor; apply entry_marked; simpl; tauto.
Qed.

Section Search.

Variables (a b : list string) (alo ahi blo bhi : nat).

(** The pairs the search has kept lie inside the window, and as long
    as no similar pair is kept the best ratio is the initial 0.74. *)
Definition search_ok (st : search) : Prop :=
  (forall i j, best_ij st = Some (i, j) -> alo <= i < ahi /\ blo <= j < bhi)
  /\ (forall i j, eq_ij st = Some (i, j) -> alo <= i < ahi /\ blo <= j < bhi)
  /\ (best_ij st = None -> best_ratio st = (74 # 100)%Q).

Lemma try_pair_ok (i j : nat) (st : search) :
  alo <= i < ahi -> blo <= j < bhi -> search_ok st ->
  exists st', try_pair a b j (Some st) i = Some st' /\ search_ok st'.
Proof.
  intros Hi Hj Hst. pose proof Hst as (H1 & H2 & H3). unfold try_pair. simpl.
  destruct (String.eqb (line_at a i) (line_at b j)).
  - eexists. split; [reflexivity|].
    destruct (eq_ij st) as [[ei ej]|] eqn:Ee; [exact Hst|].
    split; [exact H1|]. split; [|exact H3].
    simpl. by intros i' j' [= <- <-].
  - destruct (_ && _); [|by exists st].
    destruct (ratio_total (chars (line_at a i)) (chars (line_at b j))) as [r ->].
    simpl. eexists. split; [reflexivity|].
    destruct (Qgt_bool r (best_ratio st)); [|exact Hst].
    split; [|split]; simpl; [by intros i' j' [= <- <-]|exact H2|done].
Qed.

Lemma try_pairs_ok (j : nat) (l : list nat) :
  Forall (fun i => alo <= i < ahi) l -> blo <= j < bhi ->
  forall st, search_ok st ->
    exists st', fold_left (try_pair a b j) l (Some st) = Some st' /\ search_ok st'.
Proof.
  intros Hl Hj. induction Hl as [|i l Hi _ IH]; intros st Hst; [by exists st|].
  cbn [fold_left]. destruct (try_pair_ok i j st Hi Hj Hst) as (st1 & -> & Hst1).
  by apply IH.
Qed.

Lemma Forall_seq_range (lo n : nat) : Forall (fun i => lo <= i < lo + n) (seq lo n).
Proof.
  apply Forall_forall. intros i Hi%list_elem_of_In%in_seq. lia.
Qed.

Lemma find_best_ok :
  exists st, find_best a alo ahi b blo bhi = Some st /\ search_ok st.
Proof.
  unfold find_best.
  assert (Hrange : Forall (fun i => alo <= i < ahi) (seq alo (ahi - alo))).
  { eapply Forall_impl; [apply Forall_seq_range|]. intros i Hi. simpl in Hi. lia. }
  assert (H : forall l, Forall (fun j => blo <= j < bhi) l ->
            forall st, search_ok st ->
              exists st',
                fold_left
                  (fun st j => fold_left (try_pair a b j) (seq alo (ahi - alo)) st)
                  l (Some st) = Some st' /\ search_ok st').
  { induction 1 as [|j l Hj _ IH]; intros st Hst; [by exists st|].
    cbn [fold_left]. destruct (try_pairs_ok j _ Hrange Hj st Hst) as (st1 & -> & Hst1).
    by apply IH. }
  apply H.
  - eapply Forall_impl; [apply Forall_seq_range|]. intros j Hj. simpl in Hj. lia.
  - by repeat split.
Qed.

End Search.

Lemma fancy_middle (a b : list string) (best_i best_j : nat) (identical : bool) :
  entries
    (if identical then Some ["  " +:+ line_at a best_i]
     else
       ops ← get_opcodes (chars (line_at a best_i)) (chars (line_at b best_j));
       let '(atags, btags) := tag_lines ops in
       Some (qformat (line_at a best_i) (line_at b best_j) atags btags)).
Proof.
  destruct identical.
  - apply entries_some. repeat constructor. apply entry_marked. simpl. tauto.
  - destruct (get_opcodes_total (chars (line_at a best_i)) (chars (line_at b best_j)))
      as [ops ->].
    simpl. destruct (tag_lines ops) as [atags btags].
    apply entries_some, qformat_entries.
Qed.

Lemma entries_bind3 (x y z : option (list string)) :
  entries x -> entries y -> entries z ->
  entries (before ← x; middle ← y; after ← z; Some (before ++ middle ++ after)).
Proof.
  intros (l1 & -> & H1) (l2 & -> & H2) (l3 & -> & H3). simpl.
  apply entries_some. by repeat (apply Forall_app; split).
Qed.

(** [_fancy_replace] ends within its rounds, with entries. *)
Lemma fancy_replace_total (rounds : nat) :
  forall (a : list string) (alo ahi : nat) (b : list string) (blo bhi : nat),
    (ahi - alo) + (bhi - blo) < rounds ->
    entries (fancy_replace rounds a alo ahi b blo bhi).
Proof.
  induction rounds as [|rounds IH]; intros a alo ahi b blo bhi Hr; [lia|].
  cbn [fancy_replace]. cbv zeta.
  destruct (find_best_ok a b alo ahi blo bhi) as (st & -> & H1 & H2 & H3).
  cbn [mbind option_bind].
  assert (Hhelper : forall lo1 hi1 lo2 hi2,
            (hi1 - lo1) + (hi2 - lo2) < rounds ->
            entries (if (lo1 <? hi1)%nat
                     then if (lo2 <? hi2)%nat
                          then fancy_replace rounds a lo1 hi1 b lo2 hi2
                          else Some (dump "-" a lo1 hi1)
                     else if (lo2 <? hi2)%nat then Some (dump "+" b lo2 hi2)
                          else Some [])).
  { intros lo1 hi1 lo2 hi2 Hlt.
    destruct (lo1 <? hi1)%nat; destruct (lo2 <? hi2)%nat.
    - by apply IH.
    - apply entries_some, (dump_entries "-"). simpl. tauto.
    - apply entries_some, (dump_entries "+"). simpl. tauto.
    - by apply entries_some. }
  assert (Hsynch : forall (best_i best_j : nat) (identical : bool),
            alo <= best_i < ahi -> blo <= best_j < bhi ->
            entries
              (before ← (if (alo <? best_i)%nat
                         then if (blo <? best_j)%nat
                              then fancy_replace rounds a alo best_i b blo best_j
                              else Some (dump "-" a alo best_i)
                         else if (blo <? best_j)%nat then Some (dump "+" b blo best_j)
                              else Some []);
               middle ← (if identical then Some ["  " +:+ line_at a best_i]
                         else
                           ops ← get_opcodes (chars (line_at a best_i))
                                   (chars (line_at b best_j));
                           let '(atags, btags) := tag_lines ops in
                           Some (qformat (line_at a best_i) (line_at b best_j) atags btags));
               after ← (if (best_i + 1 <? ahi)%nat
                        then if (best_j + 1 <? bhi)%nat
                             then fancy_replace rounds a (best_i + 1) ahi b (best_j + 1) bhi
                             else Some (dump "-" a (best_i + 1) ahi)
                        else if (best_j + 1 <? bhi)%nat
                             then Some (dump "+" b (best_j + 1) bhi)
                             else Some []);
               Some (before ++ middle ++ after))).
  { intros best_i best_j identical Hi Hj. apply entries_bind3.
    - apply Hhelper. lia.
    - apply fancy_middle.
    - apply Hhelper. lia. }
  destruct (Qgt_bool (75 # 100) (best_ratio st)) eqn:Ecut.
  - destruct (eq_ij st) as [[eqi eqj]|] eqn:Eeq.
    + destruct (H2 _ _ eq_refl) as [Hi Hj]. exact (Hsynch eqi eqj true Hi Hj).
    + apply entries_some, plain_replace_entries.
  - destruct (best_ij st) as [[best_i best_j]|] eqn:Ebest.
    + destruct (H1 _ _ eq_refl) as [Hi Hj]. exact (Hsynch best_i best_j false Hi Hj).
    + rewrite (H3 eq_refl) in Ecut. discriminate Ecut.
Qed.

Lemma lines_of_total (a b : list string) (op : opcode) : entries (lines_of a b op).
Proof.
  destruct op as [[[[tag alo] ahi] blo] bhi]. unfold lines_of. destruct tag.
  - apply fancy_replace_total. lia.
  - apply entries_some, (dump_entries "-"). simpl. tauto.
  - apply entries_some, (dump_entries "+"). simpl. tauto.
  - apply entries_some, (dump_entries " "). simpl. tauto.
Qed.

Lemma concat_lines_total (a b : list string) (ops : list opcode) :
  entries (concat_lines a b ops).
Proof.
  induction ops as [|op ops (rest & E & Hrest)]; [by apply entries_some|].
  simpl. destruct (lines_of_total a b op) as (g & -> & Hg). simpl. rewrite E. simpl.
  apply entries_some. by apply Forall_app.
Qed.

Lemma compare_total (a b : list string) : entries (compare a b).
Proof.
  unfold compare. destruct (get_opcodes_total a b) as [ops ->]. simpl.
  apply concat_lines_total.
Qed.

End DifferFacts.

(** X22.  The entries of a diff.  Every entry of a diff that
    [Differ.compare] returns is one of the markers [-], [+], space and
    [?], then a space, then the text, so that [entry[0]] and [entry[2:]]
    in [draw_comparison_graph] are defined for each of them.  The report
    printed is the report of that diff, and an entry leaves a block in
    it exactly when its marker is [-] or [+]: unchanged entries and the
    [?] lines that point at differences inside a line print nothing. *)
Theorem diff_entries_are_marked (pdf_sent xml_sent diff : list string)
    (Hdiff : Differ.compare pdf_sent xml_sent = Some diff) :
  Forall DiffSpec.entry diff
  /\ Alignment.draw_comparison_graph pdf_sent xml_sent = Some (Alignment.render diff)
  /\ (forall entry line_num,
        In entry diff ->
        (Alignment.entry_output line_num entry <> []
         <-> exists rest, entry = "- " +:+ rest \/ entry = "+ " +:+ rest)).
Proof.
  destruct (DifferFacts.compare_total pdf_sent xml_sent) as (l & E & Hl).
  rewrite Hdiff in E. injection E as <-.
  split; [exact Hl|]. split.
  - unfold Alignment.draw_comparison_graph. by rewrite Hdiff.
  - intros entry line_num Hin.
    rewrite Forall_forall in Hl. apply list_elem_of_In in Hin.
    destruct (Hl entry Hin) as (marker & rest & -> & Hmarker).
    simpl in Hmarker.
    destruct Hmarker as [<-|[<-|[<-|[<-|[]]]]]; split;
      try (intros _; exists rest; by auto);
      try (intros H; exfalso; by apply H);
      try discriminate;
      intros [r [[=]|[=]]].
Qed.

Lemma diff_entries_are_marked_witness :
  Forall DiffSpec.entry ["  A."; "- B."; "  C."]
  /\ Alignment.draw_comparison_graph AlignmentSpec.abc AlignmentSpec.ac
     = Some (Alignment.render ["  A."; "- B."; "  C."]).
Proof.
  assert (H : Differ.compare AlignmentSpec.abc AlignmentSpec.ac
              = Some ["  A."; "- B."; "  C."]) by (vm_compute; reflexivity).
  pose proof (diff_entries_are_marked _ _ _ H) as (Hentries & Hgraph & _).
  split; [exact Hentries|exact Hgraph].
Defined.

(* ===================================================================== *)
(** ** Containment, once more *)
(* ===================================================================== *)

Module PoolFacts.

Import Containment ContainmentSpec ContainmentFacts.

Lemma startswith_take (n : nat) (p s : string) :
  PyStr.startswith p s = true -> PyStr.startswith (PyStr.take n p) s = true.
Proof.
  revert p s. induction n as [|n IH]; intros [|a p] [|b s]; simpl; try done.
  destruct (Ascii.eqb a b); [apply IH|done].
Qed.

Lemma contains_take (n : nat) (p s : string) :
  PyStr.contains p s = true -> PyStr.contains (PyStr.take n p) s = true.
Proof.
  induction s as [|b s IH]; simpl.
  - rewrite !orb_false_r. apply startswith_take.
  - intros [H|H]%orb_prop; apply orb_true_intro.
    + left. by apply (startswith_take n p (String b s)).
    + right. by apply IH.
Qed.

Lemma is_match_app (pool more : list string) (para : string) :
  is_match pool para = true -> is_match (pool ++ more) para = true.
Proof. unfold is_match. rewrite existsb_app. by intros ->. Qed.

Lemma row_of (pool paras : list string) (para : string) :
  In para paras -> is_match (map PyStr.lower pool) para = true ->
  In (para, "FOUND") (rows (draw_table paras pool)).
Proof.
  intros Hin Hm. unfold draw_table. cbn [rows].
  apply in_map_iff. exists para. split; [|done].
  unfold status_text. by rewrite Hm.
Qed.

Lemma row_found (pool paras : list string) (para : string) :
  In (para, "FOUND") (rows (draw_table paras pool)) ->
  In para paras /\ is_match (map PyStr.lower pool) para = true.
Proof.
  unfold draw_table. cbn [rows]. intros (p & E & Hin)%in_map_iff.
  injection E as -> E. split; [done|].
  unfold status_text in E. by destruct (is_match _ para).
Qed.

Lemma filter_length_le {X : Type} (p q : X -> bool) (l : list X) :
  (forall x, p x = true -> q x = true) ->
  length (List.filter p l) <= length (List.filter q l).
Proof.
  intros H. induction l as [|x l IH]; [done|]. simpl.
  destruct (p x) eqn:Ep.
  - rewrite (H x Ep). simpl. lia.
  - destruct (q x); simpl; lia.
Qed.

End PoolFacts.

(** X23.  Containment mode has no false negatives.  A PDF paragraph that
    occurs, letter case apart, inside some XML unit is reported
    [FOUND]; in particular a paragraph that is itself one of the XML
    units. *)
Theorem contained_paragraph_is_found (pdf_paras xml_pool : list string) (para x : string)
    (Hpara : In para pdf_paras)
    (Hx : In x xml_pool)
    (Hin : PyStr.contains (PyStr.lower para) (PyStr.lower x) = true) :
  In (para, "FOUND") (Containment.rows (Containment.draw_table pdf_paras xml_pool))
  /\ 0 < Containment.found_count (Containment.draw_table pdf_paras xml_pool)
  /\ (forall unit, In unit pdf_paras -> In unit xml_pool ->
        In (unit, "FOUND") (Containment.rows (Containment.draw_table pdf_paras xml_pool))).
Proof.
  assert (Hgen : forall p y, In p pdf_paras -> In y xml_pool ->
            PyStr.contains (PyStr.lower p) (PyStr.lower y) = true ->
            Containment.is_match (map PyStr.lower xml_pool) p = true).
  { intros p y Hp Hy Hc. unfold Containment.is_match. apply existsb_exists.
    exists (PyStr.lower y). split; [by apply in_map|]. by apply PoolFacts.contains_take. }
  split; [apply PoolFacts.row_of; eauto|]. split.
  - unfold Containment.draw_table. cbn [Containment.found_count].
    rewrite ContainmentFacts.found_count_fold. simpl.
    assert (In para (List.filter (Containment.is_match (map PyStr.lower xml_pool)) pdf_paras)).
    { apply filter_In. split; [done|]. eauto. }
    destruct (List.filter _ pdf_paras); [done|simpl; lia].
  - intros unit Hu Hu'. apply PoolFacts.row_of; [done|].
    apply (Hgen unit unit Hu Hu'). clear.
    generalize (PyStr.lower unit). intros s. destruct s as [|c s]; [done|].
    simpl. rewrite Ascii.eqb_refl.
    assert (Hs : forall t, PyStr.startswith t t = true).
    { induction t as [|a t IH]; [done|]. simpl. by rewrite Ascii.eqb_refl. }
    by rewrite Hs.
Qed.

Lemma contained_paragraph_is_found_witness :
  In "THE LAZY DOG" ["Intro"; "THE LAZY DOG"]
  /\ In "over the lazy dog again." ContainmentSpec.fox_pool
  /\ In ("THE LAZY DOG", "FOUND")
        (Containment.rows (Containment.draw_table ["Intro"; "THE LAZY DOG"]
                             ContainmentSpec.fox_pool)).
Proof.
  assert (H1 : In "THE LAZY DOG" ["Intro"; "THE LAZY DOG"]) by (right; by left).
  assert (H2 : In "over the lazy dog again." ContainmentSpec.fox_pool) by (right; by left).
  pose proof (contained_paragraph_is_found ["Intro"; "THE LAZY DOG"]
                ContainmentSpec.fox_pool "THE LAZY DOG" "over the lazy dog again."
                H1 H2 eq_refl) as (H & _).
  split; [exact H1|]. split; [exact H2|exact H].
Defined.

(** X24.  More XML text never loses a match.  With further XML units
    added to the pool, every paragraph reported [FOUND] is still
    reported [FOUND], and the number of matches does not go down. *)
Theorem larger_pool_keeps_matches (pdf_paras xml_pool more : list string) :
  (forall para,
     In (para, "FOUND") (Containment.rows (Containment.draw_table pdf_paras xml_pool)) ->
     In (para, "FOUND")
        (Containment.rows (Containment.draw_table pdf_paras (xml_pool ++ more))))
  /\ Containment.found_count (Containment.draw_table pdf_paras xml_pool)
     <= Containment.found_count (Containment.draw_table pdf_paras (xml_pool ++ more)).
Proof.
  split.
  - intros para [Hin Hm]%PoolFacts.row_found. apply PoolFacts.row_of; [done|].
    rewrite map_app. by apply PoolFacts.is_match_app.
  - unfold Containment.draw_table. cbn [Containment.found_count].
    rewrite !ContainmentFacts.found_count_fold. simpl.
    apply PoolFacts.filter_length_le. intros para Hm.
    rewrite map_app. by apply PoolFacts.is_match_app.
Qed.

(* ===================================================================== *)
(** ** The numbers the menus accept *)
(* ===================================================================== *)

Module SelectorFacts.

Import Selector.

Local Open Scope Z_scope.

Lemma index_is_Some {X : Type} (l : list X) (i : Z) :
  is_Some (index l i) <-> - Z.of_nat (length l) <= i < Z.of_nat (length l).
Proof.
  unfold index. destruct (0 <=? i) eqn:E0.
  - apply Z.leb_le in E0. rewrite lookup_lt_is_Some. lia.
  - apply Z.leb_gt in E0. destruct (- Z.of_nat (length l) <=? i) eqn:E1.
    + apply Z.leb_le in E1. rewrite lookup_lt_is_Some. lia.
    + apply Z.leb_gt in E1. split; [by intros [x Hx]|lia].
Qed.

Lemma index_last {X : Type} (l : list X) : index l (-1) = last l.
Proof.
  unfold index. simpl. rewrite last_lookup.
  destruct l as [|x l]; [done|].
  destruct (- Z.of_nat (length (x :: l)) <=? -1) eqn:E.
  - f_equal. simpl length. lia.
  - apply Z.leb_gt in E. simpl length in E. lia.
Qed.

Lemma bind_is_Some {X Y : Type} (m : option X) (f : X -> option Y) :
  is_Some (x ← m; f x) <-> exists x, m = Some x /\ is_Some (f x).
Proof.
  destruct m as [x|]; simpl.
  - split; [by exists x|by intros (y & [= <-] & H)].
  - split; [by intros [y Hy]|by intros (y & Hy & _)].
Qed.

End SelectorFacts.

(** X25.  The numbers the menus accept.  The menu of the auditor runs
    for the numbers 1 to [len(xmls)] only.  The other menus subtract one
    and index the list without a check, so a number from [1 - len] to 0
    is accepted as well and counts from the end: 0 chooses the last
    file.  In the menu of the fixer any PDF number below 1 skips the
    comparison. *)
Theorem menus_accept_numbers_from_the_end {X : Type} (pdfs xmls : list X)
    (pdf_number xml_number : Z) :
  (is_Some (Selector.audit_choice xmls xml_number)
   <-> (1 <= xml_number <= Z.of_nat (length xmls))%Z)
  /\ (is_Some (Selector.get_file_selection pdfs xmls pdf_number xml_number)
      <-> (1 - Z.of_nat (length pdfs) <= pdf_number <= Z.of_nat (length pdfs)
           /\ 1 - Z.of_nat (length xmls) <= xml_number <= Z.of_nat (length xmls))%Z)
  /\ (is_Some (Selector.fixer_choice xmls pdfs xml_number pdf_number)
      <-> (1 - Z.of_nat (length xmls) <= xml_number <= Z.of_nat (length xmls)
           /\ pdf_number <= Z.of_nat (length pdfs))%Z)
  /\ Selector.get_file_selection pdfs xmls 0 0
     = (p ← last pdfs; x ← last xmls; Some (p, x))
  /\ ((pdf_number <= 0)%Z ->
      Selector.fixer_choice xmls pdfs 0 pdf_number = (x ← last xmls; Some (x, None))).
Proof.
  split; [|split; [|split; [|split]]].
  - unfold Selector.audit_choice.
    destruct (0 <=? xml_number - 1)%Z eqn:E0; simpl.
    + destruct (xml_number - 1 <? Z.of_nat (length xmls))%Z eqn:E1.
      * rewrite SelectorFacts.index_is_Some.
        apply Z.leb_le in E0. apply Z.ltb_lt in E1. lia.
      * apply Z.leb_le in E0. apply Z.ltb_ge in E1. split; [by intros [x Hx]|lia].
    + apply Z.leb_gt in E0. split; [by intros [x Hx]|lia].
  - unfold Selector.get_file_selection. rewrite SelectorFacts.bind_is_Some. split.
    + intros (p & Hp & Hx%SelectorFacts.bind_is_Some).
      destruct Hx as (x & Hx & _).
      assert (H1 : is_Some (Selector.index pdfs (pdf_number - 1))) by (by eexists).
      assert (H2 : is_Some (Selector.index xmls (xml_number - 1))) by (by eexists).
      apply SelectorFacts.index_is_Some in H1, H2. lia.
    + intros [H1 H2].
      destruct (proj2 (SelectorFacts.index_is_Some pdfs (pdf_number - 1))) as [p Hp]; [lia|].
      destruct (proj2 (SelectorFacts.index_is_Some xmls (xml_number - 1))) as [x Hx]; [lia|].
      exists p. split; [done|]. rewrite Hx. by eexists.
  - unfold Selector.fixer_choice. rewrite SelectorFacts.bind_is_Some. split.
    + intros (pdf & Hpdf & Hx%SelectorFacts.bind_is_Some).
      destruct Hx as (x & Hx & _).
      assert (H2 : is_Some (Selector.index xmls (xml_number - 1))) by (by eexists).
      apply SelectorFacts.index_is_Some in H2. split; [lia|].
      destruct (0 <=? pdf_number - 1)%Z eqn:E0; [|apply Z.leb_gt in E0; lia].
      destruct (Selector.index pdfs (pdf_number - 1)) as [p|] eqn:Ep; [|done].
      assert (H1 : is_Some (Selector.index pdfs (pdf_number - 1))) by (by eexists).
      apply SelectorFacts.index_is_Some in H1. lia.
    + intros [H1 H2].
      destruct (proj2 (SelectorFacts.index_is_Some xmls (xml_number - 1))) as [x Hx]; [lia|].
      destruct (0 <=? pdf_number - 1)%Z eqn:E0.
      * apply Z.leb_le in E0.
        destruct (proj2 (SelectorFacts.index_is_Some pdfs (pdf_number - 1)))
          as [p Hp]; [lia|].
        exists (Some p). rewrite Hp, Hx. split; [done|by eexists].
      * exists None. rewrite Hx. split; [done|by eexists].
  - unfold Selector.get_file_selection. by rewrite !SelectorFacts.index_last.
  - intros Hp. unfold Selector.fixer_choice.
    destruct (0 <=? pdf_number - 1)%Z eqn:E0; [apply Z.leb_le in E0; lia|].
    simpl. by rewrite SelectorFacts.index_last.
Qed.
